(** * RNEBA: transaction lifecycle, local event bus and read-model subscriptions

    A shallow embedding of [src/lib/txEvents.ts], [src/lib/transactions.ts]
    and the subscription wrappers of [src/lib/content.ts].

    - JavaScript exceptions are an explicit completion ([Normal] / [Thrown]),
      threaded through a small state-and-exception monad.
    - The module-level [Set] of listeners is an insertion-ordered list without
      repetition; a callback is named by the identity of its function value.
    - The hosted database is a list of rows together with an environment that
      says how each request is answered (served, answered without rows, or
      refused with an error). *)

From Stdlib Require Import String ZArith NArith Bool Arith Lia List.
Import ListNotations.
Local Open Scope string_scope.
Local Open Scope list_scope.

Set Implicit Arguments.

(* ===================================================================== *)
(** ** src/lib/txEvents.ts *)
(* ===================================================================== *)

Module TxEvents.

(** Identity of a callback function value ([Set] compares functions by
    reference). *)
Definition ident := nat.

(** What a callback may do to the bus while it runs: call
    [addTransactionListener] or call a removal handle. *)
Inductive BusOp :=
| Register (cb : ident)
| Remove (cb : ident).

(** The observable behaviour of one invocation [cb(tx)]: the bus operations
    it performs, then whether it throws.  Re-entrant calls of
    [emitTransaction] from inside a callback are not part of the model. *)
Record Behaviour := { does : list BusOp; throws : option string }.

Inductive Completion (A : Type) :=
| Normal (a : A)
| Thrown (e : string).
Arguments Thrown {A} e.

Section Bus.
Variable T : Type.

(** [listeners] is the module-level [Set]; [calls] and [emitted] are traces
    kept to observe invocations [cb(tx)] and calls of [emitTransaction]. *)
Record Bus := {
  listeners : list ident;
  calls : list (ident * T);
  emitted : list T
}.

Definition empty : Bus := {| listeners := []; calls := []; emitted := [] |}.

Definition Js (A : Type) := Bus -> Completion A * Bus.

Definition ret {A} (a : A) : Js A := fun b => (Normal a, b).

Definition bind {A B} (m : Js A) (k : A -> Js B) : Js B :=
  fun b => match m b with
           | (Normal a, b') => k a b'
           | (Thrown e, b') => (Thrown e, b')
           end.

(** [try { m } catch {}] *)
Definition try_catch (m : Js unit) : Js unit :=
  fun b => match m b with
           | (Thrown _, b') => (Normal tt, b')
           | r => r
           end.

(** [for (const x of xs) body(x)] *)
Fixpoint for_of {A} (xs : list A) (body : A -> Js unit) : Js unit :=
  match xs with
  | [] => ret tt
  | x :: rest => bind (body x) (fun _ => for_of rest body)
  end.

Definition has (cb : ident) (l : list ident) : bool := existsb (Nat.eqb cb) l.

(** [Set.prototype.add]: a value already present keeps its place. *)
Definition set_add (cb : ident) (l : list ident) : list ident :=
  if has cb l then l else l ++ [cb].

(** [Set.prototype.delete] *)
Definition set_delete (cb : ident) (l : list ident) : list ident :=
  filter (fun x => negb (Nat.eqb cb x)) l.

Definition with_listeners (l : list ident) (b : Bus) : Bus :=
  {| listeners := l; calls := calls b; emitted := emitted b |}.

(** [addTransactionListener(cb)]: registers and returns the handle
    [() => listeners.delete(cb)], represented by the callback it removes. *)
Definition addTransactionListener (cb : ident) (b : Bus) : ident * Bus :=
  (cb, with_listeners (set_add cb (listeners b)) b).

(** Calling the handle returned by [addTransactionListener]. *)
Definition call_handle (h : ident) (b : Bus) : bool * Bus :=
  (has h (listeners b), with_listeners (set_delete h (listeners b)) b).

Definition apply_op (b : Bus) (op : BusOp) : Bus :=
  match op with
  | Register cb => snd (addTransactionListener cb b)
  | Remove cb => snd (call_handle cb b)
  end.

(** Successive calls of [addTransactionListener]. *)
Definition register_all (cbs : list ident) (b : Bus) : Bus :=
  fold_left (fun b cb => snd (addTransactionListener cb b)) cbs b.

Variable code : ident -> T -> Behaviour.

(** The call [cb(tx)]. *)
Definition invoke (cb : ident) (tx : T) : Js unit :=
  fun b =>
    let b1 := {| listeners := listeners b;
                 calls := calls b ++ [(cb, tx)];
                 emitted := emitted b |} in
    let b2 := fold_left apply_op (does (code cb tx)) b1 in
    match throws (code cb tx) with
    | Some e => (Thrown e, b2)
    | None => (Normal tt, b2)
    end.

(** [Array.from(listeners)] *)
Definition Array_from (l : list ident) : list ident := l.

Definition emitTransaction (tx : T) : Js unit :=
  fun b =>
    let b0 := {| listeners := listeners b;
                 calls := calls b;
                 emitted := emitted b ++ [tx] |} in
    for_of (Array_from (listeners b0))
           (fun cb => try_catch (invoke cb tx)) b0.

(** The same loop without the [try]/[catch], for comparison. *)
Definition emit_unguarded (tx : T) : Js unit :=
  fun b => for_of (Array_from (listeners b)) (fun cb => invoke cb tx) b.

(** The invocations made since an earlier state of the bus. *)
Definition calls_since (b b' : Bus) : list (ident * T) :=
  skipn (length (calls b)) (calls b').

(** The bus reached from the empty one by a history of registrations and
    removals. *)
Definition bus_of (history : list BusOp) : Bus :=
  fold_left apply_op history empty.

End Bus.

End TxEvents.

(* ===================================================================== *)
(** ** src/lib/transactions.ts *)
(* ===================================================================== *)

Module Transactions.

Import TxEvents.

Inductive TransactionStatus := pending | rejected | paid.

Definition status_eqb (a b : TransactionStatus) : bool :=
  match a, b with
  | pending, pending | rejected, rejected | paid, paid => true
  | _, _ => false
  end.

(** An ISO-8601 instant, held as its count of milliseconds since the epoch. *)
Definition ISO := N.

(** A JavaScript [number]; amounts are stored and copied, never computed
    with. *)
Definition number := Z.

(** [null] is [None]. *)
Record Transaction := {
  id : string;
  user_id : string;
  offer_id : option string;
  offer_title : option string;
  offer_icon_url : option string;
  amount : option number;
  status : TransactionStatus;
  proof_url : option string;
  notes : option string;
  reviewed_by : option string;
  reviewed_at : option ISO;
  created_at : ISO;
  updated_at : ISO
}.

Definition mapRow (r : Transaction) : Transaction :=
  {| id := id r;
     user_id := user_id r;
     offer_id := offer_id r;
     offer_title := offer_title r;
     offer_icon_url := offer_icon_url r;
     amount := amount r;
     status := status r;
     proof_url := proof_url r;
     notes := notes r;
     reviewed_by := reviewed_by r;
     reviewed_at := reviewed_at r;
     created_at := created_at r;
     updated_at := updated_at r |}.

(** [a ?? b] *)
Definition nullish {A} (a b : option A) : option A :=
  match a with Some v => Some v | None => b end.

(** The object passed to [.update(...)]: a key that is absent is [None], a
    key set to [null] is [Some None]. *)
Record Patch := {
  patch_status : option TransactionStatus;
  patch_offer_title : option (option string);
  patch_offer_icon_url : option (option string);
  patch_amount : option (option number);
  patch_notes : option (option string);
  patch_reviewed_by : option (option string);
  patch_reviewed_at : option (option ISO)
}.

Definition assign {A} (p : option A) (old : A) : A :=
  match p with Some v => v | None => old end.

(** [{ ...r, ...patch }] *)
Definition spread (r : Transaction) (p : Patch) : Transaction :=
  {| id := id r;
     user_id := user_id r;
     offer_id := offer_id r;
     offer_title := assign (patch_offer_title p) (offer_title r);
     offer_icon_url := assign (patch_offer_icon_url p) (offer_icon_url r);
     amount := assign (patch_amount p) (amount r);
     status := assign (patch_status p) (status r);
     proof_url := proof_url r;
     notes := assign (patch_notes p) (notes r);
     reviewed_by := assign (patch_reviewed_by p) (reviewed_by r);
     reviewed_at := assign (patch_reviewed_at p) (reviewed_at r);
     created_at := created_at r;
     updated_at := updated_at r |}.

Definition with_id (i : string) (r : Transaction) : Transaction :=
  {| id := i;
     user_id := user_id r;
     offer_id := offer_id r;
     offer_title := offer_title r;
     offer_icon_url := offer_icon_url r;
     amount := amount r;
     status := status r;
     proof_url := proof_url r;
     notes := notes r;
     reviewed_by := reviewed_by r;
     reviewed_at := reviewed_at r;
     created_at := created_at r;
     updated_at := updated_at r |}.

(** The object passed to [.insert(...)]. *)
Record Payload := {
  payload_user_id : string;
  payload_offer_id : option string;
  payload_offer_title : option string;
  payload_offer_icon_url : option string;
  payload_amount : option number;
  payload_status : TransactionStatus;
  payload_proof_url : option string
}.

(** *** The Remote Data Gateway *)

(** An error object returned by the gateway (always truthy). *)
Record GatewayError := { message : string }.

(** How the gateway answers one request. *)
Inductive Verdict :=
| Served                      (* executed, the affected rows are returned *)
| Suppressed                  (* executed, row-level security returns no row *)
| Refused (e : GatewayError). (* fails with [e], nothing is written *)

Definition refused (v : Verdict) : bool :=
  match v with Refused _ => true | _ => false end.

Definition suppressed (v : Verdict) : bool :=
  match v with Suppressed => true | _ => false end.

(** The surroundings of the client: its clock, the gateway's id generator and
    clock, how the gateway answers its n-th read and n-th write, and the code
    of the callbacks registered on the event bus. *)
Record Env := {
  Date_now : nat -> ISO;          (* n-th reading of [new Date()] *)
  gen_random_uuid : nat -> string;(* id default of the n-th write *)
  db_now : nat -> ISO;            (* gateway time of the n-th write *)
  read_verdict : nat -> Verdict;
  write_verdict : nat -> Verdict;
  code : ident -> Transaction -> Behaviour
}.

Record World := {
  table : list Transaction;       (* the gateway's [transactions] table *)
  bus : Bus Transaction;          (* the state of txEvents.ts *)
  ticks : nat;                    (* readings of the client clock so far *)
  reads : nat;                    (* read requests answered so far *)
  writes : nat                    (* write requests answered so far *)
}.

(** [{ data, error }] of a query returning rows. *)
Record Response := {
  data : option (list Transaction);
  error : option GatewayError
}.

(** [{ data, error }] after [.single()]. *)
Record SingleResponse := {
  single_data : option Transaction;
  single_error : option GatewayError
}.

Inductive Filter :=
| eq_id (v : string)
| eq_user_id (v : string)
| eq_offer_id (v : string)
| neq_status (v : TransactionStatus).

Definition option_eqb (v : string) (o : option string) : bool :=
  match o with Some x => String.eqb x v | None => false end.

Definition holds (f : Filter) (r : Transaction) : bool :=
  match f with
  | eq_id v => String.eqb (id r) v
  | eq_user_id v => String.eqb (user_id r) v
  | eq_offer_id v => option_eqb v (offer_id r)
  | neq_status v => negb (status_eqb (status r) v)
  end.

Definition matches (fs : list Filter) (r : Transaction) : bool :=
  forallb (fun f => holds f r) fs.

(** [.order('created_at', { ascending: false })], a stable insertion sort. *)
Fixpoint insert_desc (r : Transaction) (l : list Transaction) : list Transaction :=
  match l with
  | [] => [r]
  | x :: rest =>
      if N.ltb (created_at r) (created_at x)
      then x :: insert_desc r rest
      else r :: l
  end.

Fixpoint order_desc (l : list Transaction) : list Transaction :=
  match l with
  | [] => []
  | r :: rest => insert_desc r (order_desc rest)
  end.

(** [(rows as any[] | null)?.[0]] *)
Definition first (d : option (list Transaction)) : option Transaction :=
  match d with
  | Some (r :: _) => Some r
  | _ => None
  end.

Definition count_read (w : World) : World :=
  {| table := table w; bus := bus w; ticks := ticks w;
     reads := S (reads w); writes := writes w |}.

Definition commit (t : list Transaction) (w : World) : World :=
  {| table := t; bus := bus w; ticks := ticks w;
     reads := reads w; writes := S (writes w) |}.

Definition failure (e : GatewayError) : Response :=
  {| data := None; error := Some e |}.

Definition rows (l : list Transaction) : Response :=
  {| data := Some l; error := None |}.

Definition touch (t : ISO) (r : Transaction) : Transaction :=
  {| id := id r;
     user_id := user_id r;
     offer_id := offer_id r;
     offer_title := offer_title r;
     offer_icon_url := offer_icon_url r;
     amount := amount r;
     status := status r;
     proof_url := proof_url r;
     notes := notes r;
     reviewed_by := reviewed_by r;
     reviewed_at := reviewed_at r;
     created_at := created_at r;
     updated_at := t |}.

Definition duplicate_key : GatewayError :=
  {| message := "duplicate key value violates unique constraint" |}.

Definition not_single : GatewayError :=
  {| message := "JSON object requested, multiple (or no) rows returned" |}.

Section Gateway.
Variable env : Env.

(** Modelled from the spec: the Remote Data Gateway is a hosted service, not
    code of the repository.  A filtered select ordered by creation time
    descending, with an optional limit.  Row-level security may hide every
    row from the caller. *)
Definition select_desc (fs : list Filter) (limit : option nat) (w : World)
  : Response * World :=
  let found := order_desc (filter (matches fs) (table w)) in
  let r := match read_verdict env (reads w) with
           | Refused e => failure e
           | Suppressed => rows []
           | Served => rows (match limit with
                             | Some n => firstn n found
                             | None => found
                             end)
           end in
  (r, count_read w).

(** Modelled from the spec: update-by-filter.  Every matching row takes the
    keys of the patch, a trigger refreshes [updated_at], and the rows
    written are what the request may return. *)
Definition written (p : Patch) (w : World) (r : Transaction) : Transaction :=
  touch (db_now env (writes w)) (spread r p).

Definition update_rows (p : Patch) (fs : list Filter) (w : World)
  : list Transaction :=
  map (fun r => if matches fs r then written p w r else r) (table w).

Definition affected (p : Patch) (fs : list Filter) (w : World)
  : list Transaction :=
  map (written p w) (filter (matches fs) (table w)).

(** [.update(patch).eq(...).select('*').limit(1)] *)
Definition update_returning (p : Patch) (fs : list Filter) (w : World)
  : Response * World :=
  match write_verdict env (writes w) with
  | Refused e => (failure e, commit (table w) w)
  | Suppressed => (rows [], commit (update_rows p fs w) w)
  | Served => (rows (firstn 1 (affected p fs w)), commit (update_rows p fs w) w)
  end.

(** [.single()]: exactly one row or an error. *)
Definition single (l : list Transaction) : SingleResponse :=
  match l with
  | [r] => {| single_data := Some r; single_error := None |}
  | _ => {| single_data := None; single_error := Some not_single |}
  end.

(** The rows the gateway reads back for an update. *)
Definition read_back (p : Patch) (fs : list Filter) (w : World)
  : list Transaction :=
  match write_verdict env (writes w) with
  | Served => affected p fs w
  | _ => []
  end.

(** [.update(patch).eq(...).select('*').single()] *)
Definition update_single (p : Patch) (fs : list Filter) (w : World)
  : SingleResponse * World :=
  match write_verdict env (writes w) with
  | Refused e =>
      ({| single_data := None; single_error := Some e |}, commit (table w) w)
  | _ => (single (read_back p fs w), commit (update_rows p fs w) w)
  end.

(** Modelled from the spec: insert.  The gateway assigns [id], [created_at]
    and [updated_at]; the columns the payload does not name are null; [id]
    is a primary key. *)
Definition inserted (p : Payload) (w : World) : Transaction :=
  {| id := gen_random_uuid env (writes w);
     user_id := payload_user_id p;
     offer_id := payload_offer_id p;
     offer_title := payload_offer_title p;
     offer_icon_url := payload_offer_icon_url p;
     amount := payload_amount p;
     status := payload_status p;
     proof_url := payload_proof_url p;
     notes := None;
     reviewed_by := None;
     reviewed_at := None;
     created_at := db_now env (writes w);
     updated_at := db_now env (writes w) |}.

Definition taken (i : string) (t : list Transaction) : bool :=
  existsb (fun r => String.eqb (id r) i) t.

(** [.insert(payload).select('*').limit(1)] *)
Definition insert_returning (p : Payload) (w : World) : Response * World :=
  match write_verdict env (writes w) with
  | Refused e => (failure e, commit (table w) w)
  | v =>
      if taken (gen_random_uuid env (writes w)) (table w)
      then (failure duplicate_key, commit (table w) w)
      else (rows (if suppressed v then [] else firstn 1 [inserted p w]),
            commit (table w ++ [inserted p w]) w)
  end.

End Gateway.

(** *** The async functions of the module *)

(** How a promise settles. *)
Inductive Outcome (A : Type) :=
| Resolved (a : A)
| Rejected (e : GatewayError).
Arguments Rejected {A} e.

Definition M (A : Type) := World -> Outcome A * World.

Definition pure {A} (a : A) : M A := fun w => (Resolved a, w).

Definition throw {A} (e : GatewayError) : M A := fun w => (Rejected e, w).

Definition then_ {A B} (m : M A) (k : A -> M B) : M B :=
  fun w => match m w with
           | (Resolved a, w') => k a w'
           | (Rejected e, w') => (Rejected e, w')
           end.

Notation "x <- m ;; k" := (then_ m (fun x => k))
  (at level 61, m at next level, right associativity).
Notation "m ;;; k" := (then_ m (fun _ => k))
  (at level 61, right associativity).

(** [await] of a gateway request: the request itself never rejects, it
    answers with [{ data, error }]. *)
Definition await {A} (rq : World -> A * World) : M A :=
  fun w => let (a, w') := rq w in (Resolved a, w').

Module ReuseInput.
Record t := {
  userId : string;
  offerId : string;
  offerTitle : option string;
  offerIconUrl : option string;
  amount : option number
}.
End ReuseInput.

Module PendingInput.
Record t := {
  userId : string;
  offerId : option string;
  offerTitle : option string;
  offerIconUrl : option string;
  amount : option number;
  proofUrl : option string
}.
End PendingInput.

(** [options] of [updateTransactionStatus]: a key left [undefined] is [None],
    a key given as [null] is [Some None]. *)
Module Options.
Record t := {
  notes : option (option string);
  reviewed_by : option (option string);
  reviewed_at : option (option ISO)
}.
End Options.

Section Client.
Variable env : Env.

Definition with_bus (b : Bus Transaction) (w : World) : World :=
  {| table := table w; bus := b; ticks := ticks w;
     reads := reads w; writes := writes w |}.

(** The call [emitTransaction(tx)] of txEvents.ts. *)
Definition emit (tx : Transaction) : M unit :=
  fun w => match emitTransaction (code env) tx (bus w) with
           | (Normal _, b) => (Resolved tt, with_bus b w)
           | (Thrown e, b) => (Rejected {| message := e |}, with_bus b w)
           end.

(** [new Date().toISOString()] *)
Definition new_Date : M ISO :=
  fun w => (Resolved (Date_now env (ticks w)),
            {| table := table w; bus := bus w; ticks := S (ticks w);
               reads := reads w; writes := writes w |}).

Definition createPendingTransaction (input : PendingInput.t) : M Transaction :=
  let payload :=
    {| payload_user_id := PendingInput.userId input;
       payload_offer_id := nullish (PendingInput.offerId input) None;
       payload_offer_title := nullish (PendingInput.offerTitle input) None;
       payload_offer_icon_url := nullish (PendingInput.offerIconUrl input) None;
       payload_amount := nullish (PendingInput.amount input) None;
       payload_status := pending;
       payload_proof_url := nullish (PendingInput.proofUrl input) None |} in
  r <- await (insert_returning env payload) ;;
  match error r with
  | Some e => throw e
  | None =>
      match first (data r) with
      | None =>
          created <- new_Date ;;
          updated <- new_Date ;;
          let tx := mapRow
            {| id := "unknown";
               user_id := payload_user_id payload;
               offer_id := payload_offer_id payload;
               offer_title := payload_offer_title payload;
               offer_icon_url := payload_offer_icon_url payload;
               amount := payload_amount payload;
               status := payload_status payload;
               proof_url := payload_proof_url payload;
               notes := None;
               reviewed_by := None;
               reviewed_at := None;
               created_at := created;
               updated_at := updated |} in
          emit tx ;;;
          pure tx
      | Some row =>
          let tx := mapRow row in
          emit tx ;;;
          pure tx
      end
  end.

(** The patch of the reuse path. *)
Definition reuse_patch (input : ReuseInput.t) (existing : Transaction) : Patch :=
  {| patch_status := Some pending;
     patch_offer_title :=
       Some (nullish (nullish (ReuseInput.offerTitle input) (offer_title existing)) None);
     patch_offer_icon_url :=
       Some (nullish (nullish (ReuseInput.offerIconUrl input) (offer_icon_url existing)) None);
     patch_amount :=
       Some (nullish (nullish (ReuseInput.amount input) (amount existing)) None);
     patch_notes := None;
     patch_reviewed_by := Some None;
     patch_reviewed_at := Some None |}.

(** The find query of the reuse rule. *)
Definition find_filters (input : ReuseInput.t) : list Filter :=
  [eq_user_id (ReuseInput.userId input);
   eq_offer_id (ReuseInput.offerId input);
   neq_status paid].

Definition createOrReuseActiveTransaction (input : ReuseInput.t) : M Transaction :=
  found <- await (select_desc env (find_filters input) (Some 1)) ;;
  match error found with
  | Some findErr => throw findErr
  | None =>
      match first (data found) with
      | Some existing =>
          let id := id existing in
          let patch := reuse_patch input existing in
          r <- await (update_returning env patch [eq_id id]) ;;
          match error r with
          | Some e => throw e
          | None =>
              match first (data r) with
              | None =>
                  let tx := mapRow (with_id id (spread existing patch)) in
                  emit tx ;;;
                  pure tx
              | Some row =>
                  let tx := mapRow row in
                  emit tx ;;;
                  pure tx
              end
          end
      | None =>
          createPendingTransaction
            {| PendingInput.userId := ReuseInput.userId input;
               PendingInput.offerId := Some (ReuseInput.offerId input);
               PendingInput.offerTitle := ReuseInput.offerTitle input;
               PendingInput.offerIconUrl := ReuseInput.offerIconUrl input;
               PendingInput.amount := ReuseInput.amount input;
               PendingInput.proofUrl := None |}
      end
  end.

Definition status_patch (s : TransactionStatus) : Patch :=
  {| patch_status := Some s;
     patch_offer_title := None;
     patch_offer_icon_url := None;
     patch_amount := None;
     patch_notes := None;
     patch_reviewed_by := None;
     patch_reviewed_at := None |}.

Definition set_notes (v : option string) (p : Patch) : Patch :=
  {| patch_status := patch_status p;
     patch_offer_title := patch_offer_title p;
     patch_offer_icon_url := patch_offer_icon_url p;
     patch_amount := patch_amount p;
     patch_notes := Some v;
     patch_reviewed_by := patch_reviewed_by p;
     patch_reviewed_at := patch_reviewed_at p |}.

Definition set_reviewed_by (v : option string) (p : Patch) : Patch :=
  {| patch_status := patch_status p;
     patch_offer_title := patch_offer_title p;
     patch_offer_icon_url := patch_offer_icon_url p;
     patch_amount := patch_amount p;
     patch_notes := patch_notes p;
     patch_reviewed_by := Some v;
     patch_reviewed_at := patch_reviewed_at p |}.

Definition set_reviewed_at (v : option ISO) (p : Patch) : Patch :=
  {| patch_status := patch_status p;
     patch_offer_title := patch_offer_title p;
     patch_offer_icon_url := patch_offer_icon_url p;
     patch_amount := patch_amount p;
     patch_notes := patch_notes p;
     patch_reviewed_by := patch_reviewed_by p;
     patch_reviewed_at := Some v |}.

(** The patch [updateTransactionStatus] builds before it writes. *)
Definition build_patch (s : TransactionStatus) (options : option Options.t)
  : M Patch :=
  let patch := status_patch s in
  match options with
  | Some o =>
      let patch := match Options.notes o with
                   | Some v => set_notes v patch
                   | None => patch
                   end in
      let patch := match Options.reviewed_by o with
                   | Some v => set_reviewed_by v patch
                   | None => patch
                   end in
      match Options.reviewed_at o with
      | Some v => pure (set_reviewed_at v patch)
      | None =>
          if negb (status_eqb s pending)
          then now <- new_Date ;; pure (set_reviewed_at (Some now) patch)
          else pure patch
      end
  | None => pure patch
  end.

Definition type_error : GatewayError :=
  {| message := "TypeError: Cannot read properties of null" |}.

Definition updateTransactionStatus (id : string) (s : TransactionStatus)
           (options : option Options.t) : M Transaction :=
  patch <- build_patch s options ;;
  r <- await (update_single env patch [eq_id id]) ;;
  match single_error r with
  | Some e => throw e
  | None =>
      match single_data r with
      | Some row =>
          let tx := mapRow row in
          emit tx ;;;
          pure tx
      | None => throw type_error
      end
  end.


(** *** Calls in progress together *)

(** What is left of the body of [createOrReuseActiveTransaction] when the
    find query has answered with a row (lines 66 to 92). *)
Definition reuse_existing (input : ReuseInput.t) (existing : Transaction)
  : M Transaction :=
  let id := id existing in
  let patch := reuse_patch input existing in
  r <- await (update_returning env patch [eq_id id]) ;;
  match error r with
  | Some e => throw e
  | None =>
      match first (data r) with
      | None =>
          let tx := mapRow (with_id id (spread existing patch)) in
          emit tx ;;;
          pure tx
      | Some row =>
          let tx := mapRow row in
          emit tx ;;;
          pure tx
      end
  end.

(** What is left of it when the find query has answered with no row (lines
    96 to 102). *)
Definition insert_new (input : ReuseInput.t) : M Transaction :=
  createPendingTransaction
    {| PendingInput.userId := ReuseInput.userId input;
       PendingInput.offerId := Some (ReuseInput.offerId input);
       PendingInput.offerTitle := ReuseInput.offerTitle input;
       PendingInput.offerIconUrl := ReuseInput.offerIconUrl input;
       PendingInput.amount := ReuseInput.amount input;
       PendingInput.proofUrl := None |}.

(** A call of [createOrReuseActiveTransaction] in progress.  The body runs
    without interruption from one [await] to the next.  At an [await] the
    call is suspended until the gateway has answered its request, and
    whatever else is ready runs in the meantime: the function takes no lock
    and the caller in offer/[id].tsx does not await it. *)
Inductive Call :=
| AwaitingFind (input : ReuseInput.t)       (* suspended at line 53 *)
| AwaitingUpdate (input : ReuseInput.t) (existing : Transaction)
                                            (* suspended at line 76 *)
| AwaitingInsert (input : ReuseInput.t)     (* suspended at line 122 *)
| Settled (o : Outcome Transaction).

(** The gateway answers the request a call waits for, against the table as
    it is at that moment, and the call runs on to its next [await] or to
    its end. *)
Definition resume (c : Call) (w : World) : Call * World :=
  match c with
  | AwaitingFind input =>
      let (found, w1) := select_desc env (find_filters input) (Some 1) w in
      match error found with
      | Some findErr => (Settled (Rejected findErr), w1)
      | None =>
          match first (data found) with
          | Some existing => (AwaitingUpdate input existing, w1)
          | None => (AwaitingInsert input, w1)
          end
      end
  | AwaitingUpdate input existing =>
      let (o, w1) := reuse_existing input existing w in (Settled o, w1)
  | AwaitingInsert input =>
      let (o, w1) := insert_new input w in (Settled o, w1)
  | Settled o => (Settled o, w)
  end.

(** Resumes the n-th of the calls in progress. *)
Fixpoint resume_nth (n : nat) (calls : list Call) (w : World)
  : list Call * World :=
  match calls, n with
  | [], _ => ([], w)
  | c :: rest, 0 => let (c', w') := resume c w in (c' :: rest, w')
  | c :: rest, S k => let (rest', w') := resume_nth k rest w in (c :: rest', w')
  end.

(** Calls in progress together: [schedule] names, answer by answer, the
    call whose request the gateway answers next. *)
Fixpoint interleave (schedule : list nat) (calls : list Call) (w : World)
  : list Call * World :=
  match schedule with
  | [] => (calls, w)
  | n :: later =>
      let (calls', w') := resume_nth n calls w in interleave later calls' w'
  end.

End Client.

(** The rows of the table that belong to a (user, offer) pair. *)
Definition for_pair (u o : string) (r : Transaction) : bool :=
  String.eqb (user_id r) u && option_eqb o (offer_id r).

Definition rows_of (u o : string) (t : list Transaction) : list Transaction :=
  filter (for_pair u o) t.

Definition is_paid (r : Transaction) : bool := status_eqb (status r) paid.


End Transactions.

(* ===================================================================== *)
(** ** The read-model subscriptions of src/lib/content.ts and
       src/lib/transactions.ts *)
(* ===================================================================== *)

Module Subscriptions.

Import Transactions.

Record Slide := {
  slide_id : string;
  slide_image : string;
  slide_link : option string
}.

Record SlideRow := {
  slide_row_id : string;
  slide_row_image : string;
  slide_row_link : option string;
  slide_row_created_at : ISO
}.

Record OfferItem := {
  offer_item_id : string;
  title : string;
  offer_amount : number;
  icon : option string;
  label : option string;
  description : option string;
  steps : option (list string);
  storeUrl : option string;
  active : option bool;
  requiresProof : option bool
}.

Record OfferRow := {
  offer_row_id : string;
  offer_row_title : string;
  offer_row_amount : number;
  offer_row_icon : option string;
  offer_row_label : option string;
  offer_row_description : option string;
  offer_row_steps : option (list string);
  store_url : option string;
  offer_row_active : option bool;
  requires_proof : option bool;
  offer_row_created_at : ISO
}.

(** [x ?? undefined] *)
Definition or_undefined {A} (x : option A) : option A := nullish x None.

Definition fromSlideRow (r : SlideRow) : Slide :=
  {| slide_id := slide_row_id r;
     slide_image := slide_row_image r;
     slide_link := or_undefined (slide_row_link r) |}.

Definition fromOfferRow (r : OfferRow) : OfferItem :=
  {| offer_item_id := offer_row_id r;
     title := offer_row_title r;
     offer_amount := offer_row_amount r;
     icon := or_undefined (offer_row_icon r);
     label := or_undefined (offer_row_label r);
     description := or_undefined (offer_row_description r);
     steps := or_undefined (offer_row_steps r);
     storeUrl := or_undefined (store_url r);
     active := or_undefined (offer_row_active r);
     requiresProof := or_undefined (requires_proof r) |}.

(** What distinguishes one subscription function from another. *)
Record Feed := {
  feed_table : string;
  feed_channel : string;
  feed_filter : option string;
  feed_warning : string
}.

(** Which asynchronous block is waiting for its query. *)
Inductive Waiting :=
| InitialLoad    (* the block started by the subscribe call *)
| Reload.        (* a run of the change handler *)

Section ReadModel.
Variables Row Item : Type.
Variable fromRow : Row -> Item.
Variable feed : Feed.

(** [{ data, error }] of the select. *)
Record Answer := {
  answer_data : option (list Row);
  answer_error : option GatewayError
}.

(** One subscription instance: the captured flag, the registered channel,
    the queries not answered yet, and what the outside has seen of it (the
    arguments of every call of [cb], the warnings logged). *)
Record Instance := {
  cancelled : bool;
  channel : option string;
  in_flight : list Waiting;
  received : list (list Item);
  warned : list string
}.

(** The body of the subscribe function, up to its [return]. *)
Definition subscribe : Instance :=
  {| cancelled := false;
     channel := Some (feed_channel feed);
     in_flight := [InitialLoad];
     received := [];
     warned := [] |}.

(** What the event loop may run next for this instance. *)
Inductive Event :=
| Change                           (* a change notification arrives *)
| Answered (k : nat) (a : Answer)  (* the k-th waiting query is answered *)
| Unsubscribe.                     (* the returned function is called *)

(** [data?.map(fromRow) ?? []] *)
Definition items (a : Answer) : list Item :=
  match answer_data a with
  | Some l => map fromRow l
  | None => []
  end.

(** [if (!cancelled) cb(...)] *)
Definition deliver (a : Answer) (s : Instance) : Instance :=
  if negb (cancelled s)
  then {| cancelled := cancelled s;
          channel := channel s;
          in_flight := in_flight s;
          received := received s ++ [items a];
          warned := warned s |}
  else s.

(** [if (error) console.warn(..., error.message)] *)
Definition warn (a : Answer) (s : Instance) : Instance :=
  match answer_error a with
  | Some e => {| cancelled := cancelled s;
                 channel := channel s;
                 in_flight := in_flight s;
                 received := received s;
                 warned := warned s ++
                           [String.append (feed_warning feed)
                              (String.append " " (message e))] |}
  | None => s
  end.

Definition resume (q : Waiting) (a : Answer) (s : Instance) : Instance :=
  match q with
  | InitialLoad => warn a (deliver a s)
  | Reload => deliver a s
  end.

Fixpoint drop_nth {A} (k : nat) (l : list A) : list A :=
  match k, l with
  | _, [] => []
  | O, _ :: rest => rest
  | S k', x :: rest => x :: drop_nth k' rest
  end.

Definition step (e : Event) (s : Instance) : Instance :=
  match e with
  | Change =>
      match channel s with
      | Some _ => {| cancelled := cancelled s;
                     channel := channel s;
                     in_flight := in_flight s ++ [Reload];
                     received := received s;
                     warned := warned s |}
      | None => s
      end
  | Answered k a =>
      match nth_error (in_flight s) k with
      | Some q => resume q a {| cancelled := cancelled s;
                                channel := channel s;
                                in_flight := drop_nth k (in_flight s);
                                received := received s;
                                warned := warned s |}
      | None => s
      end
  | Unsubscribe =>
      {| cancelled := true;
         channel := None;
         in_flight := in_flight s;
         received := received s;
         warned := warned s |}
  end.

Definition run (events : list Event) (s : Instance) : Instance :=
  fold_left (fun s e => step e s) events s.

End ReadModel.

Definition slides_feed : Feed :=
  {| feed_table := "slides";
     feed_channel := "slides-changes";
     feed_filter := None;
     feed_warning := "[slides] load error" |}.

Definition offers_feed : Feed :=
  {| feed_table := "offers";
     feed_channel := "offers-changes";
     feed_filter := None;
     feed_warning := "[offers] load error" |}.

Definition user_transactions_feed (userId : string) : Feed :=
  {| feed_table := "transactions";
     feed_channel := String.append "transactions-user-" userId;
     feed_filter := Some (String.append "user_id=eq." userId);
     feed_warning := "[transactions] load error" |}.

Definition all_transactions_feed : Feed :=
  {| feed_table := "transactions";
     feed_channel := "transactions-all";
     feed_filter := None;
     feed_warning := "[transactions] load all error" |}.

Definition subscribeSlides : Instance Slide := subscribe Slide slides_feed.

Definition subscribeOffers : Instance OfferItem := subscribe OfferItem offers_feed.

Definition subscribeTransactionsForUser (userId : string) : Instance Transaction :=
  subscribe Transaction (user_transactions_feed userId).

Definition subscribeAllTransactions : Instance Transaction :=
  subscribe Transaction all_transactions_feed.

End Subscriptions.

(* ===================================================================== *)
(** ** Concrete scenarios used to exercise the model *)
(* ===================================================================== *)

Module Scenario.

Import TxEvents.

Definition quiet : Behaviour := {| does := []; throws := None |}.

(** Three listeners, the second of which throws. *)
Definition second_throws (cb : ident) (tx : string) : Behaviour :=
  if Nat.eqb cb 2 then {| does := []; throws := Some "boom" |} else quiet.

(** Listener 1 registers listener 3 and removes listener 2 while it runs. *)
Definition meddler (cb : ident) (tx : string) : Behaviour :=
  if Nat.eqb cb 1
  then {| does := [Register 3; Remove 2]; throws := None |}
  else quiet.

Definition two_listeners : Bus string :=
  register_all [1; 2] (empty string).

Import Transactions.

(** A gateway that serves every request; one listener code that stays
    quiet. *)
Definition calm : Env :=
  {| Date_now := fun n => N.of_nat (1000 + n);
     gen_random_uuid := fun n => nth n ["t1"; "t2"; "t3"; "t4"] "t0";
     db_now := fun n => N.of_nat (500 + n);
     read_verdict := fun _ => Served;
     write_verdict := fun _ => Served;
     code := fun _ _ => quiet |}.

(** The same gateway, with a security policy that returns no written row. *)
Definition guarded : Env :=
  {| Date_now := Date_now calm;
     gen_random_uuid := gen_random_uuid calm;
     db_now := db_now calm;
     read_verdict := fun _ => Served;
     write_verdict := fun _ => Suppressed;
     code := code calm |}.

Definition row (i : string) (s : TransactionStatus) (at_ : ISO) : Transaction :=
  {| id := i;
     user_id := "u1";
     offer_id := Some "o1";
     offer_title := Some "Install app";
     offer_icon_url := None;
     amount := Some 5%Z;
     status := s;
     proof_url := None;
     notes := Some "blurry";
     reviewed_by := Some "admin1";
     reviewed_at := None;
     created_at := at_;
     updated_at := at_ |}.

Definition world_of (t : list Transaction) : World :=
  {| table := t;
     bus := register_all [7] (empty Transaction);
     ticks := 0; reads := 0; writes := 0 |}.

Definition again : ReuseInput.t :=
  {| ReuseInput.userId := "u1";
     ReuseInput.offerId := "o1";
     ReuseInput.offerTitle := None;
     ReuseInput.offerIconUrl := Some "icon.png";
     ReuseInput.amount := None |}.

Definition attempt : PendingInput.t :=
  {| PendingInput.userId := "u1";
     PendingInput.offerId := Some "o1";
     PendingInput.offerTitle := Some "Install app";
     PendingInput.offerIconUrl := None;
     PendingInput.amount := Some 5%Z;
     PendingInput.proofUrl := None |}.

End Scenario.

From Stdlib Require DecimalString HexadecimalString Sorted Permutation.

(* ===================================================================== *)
(** ** src/lib/content.ts: a single offer, fetched and followed *)
(* ===================================================================== *)

Module OfferById.

Import Transactions.
Import Subscriptions.

(** [fetchOfferById], from the answer of its select on: it throws the error,
    or returns the first row mapped, or [null] when there is none. *)
Definition fetchOfferById (a : Answer OfferRow) : Outcome (option OfferItem) :=
  match answer_error a with
  | Some e => Rejected e
  | None =>
      match answer_data a with
      | Some (row :: _) => Resolved (Some (fromOfferRow row))
      | _ => Resolved None
      end
  end.

(** One instance of [subscribeOfferById]; [received] lists the arguments of
    the calls of [cb], which is taken to return normally. *)
Record Instance := {
  cancelled : bool;
  channel : option string;
  in_flight : list Waiting;
  received : list (option OfferItem)
}.

Definition subscribeOfferById (id : string) : Instance :=
  {| cancelled := false;
     channel := Some (String.append "offer-" (String.append id "-changes"));
     in_flight := [InitialLoad];
     received := [] |}.

(** [if (!cancelled) cb(v)] *)
Definition deliver (v : option OfferItem) (s : Instance) : Instance :=
  if negb (cancelled s)
  then {| cancelled := cancelled s;
          channel := channel s;
          in_flight := in_flight s;
          received := received s ++ [v] |}
  else s.

(** The [try]/[catch] around the awaited fetch, the same in the initial block
    and in the change handler. *)
Definition resume (a : Answer OfferRow) (s : Instance) : Instance :=
  match fetchOfferById a with
  | Resolved v => deliver v s
  | Rejected _ => deliver None s
  end.

Definition step (e : Event OfferRow) (s : Instance) : Instance :=
  match e with
  | Change _ =>
      match channel s with
      | Some _ => {| cancelled := cancelled s;
                     channel := channel s;
                     in_flight := in_flight s ++ [Reload];
                     received := received s |}
      | None => s
      end
  | Answered k a =>
      match nth_error (in_flight s) k with
      | Some _ => resume a {| cancelled := cancelled s;
                              channel := channel s;
                              in_flight := drop_nth k (in_flight s);
                              received := received s |}
      | None => s
      end
  | Unsubscribe _ =>
      {| cancelled := true;
         channel := None;
         in_flight := in_flight s;
         received := received s |}
  end.

Definition run (events : list (Event OfferRow)) (s : Instance) : Instance :=
  fold_left (fun s e => step e s) events s.

End OfferById.

(* ===================================================================== *)
(** ** src/lib/content.ts: writing slides and offers *)
(* ===================================================================== *)

Module Content.

Import Transactions.
Import Subscriptions.

(** The argument of [addOffer]. *)
Module OfferInput.
Record t := {
  id : option string;
  title : string;
  amount : number;
  icon : option string;
  label : option string;
  description : option string;
  steps : option (list string);
  storeUrl : option string;
  active : option bool;
  requiresProof : option bool
}.
End OfferInput.

(** A [Partial<OfferItem>]: a key that is absent is [None]. *)
Module OfferPatch.
Record t := {
  id : option string;
  title : option string;
  amount : option number;
  icon : option string;
  label : option string;
  description : option string;
  steps : option (list string);
  storeUrl : option string;
  active : option bool;
  requiresProof : option bool
}.
End OfferPatch.

(** The argument of [addSlide]. *)
Module SlideInput.
Record t := {
  id : option string;
  image : string;
  link : option string
}.
End SlideInput.

(** A [Partial<Slide>].  For [link] the code tells a key that is absent
    ([None]) from a key that is present and [undefined] ([Some None]). *)
Module SlidePatch.
Record t := {
  image : option string;
  link : option (option string)
}.
End SlidePatch.

(** The columns [toOfferInsert] builds. *)
Record OfferInsert := {
  insert_title : string;
  insert_amount : number;
  insert_icon : option string;
  insert_label : option string;
  insert_description : option string;
  insert_steps : option (list string);
  insert_store_url : option string;
  insert_active : bool;
  insert_requires_proof : bool
}.

(** [a ?? d] for a default that is not nullable. *)
Definition or_default {A} (a : option A) (d : A) : A :=
  match a with Some v => v | None => d end.

Definition toOfferInsert (input : OfferInput.t) : OfferInsert :=
  {| insert_title := OfferInput.title input;
     insert_amount := OfferInput.amount input;
     insert_icon := nullish (OfferInput.icon input) None;
     insert_label := nullish (OfferInput.label input) None;
     insert_description := nullish (OfferInput.description input) None;
     insert_steps := nullish (OfferInput.steps input) None;
     insert_store_url := nullish (OfferInput.storeUrl input) None;
     insert_active := or_default (OfferInput.active input) true;
     insert_requires_proof := or_default (OfferInput.requiresProof input) false |}.

(** The object [toOfferPatch] builds: a key that is [undefined] ([None]) is
    left out of the request. *)
Record OfferUpdate := {
  update_title : option string;
  update_amount : option number;
  update_icon : option string;
  update_label : option string;
  update_description : option string;
  update_steps : option (list string);
  update_store_url : option string;
  update_active : option bool;
  update_requires_proof : option bool
}.

Definition toOfferPatch (patch : OfferPatch.t) : OfferUpdate :=
  {| update_title := OfferPatch.title patch;
     update_amount := OfferPatch.amount patch;
     update_icon := or_undefined (OfferPatch.icon patch);
     update_label := or_undefined (OfferPatch.label patch);
     update_description := or_undefined (OfferPatch.description patch);
     update_steps := or_undefined (OfferPatch.steps patch);
     update_store_url := or_undefined (OfferPatch.storeUrl patch);
     update_active := or_undefined (OfferPatch.active patch);
     update_requires_proof := or_undefined (OfferPatch.requiresProof patch) |}.

(** The object [updateSlide] sends: for [link], [None] leaves the column
    alone, [Some None] writes [null]. *)
Record SlideUpdate := {
  update_image : option string;
  update_link : option (option string)
}.

(** A string is falsy when it is empty. *)
Definition truthy (s : string) : bool := negb (String.eqb s "").

(** What [globalThis.crypto?.getRandomValues(new Uint8Array(8))] does. *)
Inductive Crypto :=
| no_crypto                              (* [crypto] is undefined *)
| random_values (bytes : list Byte.byte) (* the array, filled *)
| crypto_throws.                         (* the call throws *)

(** [b.toString(16).padStart(2, '0')] *)
Definition hex2 (b : Byte.byte) : string :=
  let h := HexadecimalString.NilZero.string_of_uint (N.to_hex_uint (Byte.to_N b)) in
  if Nat.ltb (String.length h) 2 then String.append "0" h else h.

(** The decimal digits of [Date.now()]. *)
Definition decimal (n : N) : string :=
  DecimalString.NilZero.string_of_uint (N.to_uint n).

(** [cryptoRandomId], given what the runtime does and the time it would
    read. *)
Definition cryptoRandomId (prefix : string) (c : Crypto) (now : N) : string :=
  match c with
  | random_values bytes =>
      String.append prefix (String.append "-" (String.concat "" (map hex2 bytes)))
  | no_crypto => String.append prefix (String.append "-" (decimal now))
  | crypto_throws => String.append prefix (String.append "-" (decimal now))
  end.

(** Every value an element of a [Uint8Array] can take. *)
Definition all_bytes : list Byte.byte :=
  flat_map (fun n => match Byte.of_N (N.of_nat n) with
                     | Some b => [b]
                     | None => []
                     end) (seq 0 256).

(** Reads two hexadecimal digits back. *)
Definition unhex2 (s : string) : option Byte.byte :=
  find (fun b => String.eqb (hex2 b) s) all_bytes.

(** The browser or runtime around the module, and the gateway. *)
Record Env := {
  trim : string -> string;      (* [String.prototype.trim] *)
  crypto : nat -> Crypto;       (* the n-th call for random values *)
  Date_now : nat -> ISO;        (* the n-th reading of the clock *)
  db_now : nat -> ISO;          (* gateway time of the n-th write *)
  write_verdict : nat -> Verdict
}.

Record Store := {
  slides : list SlideRow;      (* the gateway's [slides] table *)
  offers : list OfferRow;      (* the gateway's [offers] table *)
  console : list string;       (* what [console.warn] printed *)
  generated : nat;             (* ids generated so far *)
  ticks : nat;                 (* readings of the client clock so far *)
  writes : nat                 (* write requests answered so far *)
}.

Definition log (label : string) (e : GatewayError) (s : Store) : Store :=
  {| slides := slides s; offers := offers s;
     console := console s ++ [String.append label (String.append " " (message e))];
     generated := generated s; ticks := ticks s; writes := writes s |}.

Definition duplicate_key : GatewayError :=
  {| message := "duplicate key value violates unique constraint" |}.

(** A write request that has been sent and not yet answered: the label the
    callback passed to [.then] logs under, and what the request does to the
    two tables when the gateway carries it out. *)
Record Sent := {
  sent_label : string;
  sent_change : Store -> (list SlideRow * list OfferRow) + GatewayError
}.

Section Writes.
Variable env : Env.

(** Modelled from the spec: one write request to the gateway, answered at
    once.  [change] is what the request does to the two tables when it is
    carried out, or the error of a constraint it violates; the callback
    passed to [.then] logs the error, if any, under [label].  The functions
    of the module neither await nor chain their requests, so for a single
    request the moment of the answer does not matter; for two requests the
    order in which the gateway handles them is not the code's to decide, and
    is left open by [answer] below. *)
Definition request (label : string)
           (change : Store -> (list SlideRow * list OfferRow) + GatewayError)
           (s : Store) : Store :=
  let answered :=
    {| slides := slides s; offers := offers s; console := console s;
       generated := generated s; ticks := ticks s; writes := S (writes s) |} in
  match write_verdict env (writes s) with
  | Refused e => log label e answered
  | _ =>
      match change s with
      | inl (sl, ofs) =>
          {| slides := sl; offers := ofs; console := console s;
             generated := generated s; ticks := ticks s; writes := S (writes s) |}
      | inr e => log label e answered
      end
  end.

(** A call of [cryptoRandomId]: the clock is read only when no random bytes
    are to be had. *)
Definition generate (prefix : string) (s : Store) : string * Store :=
  let c := crypto env (generated s) in
  (cryptoRandomId prefix c (Date_now env (ticks s)),
   {| slides := slides s; offers := offers s; console := console s;
      generated := S (generated s);
      ticks := match c with random_values _ => ticks s | _ => S (ticks s) end;
      writes := writes s |}).

(** [input.id?.trim() || cryptoRandomId(prefix)] *)
Definition choose_id (given : option string) (prefix : string) (s : Store)
  : string * Store :=
  match given with
  | Some i => if truthy (trim env i) then (trim env i, s) else generate prefix s
  | None => generate prefix s
  end.

Definition slide_taken (i : string) (t : list SlideRow) : bool :=
  existsb (fun r => String.eqb (slide_row_id r) i) t.

Definition offer_taken (i : string) (t : list OfferRow) : bool :=
  existsb (fun r => String.eqb (offer_row_id r) i) t.

Definition addSlide (input : SlideInput.t) (s : Store) : Slide * Store :=
  let (id, s1) := choose_id (SlideInput.id input) "slide" s in
  let newSlide := {| slide_id := id;
                     slide_image := SlideInput.image input;
                     slide_link := SlideInput.link input |} in
  let s2 :=
    request "[slides] insert error"
      (fun s => if slide_taken id (slides s) then inr duplicate_key
                else inl (slides s ++
                          [ {| slide_row_id := id;
                               slide_row_image := SlideInput.image input;
                               slide_row_link := nullish (SlideInput.link input) None;
                               slide_row_created_at := db_now env (writes s) |} ],
                          offers s))
      s1 in
  (newSlide, s2).

Definition deleteSlide (id : string) (s : Store) : Store :=
  request "[slides] delete error"
    (fun s => inl (filter (fun r => negb (String.eqb (slide_row_id r) id)) (slides s),
                   offers s))
    s.

Definition slide_update (patch : SlidePatch.t) : SlideUpdate :=
  let update := {| update_image := SlidePatch.image patch;
                   update_link := match SlidePatch.link patch with
                                  | Some (Some v) => Some (Some v)
                                  | _ => None
                                  end |} in
  match SlidePatch.link patch with
  | Some l => {| update_image := update_image update;
                 update_link := Some (nullish l None) |}
  | None => update
  end.

Definition write_slide (u : SlideUpdate) (r : SlideRow) : SlideRow :=
  {| slide_row_id := slide_row_id r;
     slide_row_image := assign (update_image u) (slide_row_image r);
     slide_row_link := assign (update_link u) (slide_row_link r);
     slide_row_created_at := slide_row_created_at r |}.

Definition updateSlide (id : string) (patch : SlidePatch.t) (s : Store) : Store :=
  let update := slide_update patch in
  request "[slides] update error"
    (fun s => inl (map (fun r => if String.eqb (slide_row_id r) id
                                 then write_slide update r else r) (slides s),
                   offers s))
    s.

(** [input.label || null] *)
Definition label_or_null (l : option string) : option string :=
  match l with
  | Some v => if truthy v then Some v else None
  | None => None
  end.

Definition addOffer (input : OfferInput.t) (s : Store) : OfferItem * Store :=
  let (id, s1) := choose_id (OfferInput.id input) "offer" s in
  let label := label_or_null (OfferInput.label input) in
  let insert :=
    toOfferInsert
      {| OfferInput.id := OfferInput.id input;
         OfferInput.title := OfferInput.title input;
         OfferInput.amount := OfferInput.amount input;
         OfferInput.icon := OfferInput.icon input;
         OfferInput.label := or_undefined label;
         OfferInput.description := OfferInput.description input;
         OfferInput.steps := OfferInput.steps input;
         OfferInput.storeUrl := OfferInput.storeUrl input;
         OfferInput.active := OfferInput.active input;
         OfferInput.requiresProof := OfferInput.requiresProof input |} in
  let s2 :=
    request "[offers] insert error"
      (fun s => if offer_taken id (offers s) then inr duplicate_key
                else inl (slides s,
                          offers s ++
                          [ {| offer_row_id := id;
                               offer_row_title := insert_title insert;
                               offer_row_amount := insert_amount insert;
                               offer_row_icon := insert_icon insert;
                               offer_row_label := insert_label insert;
                               offer_row_description := insert_description insert;
                               offer_row_steps := insert_steps insert;
                               store_url := insert_store_url insert;
                               offer_row_active := Some (insert_active insert);
                               requires_proof := Some (insert_requires_proof insert);
                               offer_row_created_at := db_now env (writes s) |} ]))
      s1 in
  let now := Date_now env (ticks s2) in
  (fromOfferRow
     {| offer_row_id := id;
        offer_row_title := OfferInput.title input;
        offer_row_amount := OfferInput.amount input;
        offer_row_icon := nullish (OfferInput.icon input) None;
        offer_row_label := label;
        offer_row_description := nullish (OfferInput.description input) None;
        offer_row_steps := nullish (OfferInput.steps input) None;
        store_url := nullish (OfferInput.storeUrl input) None;
        offer_row_active := Some (or_default (OfferInput.active input) true);
        requires_proof := Some (or_default (OfferInput.requiresProof input) false);
        offer_row_created_at := now |},
   {| slides := slides s2; offers := offers s2; console := console s2;
      generated := generated s2; ticks := S (ticks s2); writes := writes s2 |}).

Definition write_offer (u : OfferUpdate) (r : OfferRow) : OfferRow :=
  {| offer_row_id := offer_row_id r;
     offer_row_title := assign (update_title u) (offer_row_title r);
     offer_row_amount := assign (update_amount u) (offer_row_amount r);
     offer_row_icon := nullish (update_icon u) (offer_row_icon r);
     offer_row_label := nullish (update_label u) (offer_row_label r);
     offer_row_description := nullish (update_description u) (offer_row_description r);
     offer_row_steps := nullish (update_steps u) (offer_row_steps r);
     store_url := nullish (update_store_url u) (store_url r);
     offer_row_active := nullish (update_active u) (offer_row_active r);
     requires_proof := nullish (update_requires_proof u) (requires_proof r);
     offer_row_created_at := offer_row_created_at r |}.

Definition updateOffer (id : string) (patch : OfferPatch.t) (s : Store) : Store :=
  let update := toOfferPatch patch in
  request "[offers] update error"
    (fun s => inl (slides s,
                   map (fun r => if String.eqb (offer_row_id r) id
                                 then write_offer update r else r) (offers s)))
    s.

Definition deleteOffer (id : string) (s : Store) : Store :=
  request "[offers] delete error"
    (fun s => inl (slides s,
                   filter (fun r => negb (String.eqb (offer_row_id r) id)) (offers s)))
    s.

Definition setOfferVisibility (id : string) (active : bool) (s : Store) : Store :=
  updateOffer id
    {| OfferPatch.id := None;
       OfferPatch.title := None;
       OfferPatch.amount := None;
       OfferPatch.icon := None;
       OfferPatch.label := None;
       OfferPatch.description := None;
       OfferPatch.steps := None;
       OfferPatch.storeUrl := None;
       OfferPatch.active := Some active;
       OfferPatch.requiresProof := None |}
    s.

(** *** Requests on their way *)

(** The gateway handles a request that was sent earlier, against the tables
    as they are by then, and the [.then] callback runs. *)
Definition answer (rq : Sent) (s : Store) : Store :=
  request (sent_label rq) (sent_change rq) s.

(** [addOffer] up to its [return], the gateway's answer left open: the
    request it has sent, the offer it returns and the store at that point.
    The id generator and the clock have been used; the tables are as they
    were. *)
Definition addOffer_sent (input : OfferInput.t) (s : Store)
  : Sent * OfferItem * Store :=
  let (id, s1) := choose_id (OfferInput.id input) "offer" s in
  let label := label_or_null (OfferInput.label input) in
  let insert :=
    toOfferInsert
      {| OfferInput.id := OfferInput.id input;
         OfferInput.title := OfferInput.title input;
         OfferInput.amount := OfferInput.amount input;
         OfferInput.icon := OfferInput.icon input;
         OfferInput.label := or_undefined label;
         OfferInput.description := OfferInput.description input;
         OfferInput.steps := OfferInput.steps input;
         OfferInput.storeUrl := OfferInput.storeUrl input;
         OfferInput.active := OfferInput.active input;
         OfferInput.requiresProof := OfferInput.requiresProof input |} in
  let sent :=
    {| sent_label := "[offers] insert error";
       sent_change :=
         fun s => if offer_taken id (offers s) then inr duplicate_key
                  else inl (slides s,
                            offers s ++
                            [ {| offer_row_id := id;
                                 offer_row_title := insert_title insert;
                                 offer_row_amount := insert_amount insert;
                                 offer_row_icon := insert_icon insert;
                                 offer_row_label := insert_label insert;
                                 offer_row_description := insert_description insert;
                                 offer_row_steps := insert_steps insert;
                                 store_url := insert_store_url insert;
                                 offer_row_active := Some (insert_active insert);
                                 requires_proof := Some (insert_requires_proof insert);
                                 offer_row_created_at := db_now env (writes s) |} ]) |} in
  let now := Date_now env (ticks s1) in
  (sent,
   fromOfferRow
     {| offer_row_id := id;
        offer_row_title := OfferInput.title input;
        offer_row_amount := OfferInput.amount input;
        offer_row_icon := nullish (OfferInput.icon input) None;
        offer_row_label := label;
        offer_row_description := nullish (OfferInput.description input) None;
        offer_row_steps := nullish (OfferInput.steps input) None;
        store_url := nullish (OfferInput.storeUrl input) None;
        offer_row_active := Some (or_default (OfferInput.active input) true);
        requires_proof := Some (or_default (OfferInput.requiresProof input) false);
        offer_row_created_at := now |},
   {| slides := slides s1; offers := offers s1; console := console s1;
      generated := generated s1; ticks := S (ticks s1); writes := writes s1 |}).

(** The request [deleteOffer] sends. *)
Definition deleteOffer_sent (id : string) : Sent :=
  {| sent_label := "[offers] delete error";
     sent_change :=
       fun s => inl (slides s,
                     filter (fun r => negb (String.eqb (offer_row_id r) id))
                            (offers s)) |}.

End Writes.

End Content.

(* ===================================================================== *)
(** ** src/app/(tabs)/index.tsx: which offers the home screen lists *)
(* ===================================================================== *)

Module Home.

Import Transactions.
Import Subscriptions.

(** [!!t.offer_id] *)
Definition has_offer (t : Transaction) : bool :=
  match offer_id t with
  | Some o => Content.truthy o
  | None => false
  end.

(** [String(t.offer_id)] *)
Definition offer_key (t : Transaction) : string :=
  match offer_id t with
  | Some o => o
  | None => "null"
  end.

(** The set built in the callback of [subscribeTransactionsForUser]; only
    membership and emptiness of the set are used. *)
Definition paidOfferIds (items : list Transaction) : list string :=
  map offer_key
      (filter (fun t => status_eqb (status t) paid && has_offer t) items).

Definition set_has (i : string) (l : list string) : bool :=
  existsb (String.eqb i) l.

(** [o.active !== false] *)
Definition not_hidden (o : OfferItem) : bool :=
  match active o with
  | Some false => false
  | _ => true
  end.

Definition visibleOffers (allOffers : list OfferItem) (paidIds : list string)
  : list OfferItem :=
  let active := filter not_hidden allOffers in
  match paidIds with
  | [] => active
  | _ => filter (fun o => negb (set_has (offer_item_id o) paidIds)) active
  end.

Definition MIN_VISIBLE : nat := 8.

(** [Math.max(0, MIN_VISIBLE - visibleOffers.length)] *)
Definition dummyCount (visible : list OfferItem) : nat :=
  Nat.max 0 (MIN_VISIBLE - length visible).

End Home.

(* ===================================================================== *)
(** ** src/unnamed/part_001: the history screen *)
(* ===================================================================== *)

Module History.

Import Transactions.

(** The listener the screen registers with [addTransactionListener], as a
    function from the list held in the state to the next one. *)
Definition onLocalEvent (userId : string) (tx : Transaction)
           (prev : list Transaction) : list Transaction :=
  if negb (String.eqb (user_id tx) userId) then prev
  else
    let without := filter (fun p => negb (String.eqb (id p) (id tx))) prev in
    tx :: without.

(** [txs.filter((t) => t.status === 'paid').length] *)
Definition completed (txs : list Transaction) : nat :=
  length (filter (fun t => status_eqb (status t) paid) txs).

(** A [Map<string, Transaction>], as the list of its entries. *)
Definition TxMap := list (string * Transaction).

Fixpoint map_get (k : string) (m : TxMap) : option Transaction :=
  match m with
  | [] => None
  | (k', v) :: rest => if String.eqb k' k then Some v else map_get k rest
  end.

Fixpoint map_set (k : string) (v : Transaction) (m : TxMap) : TxMap :=
  match m with
  | [] => [(k, v)]
  | (k', v') :: rest =>
      if String.eqb k' k then (k, v) :: rest else (k', v') :: map_set k v rest
  end.

Definition map_values (m : TxMap) : list Transaction := map snd m.

(** One turn of the loop over [txs]: the map of the latest unpaid
    transaction per offer, and the paid ones. *)
Definition visit (acc : TxMap * list Transaction) (t : Transaction)
  : TxMap * list Transaction :=
  let (latestNonPaidByOffer, paid_) := acc in
  if status_eqb (status t) paid then (latestNonPaidByOffer, paid_ ++ [t])
  else if Home.has_offer t then
    let key := Home.offer_key t in
    match map_get key latestNonPaidByOffer with
    | None => (map_set key t latestNonPaidByOffer, paid_)
    | Some prev =>
        if N.ltb (created_at prev) (created_at t)
        then (map_set key t latestNonPaidByOffer, paid_)
        else (latestNonPaidByOffer, paid_)
    end
  else (map_set (id t) t latestNonPaidByOffer, paid_).

Definition displayTxs (txs : list Transaction) : list Transaction :=
  let (latestNonPaidByOffer, paid_) := fold_left visit txs ([], []) in
  let dedupNonPaid := map_values latestNonPaidByOffer in
  let keep := map id dedupNonPaid ++ map id paid_ in
  filter (fun t => Home.set_has (id t) keep) txs.

(** What the loop over [txs] has established once it has gone through
    [seen]: the keys of the map are distinct; every entry holds an unpaid
    transaction already seen, filed under its offer id, or under its own id
    when it has no offer; and the paid list holds the paid ones seen. *)
Definition filed (seen : list Transaction) (acc : TxMap * list Transaction) : Prop :=
  NoDup (map fst (fst acc)) /\
  (forall k v, In (k, v) (fst acc) ->
     In v seen /\ status v <> paid /\
     ((Home.has_offer v = true /\ Home.offer_key v = k) \/
      (Home.has_offer v = false /\ id v = k))) /\
  (forall t, In t (snd acc) <-> In t seen /\ status t = paid).

(** Every unpaid transaction seen has an entry for its offer that is at
    least as recent. *)
Definition latest_filed (seen : list Transaction) (m : TxMap) : Prop :=
  forall t, In t seen -> status t <> paid ->
    exists v, In (Home.offer_key t, v) m /\
              offer_id v = offer_id t /\
              (created_at t <= created_at v)%N.

End History.

(* ===================================================================== *)
(** ** src/lib/wallet.ts: the in-memory store *)
(* ===================================================================== *)

Module Wallet.

Inductive TransactionStatus := paid | pending | rejected.

Definition status_eqb (a b : TransactionStatus) : bool :=
  match a, b with
  | paid, paid | pending, pending | rejected, rejected => true
  | _, _ => false
  end.

Record Transaction := {
  id : string;
  title : string;
  icon : option string;
  status : TransactionStatus;
  amount : option Transactions.number;
  timestamp : Z   (* ms epoch *)
}.

(** The module state: the list, the set of subscribers, and, to observe
    them, the calls made to the subscribers (which are taken to return
    normally and to leave the set alone). *)
Record Store := {
  transactions : list Transaction;
  subs : list TxEvents.ident;
  seen : list (TxEvents.ident * list Transaction);
  ticks : nat;      (* readings of [Date.now()] so far *)
  draws : nat       (* calls of [Math.random()] so far *)
}.

Record Env := {
  Date_now : nat -> Z;
  random_suffix : nat -> string  (* [Math.random().toString(36).slice(2, 7)] *)
}.

(** The comparator [(a, b) => b.timestamp - a.timestamp]. *)
Definition newest_first (a b : Transaction) : Z := timestamp b - timestamp a.

(** [Array.prototype.sort] is stable: an insertion sort that leaves equal
    elements in the order they had. *)
Fixpoint insert_sorted (x : Transaction) (l : list Transaction) : list Transaction :=
  match l with
  | [] => [x]
  | y :: rest =>
      if Z.ltb 0 (newest_first x y) then y :: insert_sorted x rest else x :: l
  end.

Fixpoint sort (l : list Transaction) : list Transaction :=
  match l with
  | [] => []
  | x :: rest => insert_sorted x (sort rest)
  end.

Definition sorted (s : Store) : list Transaction := sort (transactions s).

Definition notify (s : Store) : Store :=
  {| transactions := transactions s;
     subs := subs s;
     seen := seen s ++ map (fun cb => (cb, sorted s)) (subs s);
     ticks := ticks s; draws := draws s |}.

(** [subscribeTransactions(cb)]; the function it returns is [unsubscribe
    cb]. *)
Definition subscribeTransactions (cb : TxEvents.ident) (s : Store) : Store :=
  {| transactions := transactions s;
     subs := TxEvents.set_add cb (subs s);
     seen := seen s ++ [(cb, sorted s)];
     ticks := ticks s; draws := draws s |}.

Definition unsubscribe (cb : TxEvents.ident) (s : Store) : Store :=
  {| transactions := transactions s;
     subs := TxEvents.set_delete cb (subs s);
     seen := seen s;
     ticks := ticks s; draws := draws s |}.

Definition getTransactions (s : Store) : list Transaction := sorted s.

Definition getCompletedCount (s : Store) : nat :=
  length (filter (fun t => status_eqb (status t) paid) (transactions s)).

Definition decimal (z : Z) : string :=
  DecimalString.NilZero.string_of_int (Z.to_int z).

Section Mutations.
Variable env : Env.

Definition addTransactionPending (title_ : string) (icon_ : option string)
           (amount_ : option Transactions.number) (s : Store)
  : Transaction * Store :=
  let tx := {| id := String.append "tx-"
                       (String.append (decimal (Date_now env (ticks s)))
                          (String.append "-" (random_suffix env (draws s))));
               title := title_;
               icon := icon_;
               status := pending;
               amount := amount_;
               timestamp := Date_now env (S (ticks s)) |} in
  (tx, notify {| transactions := tx :: transactions s;
                 subs := subs s;
                 seen := seen s;
                 ticks := S (S (ticks s)); draws := S (draws s) |}).

End Mutations.

Definition updateTransactionStatus (i : string) (st : TransactionStatus)
           (s : Store) : Store :=
  notify {| transactions :=
              map (fun t => if String.eqb (id t) i
                            then {| id := id t; title := title t; icon := icon t;
                                    status := st; amount := amount t;
                                    timestamp := timestamp t |}
                            else t) (transactions s);
            subs := subs s;
            seen := seen s;
            ticks := ticks s; draws := draws s |}.

(** [Admin.approve] and [Admin.reject]. *)
Definition approve (i : string) (s : Store) : Store :=
  updateTransactionStatus i paid s.

Definition reject (i : string) (s : Store) : Store :=
  updateTransactionStatus i rejected s.

(** The calls a client of the module can make. *)
Inductive Call :=
| call_subscribe (cb : TxEvents.ident)
| call_unsubscribe (cb : TxEvents.ident)
| call_add (title_ : string) (icon_ : option string)
           (amount_ : option Transactions.number)
| call_update (i : string) (st : TransactionStatus).

Definition perform (env : Env) (s : Store) (c : Call) : Store :=
  match c with
  | call_subscribe cb => subscribeTransactions cb s
  | call_unsubscribe cb => unsubscribe cb s
  | call_add t i a => snd (addTransactionPending env t i a s)
  | call_update i st => updateTransactionStatus i st s
  end.

End Wallet.

(* ===================================================================== *)
(** ** src/lib/profile.ts *)
(* ===================================================================== *)

Module Profile.

Import Transactions.

Record UserProfile := {
  id : string;
  full_name : option string;
  phone : option string;
  upi_id : option string;
  is_admin : option bool;
  updated_at : option ISO
}.

(** An error object of the gateway, with its code. *)
Record PgError := { code : string; text : string }.

Definition no_rows : PgError :=
  {| code := "PGRST116";
     text := "JSON object requested, multiple (or no) rows returned" |}.

(** How the gateway answers one request on [profiles]. *)
Inductive Verdict :=
| Served
| Refused (e : PgError).

Record Env := {
  verdict : nat -> Verdict;
  db_now : nat -> ISO;
  default_is_admin : option bool   (* column default of [is_admin] *)
}.

Record World := {
  profiles : list UserProfile;   (* the gateway's [profiles] table *)
  requests : nat
}.

Inductive Outcome (A : Type) :=
| Resolved (a : A)
| Rejected (e : PgError).
Arguments Rejected {A} e.

Section Gateway.
Variable env : Env.

(** Modelled from the spec: [.select(...).eq('id', userId).single()], one row
    or the error PGRST116. *)
Definition select_single (userId : string) (w : World)
  : (option UserProfile * option PgError) * World :=
  let w' := {| profiles := profiles w; requests := S (requests w) |} in
  match verdict env (requests w) with
  | Refused e => ((None, Some e), w')
  | Served =>
      match filter (fun p => String.eqb (id p) userId) (profiles w) with
      | [p] => ((Some p, None), w')
      | _ => ((None, Some no_rows), w')
      end
  end.

(** The columns [upsertProfile] sends. *)
Record Payload := {
  payload_id : string;
  payload_full_name : option string;
  payload_phone : option string;
  payload_upi_id : option string
}.

Definition overwrite (p : Payload) (now : ISO) (old : UserProfile) : UserProfile :=
  {| id := id old;
     full_name := payload_full_name p;
     phone := payload_phone p;
     upi_id := payload_upi_id p;
     is_admin := is_admin old;
     updated_at := Some now |}.

Definition fresh (p : Payload) (now : ISO) : UserProfile :=
  {| id := payload_id p;
     full_name := payload_full_name p;
     phone := payload_phone p;
     upi_id := payload_upi_id p;
     is_admin := default_is_admin env;
     updated_at := Some now |}.

(** Modelled from the spec: [.upsert(payload, { onConflict: 'id',
    ignoreDuplicates: false })]: the row with that id takes the columns of
    the payload, or a new row is inserted with the defaults of the others. *)
Definition upsert (p : Payload) (w : World) : option PgError * World :=
  let now := db_now env (requests w) in
  match verdict env (requests w) with
  | Refused e => (Some e, {| profiles := profiles w; requests := S (requests w) |})
  | Served =>
      (None,
       {| profiles :=
            if existsb (fun q => String.eqb (id q) (payload_id p)) (profiles w)
            then map (fun q => if String.eqb (id q) (payload_id p)
                               then overwrite p now q else q) (profiles w)
            else profiles w ++ [fresh p now];
          requests := S (requests w) |})
  end.

Definition getProfile (userId : string) (w : World)
  : Outcome (option UserProfile) * World :=
  let '((data, error), w') := select_single userId w in
  match error with
  | Some e =>
      if negb (String.eqb (code e) "PGRST116") then (Rejected e, w')
      else (Resolved (nullish data None), w')
  | None => (Resolved (nullish data None), w')
  end.

Definition upsertProfile (profile : UserProfile) (w : World)
  : Outcome unit * World :=
  let payload := {| payload_id := id profile;
                    payload_full_name := nullish (full_name profile) None;
                    payload_phone := nullish (phone profile) None;
                    payload_upi_id := nullish (upi_id profile) None |} in
  let (error, w') := upsert payload w in
  match error with
  | Some e => (Rejected e, w')
  | None => (Resolved tt, w')
  end.

End Gateway.

End Profile.

(* ===================================================================== *)
(** ** Facts about the local event bus *)
(* ===================================================================== *)

Lemma has_In cb l : TxEvents.has cb l = true <-> In cb l.
Proof.
  unfold TxEvents.has. rewrite existsb_exists. split.
  - intros (x & Hx & E). apply Nat.eqb_eq in E. subst. exact Hx.
  - intros H. exists cb. split; [exact H|apply Nat.eqb_refl].
Qed.

Lemma set_add_NoDup cb l : NoDup l -> NoDup (TxEvents.set_add cb l).
Proof.
  intros H. unfold TxEvents.set_add. destruct (TxEvents.has cb l) eqn:E; [exact H|].
  apply NoDup_app; [exact H|repeat constructor; simpl; tauto|].
  intros x Hx [<-|[]]. apply has_In in Hx. congruence.
Qed.

Lemma set_delete_NoDup cb l : NoDup l -> NoDup (TxEvents.set_delete cb l).
Proof. apply NoDup_filter. Qed.

Section BusFacts.
Import TxEvents.
Variable T : Type.
Variable code : ident -> T -> Behaviour.

Lemma apply_op_calls (b : Bus T) op :
  calls (apply_op b op) = calls b /\ emitted (apply_op b op) = emitted b.
Proof. destruct op; simpl; auto. Qed.

Lemma fold_ops_calls ops : forall b : Bus T,
  calls (fold_left (@apply_op T) ops b) = calls b /\
  emitted (fold_left (@apply_op T) ops b) = emitted b.
Proof.
  induction ops as [|op ops IH]; intros b; simpl; auto.
  destruct (IH (apply_op b op)) as [-> ->]. apply apply_op_calls.
Qed.

Lemma invoke_calls cb tx (b : Bus T) :
  calls (snd (invoke code cb tx b)) = calls b ++ [(cb, tx)] /\
  emitted (snd (invoke code cb tx b)) = emitted b.
Proof.
  unfold invoke.
  destruct (throws (code cb tx)); simpl;
    match goal with |- context [fold_left _ ?o ?x] =>
      destruct (fold_ops_calls o x) as [-> ->] end; simpl; auto.
Qed.

Lemma guarded_invoke cb tx (b : Bus T) :
  try_catch (invoke code cb tx) b = (Normal tt, snd (invoke code cb tx b)).
Proof.
  unfold try_catch. destruct (invoke code cb tx b) as [[[]|e] b']; reflexivity.
Qed.

(** The guarded loop runs to its end and calls every element of the
    snapshot once, in order. *)
Lemma guarded_loop tx (l : list ident) : forall b : Bus T,
  exists b',
    for_of l (fun cb => try_catch (invoke code cb tx)) b = (Normal tt, b') /\
    calls b' = calls b ++ map (fun cb => (cb, tx)) l /\
    emitted b' = emitted b.
Proof.
  induction l as [|cb l IH]; intros b; simpl.
  - exists b. unfold ret. rewrite app_nil_r. auto.
  - unfold bind. rewrite guarded_invoke.
    destruct (IH (snd (invoke code cb tx b))) as (b' & Hrun & Hc & He).
    exists b'. split; [exact Hrun|].
    destruct (invoke_calls cb tx b) as [Hc1 He1].
    rewrite Hc, Hc1, He, He1, <- app_assoc. auto.
Qed.

Lemma emit_calls tx (b : Bus T) :
  exists b',
    emitTransaction code tx b = (Normal tt, b') /\
    calls b' = calls b ++ map (fun cb => (cb, tx)) (listeners b) /\
    emitted b' = emitted b ++ [tx].
Proof.
  unfold emitTransaction, Array_from.
  match goal with |- context [for_of _ _ ?x] =>
    destruct (guarded_loop tx (listeners b) x) as (b' & Hrun & Hc & He) end.
  exists b'. simpl in *. auto.
Qed.

Lemma calls_since_emit tx (b : Bus T) :
  calls_since b (snd (emitTransaction code tx b)) =
  map (fun cb => (cb, tx)) (listeners b).
Proof.
  destruct (emit_calls tx b) as (b' & Hrun & Hc & _).
  rewrite Hrun. simpl. unfold calls_since. rewrite Hc.
  rewrite skipn_app, skipn_all, Nat.sub_diag. reflexivity.
Qed.

Lemma bus_of_NoDup history : NoDup (listeners (bus_of T history)).
Proof.
  unfold bus_of.
  assert (G : forall b : Bus T, NoDup (listeners b) ->
              NoDup (listeners (fold_left (@apply_op T) history b))).
  { induction history as [|op h IH]; intros b Hb; simpl; [exact Hb|].
    apply IH. destruct op; simpl.
    - apply set_add_NoDup, Hb.
    - apply set_delete_NoDup, Hb. }
  apply G. constructor.
Qed.

Lemma register_all_listeners cbs : forall b : Bus T,
  NoDup (listeners b ++ cbs) ->
  listeners (register_all cbs b) = listeners b ++ cbs /\
  calls (register_all cbs b) = calls b.
Proof.
  induction cbs as [|cb cbs IH]; intros b H.
  - simpl. rewrite app_nil_r. auto.
  - assert (E : has cb (listeners b) = false).
    { destruct (has cb (listeners b)) eqn:E; [|reflexivity].
      apply has_In in E. apply NoDup_remove_2 in H.
      exfalso. apply H. apply in_or_app. auto. }
    destruct (IH (snd (addTransactionListener cb b))) as [Hl Hc].
    + simpl. unfold set_add. rewrite E, <- app_assoc. exact H.
    + change (register_all (cb :: cbs) b)
        with (register_all cbs (snd (addTransactionListener cb b))).
      rewrite Hl, Hc. simpl.
      unfold set_add. rewrite E, <- app_assoc. auto.
Qed.

Lemma count_once cb tx (l : list ident) :
  NoDup l -> In cb l ->
  length (filter (fun c : ident * T => Nat.eqb (fst c) cb)
                 (map (fun x => (x, tx)) l)) = 1.
Proof.
  induction l as [|x l IH]; intros Hn Hi; [destruct Hi|].
  inversion Hn as [|? ? Hx Hl]; subst. simpl.
  destruct (Nat.eqb x cb) eqn:E.
  - apply Nat.eqb_eq in E. subst. simpl. f_equal.
    clear IH Hi Hn Hl. induction l as [|y l IH]; [reflexivity|]. simpl.
    destruct (Nat.eqb y cb) eqn:E.
    + apply Nat.eqb_eq in E. subst. exfalso. apply Hx. left. reflexivity.
    + apply IH. intros H. apply Hx. right. exact H.
  - apply IH; [exact Hl|]. destruct Hi as [->|Hi]; [|exact Hi].
    rewrite Nat.eqb_refl in E. discriminate.
Qed.

End BusFacts.

Import TxEvents.

(** With three listeners of which the second throws, the unguarded loop would
    stop at the second; the loop of [emitTransaction] does not. *)
Example unguarded_loop_stops :
  let b := register_all [1; 2; 3] (empty string) in
  fst (emit_unguarded Scenario.second_throws "t1" b) = Thrown "boom" /\
  calls (snd (emit_unguarded Scenario.second_throws "t1" b)) = [(1, "t1"); (2, "t1")] /\
  calls (snd (emitTransaction Scenario.second_throws "t1" b))
  = [(1, "t1"); (2, "t1"); (3, "t1")].
Proof. repeat split. Qed.

(** C5. Publishing never throws and calls every callback registered at that
    moment with the payload, in the order of the listener set, whether or not
    some callbacks throw; and callbacks registered one after the other on an
    empty bus are called in the order of their registration. *)
Theorem emit_reaches_every_listener :
  forall (T : Type) (code : ident -> T -> Behaviour) (tx : T),
    (forall b : Bus T,
        exists b',
          emitTransaction code tx b = (Normal tt, b') /\
          calls b' = calls b ++ map (fun cb => (cb, tx)) (listeners b)) /\
    (forall cbs : list ident,
        NoDup cbs ->
        exists b',
          emitTransaction code tx (register_all cbs (empty T)) = (Normal tt, b') /\
          calls b' = map (fun cb => (cb, tx)) cbs).
Proof.
  intros T code tx. split.
  - intros b. destruct (emit_calls code tx b) as (b' & Hrun & Hc & _).
    exists b'. auto.
  - intros cbs Hn.
    destruct (register_all_listeners cbs (empty T)) as [Hl Hc0]; [exact Hn|].
    destruct (emit_calls code tx (register_all cbs (empty T)))
      as (b' & Hrun & Hc & _).
    exists b'. split; [exact Hrun|]. rewrite Hc, Hc0, Hl. reflexivity.
Qed.

Lemma emit_reaches_every_listener_witness :
  NoDup [1; 2; 3] /\
  exists b',
    emitTransaction Scenario.second_throws "t1"
                    (register_all [1; 2; 3] (empty string)) = (Normal tt, b') /\
    calls b' = [(1, "t1"); (2, "t1"); (3, "t1")].
Proof.
  assert (N : NoDup [1; 2; 3]).
  { repeat constructor; simpl; intuition discriminate. }
  split; [exact N|].
  exact (proj2 (emit_reaches_every_listener Scenario.second_throws "t1") [1; 2; 3] N).
Defined.

(** C9. A publish iterates over the listeners present when it starts: a
    callback absent at that moment is not called, whatever the callbacks
    register meanwhile; a callback present at that moment is called, whatever
    the callbacks remove meanwhile; and a callback registered twice is called
    once. *)
Theorem emit_iterates_a_snapshot :
  forall (T : Type) (code : ident -> T -> Behaviour) (tx : T),
    (forall (b : Bus T) (cb : ident),
        ~ In cb (listeners b) ->
        ~ In cb (map fst (calls_since b (snd (emitTransaction code tx b))))) /\
    (forall (b : Bus T) (cb : ident),
        In cb (listeners b) ->
        In (cb, tx) (calls_since b (snd (emitTransaction code tx b)))) /\
    (forall (history : list BusOp) (cb : ident),
        let b := snd (addTransactionListener cb
                        (snd (addTransactionListener cb (bus_of T history)))) in
        length (filter (fun c : ident * T => Nat.eqb (fst c) cb)
                       (calls_since b (snd (emitTransaction code tx b)))) = 1).
Proof.
  intros T code tx. repeat split.
  - intros b cb Hn. rewrite calls_since_emit, map_map. simpl.
    rewrite map_id. exact Hn.
  - intros b cb Hi. rewrite calls_since_emit.
    apply in_map with (f := fun cb => (cb, tx)). exact Hi.
  - intros history cb b. rewrite calls_since_emit.
    assert (Hn : NoDup (listeners b)).
    { subst b. simpl. do 2 apply set_add_NoDup. apply bus_of_NoDup. }
    apply count_once; [exact Hn|].
    subst b. simpl.
    set (l := set_add cb (listeners (bus_of T history))).
    assert (Hl : In cb l).
    { subst l. unfold set_add.
      destruct (has cb (listeners (bus_of T history))) eqn:E.
      - apply has_In. exact E.
      - apply in_or_app. right. left. reflexivity. }
    unfold set_add at 1. apply has_In in Hl. rewrite Hl.
    apply has_In. exact Hl.
Qed.

Lemma emit_iterates_a_snapshot_witness :
  let b := Scenario.two_listeners in
  let b' := snd (emitTransaction Scenario.meddler "t1" b) in
  listeners b = [1; 2] /\ listeners b' = [1; 3] /\
  ~ In 3 (map fst (calls_since b b')) /\
  In (2, "t1") (calls_since b b').
Proof.
  simpl. split; [reflexivity|]. split; [reflexivity|].
  destruct (emit_iterates_a_snapshot Scenario.meddler "t1") as (Habsent & Hpresent & _).
  split.
  - apply (Habsent Scenario.two_listeners 3). simpl. intuition discriminate.
  - apply (Hpresent Scenario.two_listeners 2). simpl. auto.
Defined.

(* ===================================================================== *)
(** ** Facts about the read-model subscriptions *)
(* ===================================================================== *)

Section SubscriptionFacts.
Import Subscriptions.
Variables Row Item : Type.
Variable fromRow : Row -> Item.
Variable feed : Feed.

Lemma deliver_cancelled (a : Answer Row) (s : Instance Item) :
  cancelled s = true -> deliver fromRow a s = s.
Proof. intros H. unfold deliver. rewrite H. reflexivity. Qed.

Lemma warn_keeps (a : Answer Row) (s : Instance Item) :
  cancelled (warn feed a s) = cancelled s /\
  received (warn feed a s) = received s.
Proof. unfold warn. destruct (answer_error a); auto. Qed.

Lemma step_after_close (e : Event Row) (s : Instance Item) :
  cancelled s = true ->
  cancelled (step fromRow feed e s) = true /\
  received (step fromRow feed e s) = received s.
Proof.
  intros H. destruct e as [|k a|]; simpl.
  - destruct (channel s); simpl; auto.
  - destruct (nth_error (in_flight s) k) as [q|]; [|auto].
    destruct q; simpl.
    + rewrite deliver_cancelled by exact H.
      destruct (warn_keeps a
        {| cancelled := cancelled s; channel := channel s;
           in_flight := drop_nth k (in_flight s);
           received := received s; warned := warned s |}) as [-> ->].
      auto.
    + rewrite deliver_cancelled by exact H. auto.
  - auto.
Qed.

Lemma run_after_close (events : list (Event Row)) : forall s : Instance Item,
  cancelled s = true ->
  received (run fromRow feed events s) = received s.
Proof.
  induction events as [|e events IH]; intros s H; [reflexivity|].
  destruct (step_after_close e s H) as [Hc Hr].
  change (run fromRow feed (e :: events) s)
    with (run fromRow feed events (step fromRow feed e s)).
  rewrite IH by exact Hc. exact Hr.
Qed.

(** Whatever happened before, nothing is delivered once the unsubscribe
    function has run. *)
Lemma silent_once_closed (before after : list (Event Row)) (s : Instance Item) :
  received (run fromRow feed (before ++ Unsubscribe Row :: after) s)
  = received (run fromRow feed before s).
Proof.
  unfold run. rewrite fold_left_app. simpl.
  set (s1 := fold_left (fun s e => step fromRow feed e s) before s).
  apply (run_after_close after
           {| cancelled := true; channel := None; in_flight := in_flight s1;
              received := received s1; warned := warned s1 |}).
  reflexivity.
Qed.

End SubscriptionFacts.

Import Subscriptions.

(** A reload in flight when the subscription is closed is answered afterwards
    and its rows are dropped; the same answer before the closure is
    delivered. *)
Example in_flight_reload_is_dropped :
  let a := {| answer_data := Some [ {| slide_row_id := "s1";
                                       slide_row_image := "a.png";
                                       slide_row_link := None;
                                       slide_row_created_at := 1%N |} ];
              answer_error := None |} in
  received (run fromSlideRow slides_feed
                [Answered 0 a; Change SlideRow; Unsubscribe SlideRow; Answered 0 a]
                subscribeSlides)
  = [[ {| slide_id := "s1"; slide_image := "a.png"; slide_link := None |} ]] /\
  received (run fromSlideRow slides_feed
                [Answered 0 a; Change SlideRow; Answered 0 a]
                subscribeSlides)
  = [[ {| slide_id := "s1"; slide_image := "a.png"; slide_link := None |} ];
     [ {| slide_id := "s1"; slide_image := "a.png"; slide_link := None |} ]].
Proof. split; reflexivity. Qed.

(** C6. For each of the four subscription functions: in every run of the
    instance, the calls of the subscriber callback made up to the call of the
    unsubscribe function are all the calls there will ever be, whatever
    queries are answered and whatever notifications arrive afterwards. *)
Theorem no_delivery_after_unsubscribe :
  (forall before after : list (Event OfferRow),
      received (run fromOfferRow offers_feed
                    (before ++ Unsubscribe OfferRow :: after) subscribeOffers)
      = received (run fromOfferRow offers_feed before subscribeOffers)) /\
  (forall before after : list (Event SlideRow),
      received (run fromSlideRow slides_feed
                    (before ++ Unsubscribe SlideRow :: after) subscribeSlides)
      = received (run fromSlideRow slides_feed before subscribeSlides)) /\
  (forall (userId : string) (before after : list (Event Transactions.Transaction)),
      received (run Transactions.mapRow (user_transactions_feed userId)
                    (before ++ Unsubscribe Transactions.Transaction :: after)
                    (subscribeTransactionsForUser userId))
      = received (run Transactions.mapRow (user_transactions_feed userId) before
                      (subscribeTransactionsForUser userId))) /\
  (forall before after : list (Event Transactions.Transaction),
      received (run Transactions.mapRow all_transactions_feed
                    (before ++ Unsubscribe Transactions.Transaction :: after)
                    subscribeAllTransactions)
      = received (run Transactions.mapRow all_transactions_feed before
                      subscribeAllTransactions)).
Proof.
  repeat split; intros; apply silent_once_closed.
Qed.

(* ===================================================================== *)
(** ** Facts about the transaction lifecycle *)
(* ===================================================================== *)

Import Transactions.

Section LifecycleFacts.
Variable env : Env.

(** Publishing from the lifecycle functions never rejects; it records the
    publish and calls the listeners. *)
Lemma emit_resolves tx w :
  exists b',
    emit env tx w = (Resolved tt, with_bus b' w) /\
    emitted b' = emitted (bus w) ++ [tx] /\
    calls b' = calls (bus w) ++ map (fun cb => (cb, tx)) (listeners (bus w)).
Proof.
  unfold emit.
  destruct (emit_calls (code env) tx (bus w)) as (b' & -> & Hc & He).
  exists b'. auto.
Qed.

(** Returning a transaction after publishing it. *)
Lemma publish_and_return tx w :
  exists w',
    (emit env tx ;;; pure tx) w = (Resolved tx, w') /\
    table w' = table w /\
    emitted (bus w') = emitted (bus w) ++ [tx] /\
    ticks w' = ticks w /\ reads w' = reads w /\ writes w' = writes w.
Proof.
  destruct (emit_resolves tx w) as (b' & Hrun & He & _).
  exists (with_bus b' w). unfold then_. rewrite Hrun. simpl.
  repeat split; assumption || reflexivity.
Qed.

Lemma build_patch_world s options w :
  exists p w1,
    build_patch env s options w = (Resolved p, w1) /\
    table w1 = table w /\ bus w1 = bus w /\
    reads w1 = reads w /\ writes w1 = writes w /\
    patch_status p = Some s.
Proof.
  unfold build_patch. destruct options as [o|].
  - destruct (Options.notes o), (Options.reviewed_by o),
             (Options.reviewed_at o), s; simpl;
      eexists; eexists; repeat split; reflexivity.
  - eexists; eexists; repeat split; reflexivity.
Qed.

Lemma untouched_rows p fs w :
  filter (matches fs) (table w) = [] -> update_rows env p fs w = table w.
Proof.
  unfold update_rows. induction (table w) as [|r t IH]; simpl; intros H.
  - reflexivity.
  - destruct (matches fs r); [discriminate|]. f_equal. apply IH, H.
Qed.

Lemma mapRow_same r : mapRow r = r.
Proof. destruct r; reflexivity. Qed.

(** The status update when the gateway serves the write and exactly one
    row carries the id. *)
Lemma update_status_served id s options w r p w1 :
  build_patch env s options w = (Resolved p, w1) ->
  write_verdict env (writes w) = Served ->
  filter (matches [eq_id id]) (table w) = [r] ->
  exists w',
    updateTransactionStatus env id s options w
    = (Resolved (written env p w1 r), w') /\
    emitted (bus w') = emitted (bus w) ++ [written env p w1 r].
Proof.
  intros Hp Hv Hr.
  destruct (build_patch_world s options w)
    as (p' & w1' & Hp' & Ht & Hb & _ & Hw & _).
  rewrite Hp in Hp'. injection Hp' as <- <-.
  unfold updateTransactionStatus, then_ at 1. rewrite Hp.
  unfold then_ at 1, await, update_single, read_back, affected.
  rewrite Hw, Hv, Ht, Hr. simpl. rewrite mapRow_same.
  match goal with |- context [(emit env ?t ;;; pure ?t) ?x] =>
    destruct (publish_and_return t x) as (w' & Hrun & _ & He & _) end.
  exists w'. split; [exact Hrun|]. rewrite He. simpl. rewrite Hb. reflexivity.
Qed.

End LifecycleFacts.

(** Runs the publish-and-return tail of a lifecycle function: names the
    world it ends in and records that the table is the one it started
    from. *)
Ltac publish_as w2 Hw2 :=
  match goal with
  | |- context [(emit ?env ?t ;;; pure ?t) ?x] =>
      destruct (publish_and_return env t x) as (w2 & -> & Hw2 & _)
  end.

(** With an options argument that leaves [reviewed_at] out, a status other
    than pending stamps the review with the reading of the clock. *)
Lemma review_is_stamped_when_options_are_given :
  forall env id s o w r,
    s <> pending ->
    Options.reviewed_at o = None ->
    write_verdict env (writes w) = Served ->
    filter (matches [eq_id id]) (table w) = [r] ->
    exists tx w',
      updateTransactionStatus env id s (Some o) w = (Resolved tx, w') /\
      status tx = s /\
      reviewed_at tx = Some (Date_now env (ticks w)).
Proof.
  intros env id s o w r Hs Ho Hv Hr.
  assert (Hn : negb (status_eqb s pending) = true) by (destruct s; simpl; congruence).
  destruct (build_patch env s (Some o) w) as [[p|e] w1] eqn:Hp.
  - destruct (update_status_served env id s (Some o) w Hp Hv Hr) as (w' & Hrun & _).
    exists (written env p w1 r), w'. split; [exact Hrun|].
    unfold build_patch in Hp. rewrite Ho, Hn in Hp.
    unfold then_, new_Date, pure in Hp. injection Hp as <- <-.
    destruct (Options.notes o), (Options.reviewed_by o); simpl; auto.
  - destruct (build_patch_world env s (Some o) w) as (p' & w1' & Hp' & _).
    congruence.
Qed.

(** Setting the status to pending without an explicit [reviewed_at] leaves
    the stored value as it is, with or without an options argument. *)
Lemma pending_is_not_stamped :
  forall env id options w r,
    match options with Some o => Options.reviewed_at o = None | None => True end ->
    write_verdict env (writes w) = Served ->
    filter (matches [eq_id id]) (table w) = [r] ->
    exists tx w',
      updateTransactionStatus env id pending options w = (Resolved tx, w') /\
      status tx = pending /\
      reviewed_at tx = reviewed_at r.
Proof.
  intros env id options w r Ho Hv Hr.
  destruct (build_patch env pending options w) as [[p|e] w1] eqn:Hp.
  - destruct (update_status_served env id pending options w Hp Hv Hr)
      as (w' & Hrun & _).
    exists (written env p w1 r), w'. split; [exact Hrun|].
    unfold build_patch in Hp. destruct options as [o|].
    + rewrite Ho in Hp. simpl in Hp. unfold pure in Hp. injection Hp as <- <-.
      destruct (Options.notes o), (Options.reviewed_by o); simpl; auto.
    + unfold pure in Hp. injection Hp as <- <-. simpl. auto.
  - destruct (build_patch_world env pending options w) as (p' & w1' & Hp' & _).
    congruence.
Qed.

(** C2 (the code where the claim fails). Called without an options argument,
    the status update writes the status alone: whatever the new status, also
    rejected or paid, the row keeps the [reviewed_at] it had. *)
Theorem status_update_without_options_keeps_reviewed_at :
  forall env id s w r,
    write_verdict env (writes w) = Served ->
    filter (matches [eq_id id]) (table w) = [r] ->
    exists tx w',
      updateTransactionStatus env id s None w = (Resolved tx, w') /\
      status tx = s /\
      reviewed_at tx = reviewed_at r /\
      ticks w' = ticks w.
Proof.
  intros env id s w r Hv Hr.
  assert (Hp : build_patch env s None w = (Resolved (status_patch s), w))
    by reflexivity.
  unfold updateTransactionStatus, then_ at 1. rewrite Hp.
  unfold then_ at 1, await, update_single, read_back, affected.
  rewrite Hv, Hr. simpl. rewrite mapRow_same.
  match goal with |- context [(emit env ?t ;;; pure ?t) ?x] =>
    destruct (publish_and_return env t x) as (w' & Hrun & _ & _ & Ht & _) end.
  eexists. exists w'. split; [exact Hrun|]. simpl. rewrite Ht. auto.
Qed.

Lemma status_update_without_options_keeps_reviewed_at_witness :
  exists tx w',
    updateTransactionStatus Scenario.calm "t1" rejected None
      (Scenario.world_of [Scenario.row "t1" pending 3%N]) = (Resolved tx, w') /\
    status tx = rejected /\
    reviewed_at tx = None /\
    ticks w' = 0.
Proof.
  exact (status_update_without_options_keeps_reviewed_at
           Scenario.calm "t1" rejected
           (Scenario.world_of [Scenario.row "t1" pending 3%N])
           eq_refl eq_refl).
Defined.

Lemma single_needs_one (l : list Transaction) :
  length l <> 1 ->
  single l = {| single_data := None; single_error := Some not_single |}.
Proof.
  destruct l as [|r [|r' l]]; simpl; intros H; try reflexivity.
  exfalso. apply H. reflexivity.
Qed.

(** C8. When the gateway does not serve the write, or the rows carrying the
    id are not exactly one, the status update rejects with an error: no row
    is made up in its place and nothing is published on the event bus. *)
Theorem status_update_needs_exactly_one_row :
  forall env id s options w,
    write_verdict env (writes w) <> Served \/
    length (filter (matches [eq_id id]) (table w)) <> 1 ->
    exists e w',
      updateTransactionStatus env id s options w = (Rejected e, w') /\
      bus w' = bus w.
Proof.
  intros env id s options w H.
  destruct (build_patch_world env s options w)
    as (p & w1 & Hp & Ht & Hb & _ & Hw & _).
  unfold updateTransactionStatus, then_ at 1. rewrite Hp.
  unfold then_, await, update_single, read_back, affected. rewrite Hw, Ht.
  destruct (write_verdict env (writes w)) as [| |e] eqn:Hv.
  - destruct H as [H|H]; [congruence|].
    rewrite single_needs_one by (rewrite length_map; exact H).
    simpl. eexists. eexists. split; [reflexivity|]. simpl. exact Hb.
  - simpl. eexists. eexists. split; [reflexivity|]. simpl. exact Hb.
  - simpl. eexists. eexists. split; [reflexivity|]. simpl. exact Hb.
Qed.

Lemma status_update_needs_exactly_one_row_witness :
  exists e w',
    updateTransactionStatus Scenario.guarded "t1" paid None
      (Scenario.world_of [Scenario.row "t1" pending 3%N]) = (Rejected e, w') /\
    bus w' = bus (Scenario.world_of [Scenario.row "t1" pending 3%N]).
Proof.
  apply (status_update_needs_exactly_one_row Scenario.guarded "t1" paid None
           (Scenario.world_of [Scenario.row "t1" pending 3%N])).
  left. simpl. discriminate.
Defined.

(** The transaction [createPendingTransaction] makes up when the insert
    returns no row. *)
Lemma pending_insert_without_row :
  forall env input w,
    write_verdict env (writes w) = Suppressed ->
    taken (gen_random_uuid env (writes w)) (table w) = false ->
    let tx :=
      {| id := "unknown";
         user_id := PendingInput.userId input;
         offer_id := PendingInput.offerId input;
         offer_title := PendingInput.offerTitle input;
         offer_icon_url := PendingInput.offerIconUrl input;
         amount := PendingInput.amount input;
         status := pending;
         proof_url := PendingInput.proofUrl input;
         notes := None;
         reviewed_by := None;
         reviewed_at := None;
         created_at := Date_now env (ticks w);
         updated_at := Date_now env (S (ticks w)) |} in
    exists w' stored,
      createPendingTransaction env input w = (Resolved tx, w') /\
      emitted (bus w') = emitted (bus w) ++ [tx] /\
      table w' = table w ++ [stored] /\
      id stored = gen_random_uuid env (writes w) /\
      writes w' = S (writes w).
Proof.
  intros env input w Hv Hk tx.
  unfold createPendingTransaction, then_ at 1, await, insert_returning.
  rewrite Hv, Hk. simpl.
  unfold then_ at 1, new_Date. unfold then_ at 1.
  match goal with |- context [(emit env ?t ;;; pure ?t) ?x] =>
    destruct (publish_and_return env t x)
      as (w' & Hrun & Ht & He & _ & _ & Hw) end.
  exists w'. eexists. split.
  - rewrite Hrun. f_equal. f_equal. subst tx. unfold nullish.
    destruct (PendingInput.offerId input), (PendingInput.offerTitle input),
      (PendingInput.offerIconUrl input), (PendingInput.amount input),
      (PendingInput.proofUrl input); reflexivity.
  - simpl in *. rewrite Ht, Hw. split; [|repeat split; reflexivity].
    rewrite He. f_equal. f_equal. subst tx. unfold nullish.
    destruct (PendingInput.offerId input), (PendingInput.offerTitle input),
      (PendingInput.offerIconUrl input), (PendingInput.amount input),
      (PendingInput.proofUrl input); reflexivity.
Qed.

(** A status update aimed at an id no row carries rejects and writes
    nothing. *)
Lemma status_update_on_no_row :
  forall env id s options w,
    filter (matches [eq_id id]) (table w) = [] ->
    exists e w',
      updateTransactionStatus env id s options w = (Rejected e, w') /\
      table w' = table w.
Proof.
  intros env id s options w H.
  destruct (build_patch_world env s options w)
    as (p & w1 & Hp & Ht & Hb & _ & Hw & _).
  assert (Hu : update_rows env p [eq_id id] w1 = table w).
  { rewrite <- Ht. apply untouched_rows. rewrite Ht. exact H. }
  unfold updateTransactionStatus, then_ at 1. rewrite Hp.
  unfold then_, await, update_single, read_back, affected. rewrite Hw, Ht, H, Hu.
  destruct (write_verdict env (writes w)); simpl;
    eexists; eexists; (split; [reflexivity|]); simpl; auto.
Qed.

(** C7. When the write is carried out but no row comes back, neither function
    rejects.  On the reuse path the result is the row the find query fetched
    with the patch laid over it; on the insert path it is built from the
    input; either one is published on the event bus. *)
Theorem write_without_row_is_tolerated :
  forall env,
    (forall input w existing,
        fst (select_desc env (find_filters input) (Some 1) w) = rows [existing] ->
        write_verdict env (writes w) = Suppressed ->
        let tx := mapRow (with_id (id existing)
                            (spread existing (reuse_patch input existing))) in
        exists w',
          createOrReuseActiveTransaction env input w = (Resolved tx, w') /\
          emitted (bus w') = emitted (bus w) ++ [tx]) /\
    (forall input w,
        write_verdict env (writes w) = Suppressed ->
        taken (gen_random_uuid env (writes w)) (table w) = false ->
        exists tx w',
          createPendingTransaction env input w = (Resolved tx, w') /\
          emitted (bus w') = emitted (bus w) ++ [tx] /\
          user_id tx = PendingInput.userId input /\
          offer_id tx = PendingInput.offerId input /\
          offer_title tx = PendingInput.offerTitle input /\
          offer_icon_url tx = PendingInput.offerIconUrl input /\
          amount tx = PendingInput.amount input /\
          proof_url tx = PendingInput.proofUrl input /\
          status tx = pending) /\
    (forall input w,
        fst (select_desc env (find_filters input) (Some 1) w) = rows [] ->
        write_verdict env (writes w) = Suppressed ->
        taken (gen_random_uuid env (writes w)) (table w) = false ->
        exists tx w',
          createOrReuseActiveTransaction env input w = (Resolved tx, w') /\
          emitted (bus w') = emitted (bus w) ++ [tx] /\
          user_id tx = ReuseInput.userId input /\
          offer_id tx = Some (ReuseInput.offerId input) /\
          offer_title tx = ReuseInput.offerTitle input /\
          offer_icon_url tx = ReuseInput.offerIconUrl input /\
          amount tx = ReuseInput.amount input /\
          status tx = pending).
Proof.
  intros env. split; [|split].
  - intros input w existing Hf Hv tx.
    unfold createOrReuseActiveTransaction, then_ at 1, await.
    destruct (select_desc env (find_filters input) (Some 1) w) as [found w1] eqn:Hs.
    simpl in Hf. subst found. simpl.
    assert (Hw1 : w1 = count_read w).
    { unfold select_desc in Hs. injection Hs as _ <-. reflexivity. }
    subst w1.
    unfold then_ at 1, await, update_returning. simpl. rewrite Hv. simpl.
    match goal with |- context [(emit env ?t ;;; pure ?t) ?x] =>
      destruct (publish_and_return env t x) as (w' & Hrun & _ & He & _) end.
    exists w'. split; [exact Hrun|]. exact He.
  - intros input w Hv Hk.
    destruct (pending_insert_without_row env input w Hv Hk)
      as (w' & stored & Hrun & He & _).
    eexists. exists w'. split; [exact Hrun|]. split; [exact He|].
    simpl. repeat split; reflexivity.
  - intros input w Hf Hv Hk.
    unfold createOrReuseActiveTransaction, then_ at 1, await.
    destruct (select_desc env (find_filters input) (Some 1) w) as [found w1] eqn:Hs.
    simpl in Hf. subst found. simpl.
    assert (Hw1 : w1 = count_read w).
    { unfold select_desc in Hs. injection Hs as _ <-. reflexivity. }
    subst w1.
    match goal with |- context [createPendingTransaction env ?i ?x] =>
      destruct (pending_insert_without_row env i x Hv Hk)
        as (w' & stored & Hrun & He & _) end.
    eexists. exists w'. split; [exact Hrun|]. split; [exact He|].
    simpl. repeat split; reflexivity.
Qed.

Lemma write_without_row_is_tolerated_witness :
  (exists w',
      createOrReuseActiveTransaction Scenario.guarded Scenario.again
        (Scenario.world_of [Scenario.row "t9" rejected 3%N])
      = (Resolved {| id := "t9";
                     user_id := "u1";
                     offer_id := Some "o1";
                     offer_title := Some "Install app";
                     offer_icon_url := Some "icon.png";
                     amount := Some 5%Z;
                     status := pending;
                     proof_url := None;
                     notes := Some "blurry";
                     reviewed_by := None;
                     reviewed_at := None;
                     created_at := 3%N;
                     updated_at := 3%N |}, w') /\
      length (emitted (bus w')) = 1) /\
  (exists tx w',
      createPendingTransaction Scenario.guarded Scenario.attempt
        (Scenario.world_of []) = (Resolved tx, w') /\
      length (emitted (bus w')) = 1) /\
  (exists tx w',
      createOrReuseActiveTransaction Scenario.guarded Scenario.again
        (Scenario.world_of [Scenario.row "t9" paid 3%N]) = (Resolved tx, w') /\
      length (emitted (bus w')) = 1).
Proof.
  destruct (write_without_row_is_tolerated Scenario.guarded) as (Hreuse & Hnew & Hfirst).
  split; [|split].
  - destruct (Hreuse Scenario.again
                (Scenario.world_of [Scenario.row "t9" rejected 3%N])
                (Scenario.row "t9" rejected 3%N) eq_refl eq_refl)
      as (w' & Hrun & He).
    exists w'. split; [exact Hrun|]. rewrite He. reflexivity.
  - destruct (Hnew Scenario.attempt (Scenario.world_of []) eq_refl eq_refl)
      as (tx & w' & Hrun & He & _).
    exists tx, w'. split; [exact Hrun|]. rewrite He. reflexivity.
  - destruct (Hfirst Scenario.again
                (Scenario.world_of [Scenario.row "t9" paid 3%N])
                eq_refl eq_refl eq_refl)
      as (tx & w' & Hrun & He & _).
    exists tx, w'. split; [exact Hrun|]. rewrite He. reflexivity.
Defined.

(** C10. On the branch of [createPendingTransaction] taken when the insert
    returns no row, the result carries the id ["unknown"], two successive
    readings of the clock as [created_at] and [updated_at], and null notes
    and review fields; when the gateway never issues that id, a status update
    aimed at it finds no row, rejects and writes nothing. *)
Theorem degraded_insert_has_sentinel_id :
  forall env input w,
    write_verdict env (writes w) = Suppressed ->
    taken (gen_random_uuid env (writes w)) (table w) = false ->
    exists tx w',
      createPendingTransaction env input w = (Resolved tx, w') /\
      id tx = "unknown" /\
      created_at tx = Date_now env (ticks w) /\
      updated_at tx = Date_now env (S (ticks w)) /\
      notes tx = None /\ reviewed_by tx = None /\ reviewed_at tx = None /\
      (taken "unknown" (table w) = false ->
       gen_random_uuid env (writes w) <> "unknown" ->
       filter (matches [eq_id (id tx)]) (table w') = [] /\
       forall s options,
         exists e w'',
           updateTransactionStatus env (id tx) s options w' = (Rejected e, w'') /\
           table w'' = table w').
Proof.
  intros env input w Hv Hk.
  destruct (pending_insert_without_row env input w Hv Hk)
    as (w' & stored & Hrun & _ & Ht & Hid & _).
  eexists. exists w'. split; [exact Hrun|]. simpl.
  repeat (split; [reflexivity|]).
  intros Hu Hg.
  assert (Hnone : filter (matches [eq_id "unknown"]) (table w') = []).
  { rewrite Ht, filter_app. simpl. rewrite Hid.
    destruct (String.eqb (gen_random_uuid env (writes w)) "unknown") eqn:E.
    - apply String.eqb_eq in E. contradiction.
    - simpl. rewrite app_nil_r.
      clear - Hu. unfold taken in Hu.
      induction (table w) as [|r t IH]; [reflexivity|].
      simpl in *. apply orb_false_iff in Hu. destruct Hu as [-> Hu].
      simpl. apply IH, Hu. }
  split; [exact Hnone|].
  intros s options. apply status_update_on_no_row. exact Hnone.
Qed.

Lemma degraded_insert_has_sentinel_id_witness :
  exists tx w',
    createPendingTransaction Scenario.guarded Scenario.attempt
      (Scenario.world_of []) = (Resolved tx, w') /\
    id tx = "unknown" /\
    created_at tx = 1000%N /\
    updated_at tx = 1001%N /\
    notes tx = None /\ reviewed_by tx = None /\ reviewed_at tx = None /\
    filter (matches [eq_id (id tx)]) (table w') = [] /\
    exists e w'',
      updateTransactionStatus Scenario.guarded (id tx) paid None w'
      = (Rejected e, w'') /\
      table w'' = table w'.
Proof.
  destruct (degraded_insert_has_sentinel_id Scenario.guarded Scenario.attempt
              (Scenario.world_of []) eq_refl eq_refl)
    as (tx & w' & Hrun & Hid & Hc & Hu & Hn & Hb & Ha & Hrest).
  exists tx, w'. repeat (split; [assumption|]).
  destruct (Hrest eq_refl) as [Hnone Hupd]; [simpl; discriminate|].
  split; [exact Hnone|]. apply Hupd.
Defined.

(* --------------------------------------------------------------------- *)
(** *** The find query *)







Lemma first_head (l : list Transaction) :
  first (Some (firstn 1 l)) = hd_error l.
Proof. destruct l; reflexivity. Qed.

Lemma find_matches_pair input r :
  matches (find_filters input) r
  = for_pair (ReuseInput.userId input) (ReuseInput.offerId input) r
    && negb (is_paid r).
Proof.
  unfold matches, find_filters, for_pair, is_paid. simpl.
  rewrite andb_true_r, andb_assoc. reflexivity.
Qed.


Lemma unique_id (t : list Transaction) x :
  NoDup (map id t) -> In x t -> filter (matches [eq_id (id x)]) t = [x].
Proof.
  induction t as [|r t IH]; intros Hn Hi; [destruct Hi|].
  simpl in Hn. inversion Hn as [|? ? Hr Ht]; subst.
  assert (Hnone : forall i, ~ In i (map id t) -> filter (matches [eq_id i]) t = []).
  { clear. intros i. induction t as [|y t IH]; intros H; [reflexivity|].
    simpl in *. destruct (String.eqb (id y) i) eqn:E.
    - apply String.eqb_eq in E. exfalso. apply H. left. exact E.
    - simpl. apply IH. intros G. apply H. right. exact G. }
  simpl. destruct Hi as [->|Hi].
  - rewrite String.eqb_refl. simpl. f_equal. apply Hnone, Hr.
  - destruct (String.eqb (id r) (id x)) eqn:E.
    + apply String.eqb_eq in E. exfalso. apply Hr. rewrite E.
      apply in_map. exact Hi.
    + simpl. apply IH; assumption.
Qed.





(* --------------------------------------------------------------------- *)
(** *** One call of the reuse rule, case by case *)

Lemma written_pair env p w u o r :
  for_pair u o (written env p w r) = for_pair u o r.
Proof. reflexivity. Qed.






(** An insert the gateway accepts appends one pending row under a fresh
    id. *)
Lemma pending_insert_accepted env input w :
  refused (write_verdict env (writes w)) = false ->
  taken (gen_random_uuid env (writes w)) (table w) = false ->
  exists tx w' stored,
    createPendingTransaction env input w = (Resolved tx, w') /\
    table w' = table w ++ [stored] /\
    id stored = gen_random_uuid env (writes w) /\
    status stored = pending /\
    user_id stored = PendingInput.userId input /\
    offer_id stored = PendingInput.offerId input /\
    (write_verdict env (writes w) = Served -> tx = stored).
Proof.
  intros Hv Hk.
  unfold createPendingTransaction, then_ at 1, await, insert_returning.
  rewrite Hk.
  destruct (write_verdict env (writes w)) as [| |e]; [| |discriminate]; simpl.
  - publish_as w2 Hw2.
    eexists. exists w2. eexists. split; [reflexivity|].
    split; [rewrite Hw2; reflexivity|]. simpl.
    repeat split; try reflexivity.
    destruct (PendingInput.offerId input); reflexivity.
  - unfold then_ at 1, new_Date. unfold then_ at 1.
    publish_as w2 Hw2.
    eexists. exists w2. eexists. split; [reflexivity|].
    split; [rewrite Hw2; reflexivity|]. simpl.
    repeat split; try reflexivity; try discriminate.
    destruct (PendingInput.offerId input); reflexivity.
Qed.

Lemma taken_false_ids i (t : list Transaction) :
  taken i t = false -> forall r, In r t -> id r <> i.
Proof.
  unfold taken. intros H r Hr E.
  assert (G : existsb (fun r => String.eqb (id r) i) t = true).
  { apply existsb_exists. exists r. split; [exact Hr|].
    apply String.eqb_eq. exact E. }
  congruence.
Qed.

Lemma no_unpaid_row input (t : list Transaction) :
  (forall r, In r t ->
             for_pair (ReuseInput.userId input) (ReuseInput.offerId input) r = true ->
             status r = paid) ->
  filter (matches (find_filters input)) t = [].
Proof.
  intros H. induction t as [|r t IH]; [reflexivity|]. cbn [filter].
  rewrite find_matches_pair.
  destruct (for_pair (ReuseInput.userId input) (ReuseInput.offerId input) r) eqn:E.
  - unfold is_paid. rewrite (H r (or_introl eq_refl) E). simpl.
    apply IH. intros y Hy. apply H. right. exact Hy.
  - simpl. apply IH. intros y Hy. apply H. right. exact Hy.
Qed.

(** C4. When every row the table holds for the pair is paid, and the gateway
    refuses neither the find query nor the insert and issues an id no row
    carries, the call resolves and the table afterwards is the table before,
    every row as it was, followed by one new pending row of the pair whose id
    differs from the id of every earlier row. *)
Theorem paid_is_never_reused :
  forall env input w,
    (forall r, In r (table w) ->
               for_pair (ReuseInput.userId input) (ReuseInput.offerId input) r = true ->
               status r = paid) ->
    refused (read_verdict env (reads w)) = false ->
    refused (write_verdict env (writes w)) = false ->
    taken (gen_random_uuid env (writes w)) (table w) = false ->
    exists tx w' stored,
      createOrReuseActiveTransaction env input w = (Resolved tx, w') /\
      table w' = table w ++ [stored] /\
      status stored = pending /\
      user_id stored = ReuseInput.userId input /\
      offer_id stored = Some (ReuseInput.offerId input) /\
      (forall r, In r (table w) -> id r <> id stored) /\
      (write_verdict env (writes w) = Served -> tx = stored).
Proof.
  intros env input w Hpaid Hr Hw Hk.
  pose proof (no_unpaid_row input (table w) Hpaid) as Hnone.
  unfold createOrReuseActiveTransaction, then_ at 1, await, select_desc.
  rewrite Hnone.
  assert (Hfound :
    match read_verdict env (reads w) with
    | Served => rows (firstn 1 (order_desc []))
    | Suppressed => rows []
    | Refused e => failure e
    end = rows []).
  { destruct (read_verdict env (reads w)); [reflexivity|reflexivity|discriminate]. }
  simpl in Hfound. simpl. rewrite Hfound. simpl.
  match goal with |- context [createPendingTransaction env ?i ?x] =>
    destruct (pending_insert_accepted env i x Hw Hk)
      as (tx & w' & stored & Hrun & Ht & Hid & Hs & Hu & Ho & Htx) end.
  exists tx, w', stored. split; [exact Hrun|].
  split; [exact Ht|]. split; [exact Hs|]. split; [exact Hu|]. split; [exact Ho|].
  split; [|exact Htx].
  rewrite Hid. apply taken_false_ids. exact Hk.
Qed.

Lemma paid_is_never_reused_witness :
  exists tx w' stored,
    createOrReuseActiveTransaction Scenario.calm Scenario.again
      (Scenario.world_of [Scenario.row "t9" paid 3%N]) = (Resolved tx, w') /\
    table w' = [Scenario.row "t9" paid 3%N; stored] /\
    status stored = pending /\
    user_id stored = "u1" /\
    offer_id stored = Some "o1" /\
    (forall r, In r [Scenario.row "t9" paid 3%N] -> id r <> id stored) /\
    (Served = Served -> tx = stored).
Proof.
  apply (paid_is_never_reused Scenario.calm Scenario.again
           (Scenario.world_of [Scenario.row "t9" paid 3%N])).
  - simpl. intros r [<-|[]] _. reflexivity.
  - reflexivity.
  - reflexivity.
  - reflexivity.
Defined.

(* --------------------------------------------------------------------- *)
(** *** Successive calls for one pair *)


Lemma stored_pair u o (r : Transaction) :
  user_id r = u -> offer_id r = Some o -> for_pair u o r = true.
Proof.
  intros Hu Ho. unfold for_pair. rewrite Hu, Ho. simpl.
  rewrite !String.eqb_refl. reflexivity.
Qed.


(* --------------------------------------------------------------------- *)
(** *** Calls in progress together *)

(** One call resumed twice, with nothing in between, is the call awaited. *)
Lemma awaited_call env input w :
  interleave env [0; 0] [AwaitingFind input] w
  = let (out, w') := createOrReuseActiveTransaction env input w in
    ([Settled out], w').
Proof.
  unfold createOrReuseActiveTransaction, then_ at 1, await.
  cbn [interleave resume_nth resume].
  destruct (select_desc env (find_filters input) (Some 1) w) as [found w1].
  destruct (error found) as [e|]; [reflexivity|].
  destruct (first (data found)) as [existing|]; cbn [resume_nth resume].
  - unfold reuse_existing, await. destruct (then_ _ _ w1); reflexivity.
  - unfold insert_new. destruct (createPendingTransaction _ _ w1); reflexivity.
Qed.

(** The find query answers no row when the table holds no unpaid row of the
    pair, whether the gateway serves it or hides rows from it. *)
Lemma find_none env input w :
  filter (matches (find_filters input)) (table w) = [] ->
  refused (read_verdict env (reads w)) = false ->
  select_desc env (find_filters input) (Some 1) w = (rows [], count_read w).
Proof.
  intros Hnone Hv. unfold select_desc. rewrite Hnone.
  destruct (read_verdict env (reads w)); [reflexivity|reflexivity|discriminate].
Qed.

(** An insert the gateway serves: the row stored, and the counters. *)
Lemma pending_insert_served env input w :
  write_verdict env (writes w) = Served ->
  taken (gen_random_uuid env (writes w)) (table w) = false ->
  exists tx w',
    createPendingTransaction env input w = (Resolved tx, w') /\
    table w' = table w ++ [tx] /\
    id tx = gen_random_uuid env (writes w) /\
    status tx = pending /\
    user_id tx = PendingInput.userId input /\
    offer_id tx = PendingInput.offerId input /\
    reads w' = reads w /\ writes w' = S (writes w).
Proof.
  intros Hv Hk.
  unfold createPendingTransaction, then_ at 1, await, insert_returning.
  rewrite Hk, Hv. cbn [suppressed firstn rows error data first].
  match goal with |- context [(emit env ?t ;;; pure ?t) ?x] =>
    destruct (publish_and_return env t x) as (w2 & -> & Ht & _ & _ & Hr & Hw) end.
  eexists. exists w2. split; [reflexivity|].
  rewrite Ht, Hr, Hw, mapRow_same. simpl.
  repeat split; try reflexivity.
  destruct (PendingInput.offerId input); reflexivity.
Qed.

Lemma taken_app i (t1 t2 : list Transaction) :
  taken i (t1 ++ t2) = taken i t1 || taken i t2.
Proof. unfold taken. apply existsb_app. Qed.

(** C1. The reuse rule is a find followed by a write, and nothing keeps a
    second call from running between the two.  Take two calls for one (user,
    offer) pair, made one after the other without awaiting the first (two
    taps on the button of the offer screen), on a table with no unpaid row of
    the pair, with a gateway that refuses nothing and issues two fresh ids.
    Both find queries are answered before either write, both answer no row,
    and both calls insert: both resolve, and the table ends with two pending
    rows of the pair where the rule promises one. *)
Theorem overlapping_calls_both_insert :
  forall env i1 i2 w,
    ReuseInput.userId i2 = ReuseInput.userId i1 ->
    ReuseInput.offerId i2 = ReuseInput.offerId i1 ->
    filter (matches (find_filters i1)) (table w) = [] ->
    refused (read_verdict env (reads w)) = false ->
    refused (read_verdict env (S (reads w))) = false ->
    write_verdict env (writes w) = Served ->
    write_verdict env (S (writes w)) = Served ->
    taken (gen_random_uuid env (writes w)) (table w) = false ->
    taken (gen_random_uuid env (S (writes w))) (table w) = false ->
    gen_random_uuid env (writes w) <> gen_random_uuid env (S (writes w)) ->
    exists tx1 tx2 w',
      interleave env [0; 1; 0; 1] [AwaitingFind i1; AwaitingFind i2] w
      = ([Settled (Resolved tx1); Settled (Resolved tx2)], w') /\
      table w' = table w ++ [tx1; tx2] /\
      id tx1 <> id tx2 /\
      status tx1 = pending /\ status tx2 = pending /\
      user_id tx1 = ReuseInput.userId i1 /\ user_id tx2 = ReuseInput.userId i1 /\
      offer_id tx1 = Some (ReuseInput.offerId i1) /\
      offer_id tx2 = Some (ReuseInput.offerId i1) /\
      filter (matches (find_filters i1)) (table w') = [tx1; tx2] /\
      length (rows_of (ReuseInput.userId i1) (ReuseInput.offerId i1) (table w'))
      = length (rows_of (ReuseInput.userId i1) (ReuseInput.offerId i1) (table w)) + 2.
Proof.
  intros env i1 i2 w Hu Ho Hnone Hr1 Hr2 Hw1 Hw2 Hk1 Hk2 Hne.
  assert (Hf : find_filters i2 = find_filters i1)
    by (unfold find_filters; rewrite Hu, Ho; reflexivity).
  assert (Hfind : forall i x, find_filters i = find_filters i1 ->
                              table x = table w ->
                              refused (read_verdict env (reads x)) = false ->
                              resume env (AwaitingFind i) x
                              = (AwaitingInsert i, count_read x)).
  { intros i x Hi Hx Hv. cbn [resume]. rewrite Hi, find_none; [reflexivity| |exact Hv].
    rewrite Hx. exact Hnone. }
  cbn [interleave resume_nth].
  rewrite (Hfind i1 w eq_refl eq_refl Hr1).
  rewrite (Hfind i2 (count_read w) Hf eq_refl Hr2).
  cbn [resume]. unfold insert_new.
  match goal with |- context [createPendingTransaction env ?i ?x] =>
    destruct (@pending_insert_served env i x Hw1 Hk1)
      as (tx1 & w3 & -> & Ht1 & Hid1 & Hs1 & Hu1 & Ho1 & Hrd1 & Hwr1) end.
  simpl in Ht1, Hid1, Hu1, Ho1, Hrd1, Hwr1.
  assert (Hw2' : write_verdict env (writes w3) = Served)
    by (rewrite Hwr1; exact Hw2).
  assert (Hk2' : taken (gen_random_uuid env (writes w3)) (table w3) = false).
  { rewrite Hwr1, Ht1, taken_app, Hk2. unfold taken. simpl.
    rewrite Hid1, orb_false_r. apply String.eqb_neq. exact Hne. }
  cbn [resume]. unfold insert_new.
  match goal with |- context [createPendingTransaction env ?i ?x] =>
    destruct (@pending_insert_served env i x Hw2' Hk2')
      as (tx2 & w4 & -> & Ht2 & Hid2 & Hs2 & Hu2 & Ho2 & _) end.
  simpl in Hu2, Ho2. rewrite Hu in Hu2. rewrite Ho in Ho2.
  assert (Hm : forall tx, user_id tx = ReuseInput.userId i1 ->
                          offer_id tx = Some (ReuseInput.offerId i1) ->
                          status tx = pending ->
                          for_pair (ReuseInput.userId i1) (ReuseInput.offerId i1) tx = true /\
                          matches (find_filters i1) tx = true).
  { intros tx Hx Hy Hz.
    assert (Hp : for_pair (ReuseInput.userId i1) (ReuseInput.offerId i1) tx = true)
      by (apply stored_pair; assumption).
    split; [exact Hp|]. rewrite find_matches_pair, Hp. unfold is_paid.
    rewrite Hz. reflexivity. }
  destruct (Hm tx1 Hu1 Ho1 Hs1) as [Hp1 Hm1].
  destruct (Hm tx2 Hu2 Ho2 Hs2) as [Hp2 Hm2].
  assert (Htab : table w4 = table w ++ [tx1; tx2]).
  { rewrite Ht2, Ht1, <- app_assoc. reflexivity. }
  exists tx1, tx2, w4. split; [reflexivity|]. split; [exact Htab|].
  split; [rewrite Hid1, Hid2, Hwr1; exact Hne|].
  repeat (split; [assumption|]).
  rewrite Htab. unfold rows_of. rewrite !filter_app, Hnone. cbn [filter app].
  rewrite Hm1, Hm2, Hp1, Hp2. rewrite length_app. split; reflexivity.
Qed.

Lemma overlapping_calls_both_insert_witness :
  exists tx1 tx2 w',
    interleave Scenario.calm [0; 1; 0; 1]
      [AwaitingFind Scenario.again; AwaitingFind Scenario.again]
      (Scenario.world_of [])
    = ([Settled (Resolved tx1); Settled (Resolved tx2)], w') /\
    table w' = [] ++ [tx1; tx2] /\
    id tx1 <> id tx2 /\
    status tx1 = pending /\ status tx2 = pending /\
    user_id tx1 = "u1" /\ user_id tx2 = "u1" /\
    offer_id tx1 = Some "o1" /\ offer_id tx2 = Some "o1" /\
    filter (matches (find_filters Scenario.again)) (table w') = [tx1; tx2] /\
    length (rows_of "u1" "o1" (table w')) = 0 + 2.
Proof.
  apply (@overlapping_calls_both_insert Scenario.calm Scenario.again Scenario.again
           (Scenario.world_of [])); try reflexivity.
  simpl. discriminate.
Defined.

(* ===================================================================== *)
(** ** Further facts: removal handles of the event bus *)
(* ===================================================================== *)

Lemma set_delete_absent cb l : ~ In cb l -> TxEvents.set_delete cb l = l.
Proof.
  intros H. unfold TxEvents.set_delete. induction l as [|x l IH]; [reflexivity|].
  simpl. destruct (Nat.eqb cb x) eqn:E.
  - apply Nat.eqb_eq in E. subst. exfalso. apply H. left. reflexivity.
  - simpl. f_equal. apply IH. intros G. apply H. right. exact G.
Qed.

Lemma set_delete_gone cb l : ~ In cb (TxEvents.set_delete cb l).
Proof.
  unfold TxEvents.set_delete. intros H. apply filter_In in H.
  destruct H as [_ H]. rewrite Nat.eqb_refl in H. discriminate.
Qed.

Lemma has_false cb l : ~ In cb l -> TxEvents.has cb l = false.
Proof.
  intros H. destruct (TxEvents.has cb l) eqn:E; [|reflexivity].
  apply has_In in E. contradiction.
Qed.

(** X1. Registering a callback that was not registered and then calling the
    handle that registration returned gives back the bus as it was; the
    handle answers [true] the first time and [false], changing nothing, when
    called again. *)
Theorem handle_undoes_registration :
  forall (T : Type) (b : Bus T) (cb : ident),
    ~ In cb (listeners b) ->
    let h := fst (addTransactionListener cb b) in
    let b1 := snd (addTransactionListener cb b) in
    In cb (listeners b1) /\
    call_handle h b1 = (true, b) /\
    call_handle h b = (false, b).
Proof.
  intros T b cb H h b1. subst h b1. simpl.
  assert (Ha : set_add cb (listeners b) = listeners b ++ [cb]).
  { unfold set_add. rewrite (has_false cb (listeners b) H). reflexivity. }
  assert (Hd : set_delete cb (listeners b ++ [cb]) = listeners b).
  { unfold set_delete. rewrite filter_app. simpl. rewrite Nat.eqb_refl. simpl.
    rewrite app_nil_r. apply (set_delete_absent cb (listeners b) H). }
  split; [rewrite Ha; apply in_or_app; right; left; reflexivity|].
  unfold call_handle, with_listeners. simpl. rewrite Ha, Hd. split.
  - f_equal.
    + apply has_In. apply in_or_app. right. left. reflexivity.
    + destruct b; reflexivity.
  - rewrite (has_false cb (listeners b) H), (set_delete_absent cb (listeners b) H).
    destruct b; reflexivity.
Qed.

Lemma handle_undoes_registration_witness :
  let b := Scenario.two_listeners in
  In 5 (listeners (snd (addTransactionListener 5 b))) /\
  call_handle 5 (snd (addTransactionListener 5 b)) = (true, b) /\
  call_handle 5 b = (false, b).
Proof.
  apply (@handle_undoes_registration string Scenario.two_listeners 5).
  simpl. intuition discriminate.
Defined.

(** X2. Registrations are not counted.  A callback registered twice holds one
    place in the set, and calling either handle once removes it: the next
    publish does not call it, and the other handle then finds nothing to
    remove. *)
Theorem one_handle_removes_a_double_registration :
  forall (T : Type) (code : ident -> T -> Behaviour) (tx : T) (b : Bus T) (cb : ident),
    let b1 := snd (addTransactionListener cb b) in
    let b2 := snd (addTransactionListener cb b1) in
    let b3 := snd (call_handle cb b2) in
    listeners b2 = listeners b1 /\
    ~ In cb (listeners b3) /\
    ~ In cb (map fst (calls_since b3 (snd (emitTransaction code tx b3)))) /\
    call_handle cb b3 = (false, b3).
Proof.
  intros T code tx b cb b1 b2 b3.
  assert (H1 : In cb (listeners b1)).
  { subst b1. simpl. unfold set_add.
    destruct (has cb (listeners b)) eqn:E.
    - apply has_In. exact E.
    - apply in_or_app. right. left. reflexivity. }
  assert (H2 : listeners b2 = listeners b1).
  { apply has_In in H1. subst b2.
    change (set_add cb (listeners b1) = listeners b1).
    unfold set_add. rewrite H1. reflexivity. }
  assert (H3 : ~ In cb (listeners b3)).
  { subst b3. simpl. apply set_delete_gone. }
  split; [exact H2|]. split; [exact H3|]. split.
  - rewrite calls_since_emit, map_map. simpl. rewrite map_id. exact H3.
  - unfold call_handle. rewrite (has_false cb (listeners b3) H3).
    rewrite (set_delete_absent cb (listeners b3) H3).
    unfold with_listeners. destruct b3; reflexivity.
Qed.

(* ===================================================================== *)
(** ** Further facts: the transaction lifecycle *)
(* ===================================================================== *)

(** Publishing and returning, with what the listeners saw. *)
Lemma publish_and_return_calls env tx w :
  exists w',
    (emit env tx ;;; pure tx) w = (Resolved tx, w') /\
    table w' = table w /\
    emitted (bus w') = emitted (bus w) ++ [tx] /\
    calls (bus w') = calls (bus w) ++ map (fun cb => (cb, tx)) (listeners (bus w)) /\
    ticks w' = ticks w /\ writes w' = writes w.
Proof.
  destruct (emit_resolves env tx w) as (b' & Hrun & He & Hc).
  exists (with_bus b' w). unfold then_. rewrite Hrun. simpl.
  repeat split; assumption || reflexivity.
Qed.

(** X3. An insert the gateway refuses, or whose generated id is already in
    the table, makes [createPendingTransaction] reject: the table and the
    event bus stay as they were, and a refusal is passed on as it came. *)
Theorem failed_insert_writes_nothing :
  forall env input w,
    refused (write_verdict env (writes w)) = true \/
    taken (gen_random_uuid env (writes w)) (table w) = true ->
    exists e w',
      createPendingTransaction env input w = (Rejected e, w') /\
      table w' = table w /\
      bus w' = bus w /\
      (forall e0, write_verdict env (writes w) = Refused e0 -> e = e0).
Proof.
  intros env input w H.
  unfold createPendingTransaction, then_ at 1, await, insert_returning.
  destruct (write_verdict env (writes w)) as [| |e0] eqn:Hv.
  - destruct H as [H|H]; [discriminate|]. rewrite H. simpl.
    eexists. eexists. repeat split; try reflexivity. discriminate.
  - destruct H as [H|H]; [discriminate|]. rewrite H. simpl.
    eexists. eexists. repeat split; try reflexivity. discriminate.
  - simpl. eexists. eexists. repeat split; try reflexivity.
    intros e1 E. injection E as <-. reflexivity.
Qed.

Lemma failed_insert_writes_nothing_witness :
  exists e w',
    createPendingTransaction Scenario.calm Scenario.attempt
      (Scenario.world_of [Scenario.row "t1" paid 3%N]) = (Rejected e, w') /\
    table w' = [Scenario.row "t1" paid 3%N] /\
    bus w' = bus (Scenario.world_of [Scenario.row "t1" paid 3%N]) /\
    (forall e0, Served = Refused e0 -> e = e0).
Proof.
  apply (failed_insert_writes_nothing Scenario.calm Scenario.attempt
           (Scenario.world_of [Scenario.row "t1" paid 3%N])).
  right. reflexivity.
Defined.

(** X4. When the gateway serves the insert, [createPendingTransaction]
    resolves with the very row the gateway stored: the generated id, the
    fields of the input, status pending, no notes and no review, both
    timestamps the gateway's.  That row is appended to the table, is published
    once and reaches every registered listener; the client clock is not
    read. *)
Theorem served_insert_returns_the_stored_row :
  forall env input w,
    write_verdict env (writes w) = Served ->
    taken (gen_random_uuid env (writes w)) (table w) = false ->
    let stored :=
      {| id := gen_random_uuid env (writes w);
         user_id := PendingInput.userId input;
         offer_id := PendingInput.offerId input;
         offer_title := PendingInput.offerTitle input;
         offer_icon_url := PendingInput.offerIconUrl input;
         amount := PendingInput.amount input;
         status := pending;
         proof_url := PendingInput.proofUrl input;
         notes := None;
         reviewed_by := None;
         reviewed_at := None;
         created_at := db_now env (writes w);
         updated_at := db_now env (writes w) |} in
    exists w',
      createPendingTransaction env input w = (Resolved stored, w') /\
      table w' = table w ++ [stored] /\
      emitted (bus w') = emitted (bus w) ++ [stored] /\
      calls (bus w')
      = calls (bus w) ++ map (fun cb => (cb, stored)) (listeners (bus w)) /\
      ticks w' = ticks w.
Proof.
  intros env input w Hv Hk stored.
  assert (Hn : forall A (a : option A), nullish a None = a) by (intros A [a|]; reflexivity).
  unfold createPendingTransaction, then_ at 1, await, insert_returning.
  rewrite Hv, Hk. simpl. unfold inserted. simpl. rewrite !Hn.
  fold stored.
  destruct (publish_and_return_calls env stored
              (commit (table w ++ [stored]) w))
    as (w' & Hrun & Ht & He & Hc & Hti & _).
  exists w'. split; [exact Hrun|]. repeat split; assumption.
Qed.

Lemma served_insert_returns_the_stored_row_witness :
  exists w',
    createPendingTransaction Scenario.calm Scenario.attempt (Scenario.world_of [])
    = (Resolved {| id := "t1";
                   user_id := "u1";
                   offer_id := Some "o1";
                   offer_title := Some "Install app";
                   offer_icon_url := None;
                   amount := Some 5%Z;
                   status := pending;
                   proof_url := None;
                   notes := None;
                   reviewed_by := None;
                   reviewed_at := None;
                   created_at := 500%N;
                   updated_at := 500%N |}, w') /\
    length (table w') = 1 /\
    length (calls (bus w')) = 1.
Proof.
  destruct (served_insert_returns_the_stored_row Scenario.calm Scenario.attempt
              (Scenario.world_of []) eq_refl eq_refl)
    as (w' & Hrun & Ht & _ & Hc & _).
  exists w'. split; [exact Hrun|]. rewrite Ht, Hc. split; reflexivity.
Defined.

(** X5. [createOrReuseActiveTransaction] passes gateway errors on and writes
    nothing.  When the find query is refused the call rejects with that error
    without sending any write; when the update of the found row is refused it
    rejects with that error; in both cases the table and the event bus are
    as before. *)
Theorem failed_reuse_writes_nothing :
  forall env input w,
    (forall e, read_verdict env (reads w) = Refused e ->
       exists w',
         createOrReuseActiveTransaction env input w = (Rejected e, w') /\
         table w' = table w /\ bus w' = bus w /\ writes w' = writes w) /\
    (forall e existing,
       fst (select_desc env (find_filters input) (Some 1) w) = rows [existing] ->
       write_verdict env (writes w) = Refused e ->
       exists w',
         createOrReuseActiveTransaction env input w = (Rejected e, w') /\
         table w' = table w /\ bus w' = bus w).
Proof.
  intros env input w. split.
  - intros e Hr.
    unfold createOrReuseActiveTransaction, then_ at 1, await, select_desc.
    rewrite Hr. simpl. eexists. repeat split; reflexivity.
  - intros e existing Hf Hv.
    unfold createOrReuseActiveTransaction, then_ at 1, await.
    destruct (select_desc env (find_filters input) (Some 1) w) as [found w1] eqn:Hs.
    simpl in Hf. subst found. simpl.
    assert (Hw1 : w1 = count_read w).
    { unfold select_desc in Hs. injection Hs as _ <-. reflexivity. }
    subst w1.
    unfold then_ at 1, await, update_returning. simpl. rewrite Hv. simpl.
    eexists. repeat split; reflexivity.
Qed.

Lemma failed_reuse_writes_nothing_witness :
  let offline := {| Date_now := Date_now Scenario.calm;
                    gen_random_uuid := gen_random_uuid Scenario.calm;
                    db_now := db_now Scenario.calm;
                    read_verdict := fun _ => Refused {| message := "offline" |};
                    write_verdict := fun _ => Served;
                    code := code Scenario.calm |} in
  let denied := {| Date_now := Date_now Scenario.calm;
                   gen_random_uuid := gen_random_uuid Scenario.calm;
                   db_now := db_now Scenario.calm;
                   read_verdict := fun _ => Served;
                   write_verdict := fun _ => Refused {| message := "denied" |};
                   code := code Scenario.calm |} in
  let w := Scenario.world_of [Scenario.row "t9" rejected 3%N] in
  (exists w',
      createOrReuseActiveTransaction offline Scenario.again w
      = (Rejected {| message := "offline" |}, w') /\
      table w' = table w /\ bus w' = bus w /\ writes w' = writes w) /\
  (exists w',
      createOrReuseActiveTransaction denied Scenario.again w
      = (Rejected {| message := "denied" |}, w') /\
      table w' = table w /\ bus w' = bus w).
Proof.
  intros offline denied w. split.
  - exact (proj1 (failed_reuse_writes_nothing offline Scenario.again w)
                 {| message := "offline" |} eq_refl).
  - exact (proj2 (failed_reuse_writes_nothing denied Scenario.again w)
                 {| message := "denied" |} (Scenario.row "t9" rejected 3%N)
                 eq_refl eq_refl).
Defined.

(** The patch of a status update, key by key, and what building it does to
    the world: it reads the clock once when it stamps, and nothing else. *)
Lemma build_patch_fields env s options w :
  exists p w1,
    build_patch env s options w = (Resolved p, w1) /\
    table w1 = table w /\ bus w1 = bus w /\ writes w1 = writes w /\
    patch_status p = Some s /\
    patch_offer_title p = None /\
    patch_offer_icon_url p = None /\
    patch_amount p = None /\
    patch_notes p = match options with Some o => Options.notes o | None => None end /\
    patch_reviewed_by p
    = match options with Some o => Options.reviewed_by o | None => None end /\
    patch_reviewed_at p
    = match options with
      | Some o =>
          match Options.reviewed_at o with
          | Some v => Some v
          | None => if negb (status_eqb s pending)
                    then Some (Some (Date_now env (ticks w)))
                    else None
          end
      | None => None
      end /\
    (match options with
     | Some o => Options.reviewed_at o <> None
     | None => True
     end -> ticks w1 = ticks w).
Proof.
  unfold build_patch. destruct options as [o|].
  - destruct (Options.notes o), (Options.reviewed_by o),
             (Options.reviewed_at o), s; simpl;
      eexists; eexists; (split; [reflexivity|]); simpl;
        repeat split; try reflexivity; try (intros H; exfalso; apply H; reflexivity).
  - eexists; eexists; (split; [reflexivity|]); simpl; repeat split; reflexivity.
Qed.

Lemma eq_id_matches i (x : Transaction) :
  matches [eq_id i] x = String.eqb (id x) i.
Proof. unfold matches. simpl. apply andb_true_r. Qed.

Lemma rewrite_unique (f : Transaction -> Transaction) r l1 l2 :
  NoDup (map id (l1 ++ r :: l2)) ->
  map (fun x => if matches [eq_id (id r)] x then f x else x) (l1 ++ r :: l2)
  = l1 ++ f r :: l2.
Proof.
  intros Hn.
  assert (Hother : forall l, ~ In (id r) (map id l) ->
            map (fun x => if matches [eq_id (id r)] x then f x else x) l = l).
  { induction l as [|y l IH]; intros H; [reflexivity|]. simpl in *.
    destruct (String.eqb (id y) (id r)) eqn:E.
    - apply String.eqb_eq in E. exfalso. apply H. left. exact E.
    - simpl. f_equal. apply IH. intros G. apply H. right. exact G. }
  rewrite map_app in Hn. simpl in Hn.
  pose proof (NoDup_remove_2 _ _ _ Hn) as Hnot.
  rewrite map_app. simpl. rewrite String.eqb_refl. simpl.
  rewrite !Hother; [reflexivity| |].
  - intros G. apply Hnot. apply in_or_app. right. exact G.
  - intros G. apply Hnot. apply in_or_app. left. exact G.
Qed.

Lemma filter_unique r l1 l2 :
  NoDup (map id (l1 ++ r :: l2)) ->
  filter (matches [eq_id (id r)]) (l1 ++ r :: l2) = [r].
Proof.
  intros Hn. apply unique_id; [exact Hn|]. apply in_or_app. right. left. reflexivity.
Qed.

(** The status update on a served write to the one row that carries the id:
    the result, the table and the publish. *)
Lemma update_status_rewrites env s options w l1 r l2 p w1 :
  build_patch env s options w = (Resolved p, w1) ->
  table w = l1 ++ r :: l2 ->
  NoDup (map id (table w)) ->
  write_verdict env (writes w) = Served ->
  exists w',
    updateTransactionStatus env (id r) s options w
    = (Resolved (written env p w1 r), w') /\
    table w' = l1 ++ written env p w1 r :: l2 /\
    emitted (bus w') = emitted (bus w) ++ [written env p w1 r] /\
    ticks w' = ticks w1.
Proof.
  intros Hp Ht Hn Hv.
  destruct (build_patch_fields env s options w)
    as (p' & w1' & Hp' & Ht1 & Hb1 & Hw1 & _).
  rewrite Hp in Hp'. injection Hp' as <- <-.
  unfold updateTransactionStatus, then_ at 1. rewrite Hp.
  unfold then_ at 1, await, update_single, read_back, affected, update_rows.
  rewrite Hw1, Hv, Ht1, Ht.
  rewrite filter_unique by (rewrite <- Ht; exact Hn).
  rewrite rewrite_unique by (rewrite <- Ht; exact Hn).
  simpl. rewrite mapRow_same.
  match goal with |- context [(emit env ?t ;;; pure ?t) ?x] =>
    destruct (publish_and_return env t x) as (w' & Hrun & Htab & He & Hti & _) end.
  exists w'. split; [exact Hrun|]. simpl in *.
  rewrite Htab, He, Hti, Hb1. repeat split; reflexivity.
Qed.

(** X6. A served status update aimed at the id of a row of a table with
    unique ids rewrites that row where it stands and no other.  The row keeps
    its id, user, offer, title, icon, amount, proof and creation time; it
    takes the new status; [notes] and [reviewed_by] take the value given in
    the options, also [null], and stay as stored when the options leave them
    out.  The new row is what the call resolves with and what it
    publishes. *)
Theorem status_update_changes_one_row :
  forall env s options w l1 r l2,
    table w = l1 ++ r :: l2 ->
    NoDup (map id (table w)) ->
    write_verdict env (writes w) = Served ->
    exists tx w',
      updateTransactionStatus env (id r) s options w = (Resolved tx, w') /\
      table w' = l1 ++ tx :: l2 /\
      emitted (bus w') = emitted (bus w) ++ [tx] /\
      status tx = s /\
      id tx = id r /\ user_id tx = user_id r /\ offer_id tx = offer_id r /\
      offer_title tx = offer_title r /\ offer_icon_url tx = offer_icon_url r /\
      amount tx = amount r /\ proof_url tx = proof_url r /\
      created_at tx = created_at r /\
      notes tx = match options with
                 | Some o => match Options.notes o with
                             | Some v => v
                             | None => notes r
                             end
                 | None => notes r
                 end /\
      reviewed_by tx = match options with
                       | Some o => match Options.reviewed_by o with
                                   | Some v => v
                                   | None => reviewed_by r
                                   end
                       | None => reviewed_by r
                       end.
Proof.
  intros env s options w l1 r l2 Ht Hn Hv.
  destruct (build_patch_fields env s options w)
    as (p & w1 & Hp & _ & _ & _ & Hs & Hot & Hoi & Ham & Hno & Hrb & _).
  destruct (update_status_rewrites env s options w l1 r l2 Hp Ht Hn Hv)
    as (w' & Hrun & Htab & He & _).
  exists (written env p w1 r), w'.
  split; [exact Hrun|]. split; [exact Htab|]. split; [exact He|].
  unfold written. simpl. rewrite Hs, Hot, Hoi, Ham, Hno, Hrb. simpl.
  repeat split; try reflexivity.
  - destruct options as [o|]; [destruct (Options.notes o)|]; reflexivity.
  - destruct options as [o|]; [destruct (Options.reviewed_by o)|]; reflexivity.
Qed.

Lemma status_update_changes_one_row_witness :
  exists tx w',
    updateTransactionStatus Scenario.calm "t2" paid
      (Some {| Options.notes := Some None;
               Options.reviewed_by := Some (Some "admin2");
               Options.reviewed_at := None |})
      (Scenario.world_of [Scenario.row "t1" paid 1%N;
                          Scenario.row "t2" pending 2%N;
                          Scenario.row "t3" rejected 3%N]) = (Resolved tx, w') /\
    table w' = [Scenario.row "t1" paid 1%N; tx; Scenario.row "t3" rejected 3%N] /\
    status tx = paid /\
    notes tx = None /\
    reviewed_by tx = Some "admin2".
Proof.
  destruct (status_update_changes_one_row Scenario.calm paid
              (Some {| Options.notes := Some None;
                       Options.reviewed_by := Some (Some "admin2");
                       Options.reviewed_at := None |})
              (Scenario.world_of [Scenario.row "t1" paid 1%N;
                                  Scenario.row "t2" pending 2%N;
                                  Scenario.row "t3" rejected 3%N])
              [Scenario.row "t1" paid 1%N]
              (Scenario.row "t2" pending 2%N)
              [Scenario.row "t3" rejected 3%N])
    as (tx & w' & Hrun & Ht & _ & Hs & _ & _ & _ & _ & _ & _ & _ & _ & Hn & Hr).
  - reflexivity.
  - simpl. repeat constructor; simpl; intuition discriminate.
  - reflexivity.
  - exists tx, w'. repeat split; assumption.
Defined.

(** X7. A [reviewed_at] given in the options is written as given, whatever
    the new status: a timestamp is stored as it is, [null] clears the stored
    one, and the client clock is not read. *)
Theorem explicit_review_time_is_written :
  forall env s o v w l1 r l2,
    Options.reviewed_at o = Some v ->
    table w = l1 ++ r :: l2 ->
    NoDup (map id (table w)) ->
    write_verdict env (writes w) = Served ->
    exists tx w',
      updateTransactionStatus env (id r) s (Some o) w = (Resolved tx, w') /\
      reviewed_at tx = v /\
      ticks w' = ticks w.
Proof.
  intros env s o v w l1 r l2 Ho Ht Hn Hv.
  destruct (build_patch_fields env s (Some o) w)
    as (p & w1 & Hp & _ & _ & _ & _ & _ & _ & _ & _ & _ & Hra & Hti).
  destruct (update_status_rewrites env s (Some o) w l1 r l2 Hp Ht Hn Hv)
    as (w' & Hrun & _ & _ & Hti').
  exists (written env p w1 r), w'. split; [exact Hrun|].
  rewrite Ho in Hra. unfold written. simpl. rewrite Hra. simpl.
  split; [reflexivity|]. rewrite Hti'. apply Hti. rewrite Ho. discriminate.
Qed.

Lemma explicit_review_time_is_written_witness :
  exists tx w',
    updateTransactionStatus Scenario.calm "t1" pending
      (Some {| Options.notes := None;
               Options.reviewed_by := None;
               Options.reviewed_at := Some (Some 42%N) |})
      (Scenario.world_of [Scenario.row "t1" rejected 1%N]) = (Resolved tx, w') /\
    reviewed_at tx = Some 42%N /\
    ticks w' = 0.
Proof.
  apply (explicit_review_time_is_written Scenario.calm pending
           {| Options.notes := None;
              Options.reviewed_by := None;
              Options.reviewed_at := Some (Some 42%N) |}
           (Scenario.world_of [Scenario.row "t1" rejected 1%N])
           [] (Scenario.row "t1" rejected 1%N) []).
  - reflexivity.
  - reflexivity.
  - simpl. repeat constructor; simpl; intuition.
  - reflexivity.
Defined.

(** X8. The status update does not look at the status a row has.  Aimed at a
    paid row with a status other than paid, a served update takes it out of
    the paid rows: the number of unpaid rows of that row's (user, offer) pair
    grows by one, so a pair that had one unpaid row now has two. *)
Theorem reopening_a_paid_row_adds_an_unpaid_one :
  forall env s options w l1 r l2 u o,
    s <> paid ->
    table w = l1 ++ r :: l2 ->
    NoDup (map id (table w)) ->
    status r = paid ->
    for_pair u o r = true ->
    write_verdict env (writes w) = Served ->
    exists tx w',
      updateTransactionStatus env (id r) s options w = (Resolved tx, w') /\
      status tx = s /\
      length (filter (fun x => negb (is_paid x)) (rows_of u o (table w')))
      = S (length (filter (fun x => negb (is_paid x)) (rows_of u o (table w)))).
Proof.
  intros env s options w l1 r l2 u o Hs Ht Hn Hpaid Hpair Hv.
  destruct (build_patch_fields env s options w)
    as (p & w1 & Hp & _ & _ & _ & Hst & _).
  destruct (update_status_rewrites env s options w l1 r l2 Hp Ht Hn Hv)
    as (w' & Hrun & Htab & _).
  exists (written env p w1 r), w'. split; [exact Hrun|].
  assert (Hstatus : status (written env p w1 r) = s)
    by (unfold written; simpl; rewrite Hst; reflexivity).
  split; [exact Hstatus|].
  rewrite Htab, Ht. unfold rows_of. rewrite !filter_app. simpl.
  change (for_pair u o (written env p w1 r)) with (for_pair u o r).
  rewrite Hpair. simpl.
  assert (E1 : is_paid (written env p w1 r) = false).
  { unfold is_paid. rewrite Hstatus. destruct s; simpl; congruence. }
  assert (E2 : is_paid r = true) by (unfold is_paid; rewrite Hpaid; reflexivity).
  rewrite E1, E2. simpl. rewrite !length_app. simpl. lia.
Qed.

Lemma reopening_a_paid_row_adds_an_unpaid_one_witness :
  exists tx w',
    updateTransactionStatus Scenario.calm "t1" pending None
      (Scenario.world_of [Scenario.row "t1" paid 1%N;
                          Scenario.row "t2" pending 2%N]) = (Resolved tx, w') /\
    status tx = pending /\
    length (filter (fun x => negb (is_paid x)) (rows_of "u1" "o1" (table w'))) = 2.
Proof.
  apply (reopening_a_paid_row_adds_an_unpaid_one Scenario.calm None
           (Scenario.world_of [Scenario.row "t1" paid 1%N;
                               Scenario.row "t2" pending 2%N])
           [] (Scenario.row "t1" paid 1%N) [Scenario.row "t2" pending 2%N]
           "u1" "o1").
  - discriminate.
  - reflexivity.
  - simpl. repeat constructor; simpl; intuition discriminate.
  - reflexivity.
  - reflexivity.
  - reflexivity.
Defined.

Lemma pending_table env input w out w' :
  createPendingTransaction env input w = (out, w') ->
  table w' = table w \/ exists stored, table w' = table w ++ [stored].
Proof.
  unfold createPendingTransaction, then_ at 1, await, insert_returning.
  destruct (write_verdict env (writes w)) as [| |e].
  - destruct (taken (gen_random_uuid env (writes w)) (table w)); simpl.
    + intros H. injection H as <- <-. left. reflexivity.
    + publish_as w2 Hw2. intros H. injection H as <- <-.
      right. eexists. rewrite Hw2. reflexivity.
  - destruct (taken (gen_random_uuid env (writes w)) (table w)); simpl.
    + intros H. injection H as <- <-. left. reflexivity.
    + unfold then_ at 1, new_Date. unfold then_ at 1.
      publish_as w2 Hw2. intros H. injection H as <- <-.
      right. eexists. rewrite Hw2. reflexivity.
  - simpl. intros H. injection H as <- <-. left. reflexivity.
Qed.

(** Whatever the gateway answers, the table after a call is the table
    before, the table before with the rows of one id rewritten by the reuse
    patch, or the table before with one row appended. *)
Lemma reuse_table env input w out w' :
  createOrReuseActiveTransaction env input w = (out, w') ->
  table w' = table w \/
  (exists existing,
      table w' = update_rows env (reuse_patch input existing)
                   [eq_id (id existing)] (count_read w)) \/
  (exists stored, table w' = table w ++ [stored]).
Proof.
  unfold createOrReuseActiveTransaction, then_ at 1, await, select_desc.
  destruct (match read_verdict env (reads w) with
            | Served => rows (firstn 1 (order_desc
                               (filter (matches (find_filters input)) (table w))))
            | Suppressed => rows []
            | Refused e => failure e
            end) as [d [e|]] eqn:Hresp; simpl.
  - intros H. injection H as <- <-. left. reflexivity.
  - destruct (first d) as [existing|].
    + unfold then_ at 1, await, update_returning.
      destruct (write_verdict env (writes (count_read w))) as [| |e]; simpl.
      * destruct (affected env (reuse_patch input existing)
                    [eq_id (id existing)] (count_read w)) as [|row l]; simpl;
          publish_as w2 Hw2; intros H; injection H as <- <-;
          right; left; exists existing; rewrite Hw2; reflexivity.
      * publish_as w2 Hw2. intros H. injection H as <- <-.
        right. left. exists existing. rewrite Hw2. reflexivity.
      * intros H. injection H as <- <-. left. reflexivity.
    + intros H. apply pending_table in H. simpl in H.
      destruct H as [H|H]; [left|right; right]; exact H.
Qed.

Lemma update_rows_length env p fs w :
  length (update_rows env p fs w) = length (table w).
Proof. unfold update_rows. apply length_map. Qed.

Lemma update_rows_keeps env p i w :
  patch_notes p = None ->
  Forall2 (fun r r' =>
             (id r <> i -> r' = r) /\
             id r' = id r /\ user_id r' = user_id r /\
             offer_id r' = offer_id r /\ proof_url r' = proof_url r /\
             notes r' = notes r /\ created_at r' = created_at r)
          (table w) (update_rows env p [eq_id i] w).
Proof.
  intros Hnotes. unfold update_rows.
  induction (table w) as [|r t IH]; cbn [map]; constructor; [|exact IH].
  rewrite eq_id_matches.
  destruct (String.eqb (id r) i) eqn:E.
  - apply String.eqb_eq in E. unfold written. simpl. rewrite Hnotes. simpl.
    repeat split; try reflexivity. intros H. contradiction.
  - repeat split; reflexivity.
Qed.

(** X9. A call of [createOrReuseActiveTransaction] never removes or reorders
    a row, whatever the gateway answers.  The table grows by at most one row;
    every row that was there stays in its place with its id, user, offer,
    proof, notes and creation time; and there is one id such that every row
    not carrying it is left exactly as it was. *)
Theorem reuse_never_removes_a_row :
  forall env input w,
    let w' := snd (createOrReuseActiveTransaction env input w) in
    length (table w') <= S (length (table w)) /\
    exists i,
      Forall2 (fun r r' =>
                 (id r <> i -> r' = r) /\
                 id r' = id r /\ user_id r' = user_id r /\
                 offer_id r' = offer_id r /\ proof_url r' = proof_url r /\
                 notes r' = notes r /\ created_at r' = created_at r)
              (table w) (firstn (length (table w)) (table w')).
Proof.
  intros env input w w'.
  destruct (createOrReuseActiveTransaction env input w) as [out w2] eqn:Hrun.
  subst w'. simpl.
  assert (Hsame : forall t : list Transaction,
    Forall2 (fun r r' =>
               (id r <> "" -> r' = r) /\
               id r' = id r /\ user_id r' = user_id r /\
               offer_id r' = offer_id r /\ proof_url r' = proof_url r /\
               notes r' = notes r /\ created_at r' = created_at r) t t).
  { induction t as [|r t IH]; constructor; [|exact IH]. repeat split; reflexivity. }
  destruct (reuse_table env input w Hrun) as [Ht|[(existing & Ht)|(stored & Ht)]].
  - rewrite Ht. split; [lia|]. exists "". rewrite firstn_all. apply Hsame.
  - rewrite Ht. rewrite update_rows_length. split; [simpl; lia|].
    exists (id existing).
    rewrite <- (update_rows_length env (reuse_patch input existing)
                  [eq_id (id existing)] (count_read w)) at 1.
    rewrite firstn_all.
    apply (update_rows_keeps env (reuse_patch input existing) (id existing)
             (count_read w)).
    reflexivity.
  - rewrite Ht. rewrite length_app. split; [simpl; lia|]. exists "".
    rewrite firstn_app, firstn_all, Nat.sub_diag. simpl. rewrite app_nil_r.
    apply Hsame.
Qed.

(* ===================================================================== *)
(** ** Further facts: the read-model subscriptions *)
(* ===================================================================== *)

Section SubscriptionRuns.
Variables Row Item : Type.
Variable fromRow : Row -> Item.
Variable feed : Feed.

Lemma drop_nth_length {A} (k : nat) (l : list A) (x : A) :
  nth_error l k = Some x -> S (length (drop_nth k l)) = length l.
Proof.
  revert k. induction l as [|y l IH]; intros [|k] H; simpl in *; try discriminate.
  - reflexivity.
  - f_equal. apply IH. exact H.
Qed.

Lemma deliver_live (a : Answer Row) (s : Instance Item) :
  cancelled s = false ->
  deliver fromRow a s
  = {| cancelled := false; channel := channel s; in_flight := in_flight s;
       received := received s ++ [items fromRow a]; warned := warned s |}.
Proof. intros H. unfold deliver. rewrite H. reflexivity. Qed.

Lemma warn_frame (a : Answer Row) (s : Instance Item) :
  cancelled (warn feed a s) = cancelled s /\
  channel (warn feed a s) = channel s /\
  in_flight (warn feed a s) = in_flight s /\
  received (warn feed a s) = received s.
Proof. unfold warn. destruct (answer_error a); auto. Qed.

Lemma step_live (e : Event Row) (s : Instance Item) :
  e <> Unsubscribe Row ->
  cancelled s = false -> channel s <> None ->
  cancelled (step fromRow feed e s) = false /\
  channel (step fromRow feed e s) <> None /\
  length (received (step fromRow feed e s)) + length (in_flight (step fromRow feed e s))
  = length (received s) + length (in_flight s)
    + match e with Change _ => 1 | _ => 0 end.
Proof.
  intros He Hc Hch. destruct e as [|k a|]; [| |contradiction]; simpl.
  - destruct (channel s) eqn:E; [|contradiction]. simpl.
    rewrite length_app. simpl. repeat split; [exact Hc|discriminate|lia].
  - destruct (nth_error (in_flight s) k) as [q|] eqn:E.
    + pose proof (drop_nth_length k (in_flight s) E) as Hl.
      destruct q; simpl.
      * rewrite deliver_live by exact Hc.
        match goal with |- context [warn feed a ?x] =>
          destruct (warn_frame a x) as (-> & -> & -> & ->) end.
        simpl. rewrite length_app. simpl. repeat split; [exact Hch|lia].
      * rewrite deliver_live by exact Hc. simpl. rewrite length_app. simpl.
        repeat split; [exact Hch|lia].
    + repeat split; [exact Hc|exact Hch|lia].
Qed.

Lemma run_live (events : list (Event Row)) : forall s : Instance Item,
  Forall (fun e => e <> Unsubscribe Row) events ->
  cancelled s = false -> channel s <> None ->
  cancelled (run fromRow feed events s) = false /\
  length (received (run fromRow feed events s))
  + length (in_flight (run fromRow feed events s))
  = length (received s) + length (in_flight s)
    + length (filter (fun e => match e with Change _ => true | _ => false end) events).
Proof.
  induction events as [|e events IH]; intros s Hall Hc Hch.
  - simpl. split; [exact Hc|lia].
  - inversion Hall as [|? ? He Hrest]; subst.
    destruct (@step_live e s He Hc Hch) as (Hc' & Hch' & Hlen).
    change (run fromRow feed (e :: events) s)
      with (run fromRow feed events (step fromRow feed e s)).
    destruct (IH (step fromRow feed e s) Hrest Hc' Hch') as [Hc'' Hlen''].
    split; [exact Hc''|]. rewrite Hlen'', Hlen.
    destruct e; simpl; lia.
Qed.

Lemma drop_nth_filter {A} (f : A -> bool) (k : nat) (l : list A) (x : A) :
  nth_error l k = Some x ->
  length (filter f (drop_nth k l)) + (if f x then 1 else 0) = length (filter f l).
Proof.
  revert k. induction l as [|y l IH]; intros [|k] H; simpl in *; try discriminate.
  - injection H as ->. destruct (f x); simpl; lia.
  - specialize (IH k H). destruct (f y); simpl; lia.
Qed.

Lemma step_warns_once (e : Event Row) (s : Instance Item) :
  length (filter (fun q => match q with InitialLoad => true | Reload => false end)
                 (in_flight (step fromRow feed e s)))
  + length (warned (step fromRow feed e s))
  <= length (filter (fun q => match q with InitialLoad => true | Reload => false end)
                    (in_flight s))
     + length (warned s).
Proof.
  destruct e as [|k a|]; simpl.
  - destruct (channel s); simpl; [|lia].
    rewrite filter_app, length_app. simpl. lia.
  - destruct (nth_error (in_flight s) k) as [q|] eqn:E; [|lia].
    pose proof (drop_nth_filter
                  (fun q => match q with InitialLoad => true | Reload => false end)
                  k (in_flight s) E) as Hl.
    destruct q; simpl.
    + unfold warn, deliver. simpl.
      destruct (answer_error a), (negb (cancelled s)); simpl;
        rewrite ?length_app; simpl; lia.
    + unfold deliver. simpl. destruct (negb (cancelled s)); simpl; lia.
  - lia.
Qed.

Lemma run_warns_once (events : list (Event Row)) : forall s : Instance Item,
  length (filter (fun q => match q with InitialLoad => true | Reload => false end)
                 (in_flight (run fromRow feed events s)))
  + length (warned (run fromRow feed events s))
  <= length (filter (fun q => match q with InitialLoad => true | Reload => false end)
                    (in_flight s))
     + length (warned s).
Proof.
  induction events as [|e events IH]; intros s; [simpl; lia|].
  change (run fromRow feed (e :: events) s)
    with (run fromRow feed events (step fromRow feed e s)).
  specialize (IH (step fromRow feed e s)).
  pose proof (step_warns_once e s). lia.
Qed.

(** X10. While a subscription has not been closed, every query it issued is
    either still waiting or has been delivered to the callback exactly once,
    a failed query included (it is delivered as the empty list): the calls
    of the callback and the waiting queries together number one, for the
    initial load, plus one for each change notification. *)
Theorem live_subscription_delivers_every_answer :
  forall events : list (Event Row),
    Forall (fun e => e <> Unsubscribe Row) events ->
    let s := run fromRow feed events (subscribe Item feed) in
    cancelled s = false /\
    length (received s) + length (in_flight s)
    = 1 + length (filter (fun e => match e with Change _ => true | _ => false end)
                         events).
Proof.
  intros events Hall s. subst s.
  destruct (@run_live events (subscribe Item feed) Hall) as [Hc Hlen];
    [reflexivity|discriminate|].
  split; [exact Hc|]. rewrite Hlen. simpl. lia.
Qed.

(** X11. A subscription logs at most one warning in its whole life, whatever
    happens to it: only the initial load warns, a reload that fails is
    silent.  The warning of a failed initial load is logged even when the
    subscription has been closed in the meantime. *)
Theorem only_the_initial_load_warns :
  (forall events : list (Event Row),
      length (warned (run fromRow feed events (subscribe Item feed))) <= 1) /\
  (forall (s : Instance Item) k a,
      nth_error (in_flight s) k = Some Reload ->
      warned (step fromRow feed (Answered k a) s) = warned s) /\
  (forall (s : Instance Item) k a e,
      nth_error (in_flight s) k = Some InitialLoad ->
      answer_error a = Some e ->
      warned (step fromRow feed (Answered k a) s)
      = warned s ++ [String.append (feed_warning feed)
                       (String.append " " (message e))]).
Proof.
  split; [|split].
  - intros events.
    pose proof (run_warns_once events (subscribe Item feed)) as H.
    simpl in H. lia.
  - intros s k a H. simpl. rewrite H. simpl.
    unfold deliver. simpl. destruct (negb (cancelled s)); reflexivity.
  - intros s k a e H He. simpl. rewrite H. simpl.
    unfold warn, deliver. simpl. rewrite He.
    destruct (negb (cancelled s)); reflexivity.
Qed.

End SubscriptionRuns.

Lemma live_subscription_delivers_every_answer_witness :
  let failed := {| answer_data := @None (list SlideRow);
                   answer_error := Some {| message := "offline" |} |} in
  let s := run fromSlideRow slides_feed
               [Change SlideRow; Answered 1 failed; Change SlideRow]
               subscribeSlides in
  cancelled s = false /\
  length (received s) + length (in_flight s) = 3 /\
  received s = [[]].
Proof.
  intros failed s.
  destruct (@live_subscription_delivers_every_answer SlideRow Slide fromSlideRow
              slides_feed [Change SlideRow; Answered 1 failed; Change SlideRow])
    as [Hc Hlen].
  - repeat constructor; discriminate.
  - split; [exact Hc|]. split; [exact Hlen|reflexivity].
Defined.

Lemma only_the_initial_load_warns_witness :
  let failed := {| answer_data := @None (list SlideRow);
                   answer_error := Some {| message := "offline" |} |} in
  let closed := step fromSlideRow slides_feed (Unsubscribe SlideRow)
                     (step fromSlideRow slides_feed (Change SlideRow) subscribeSlides) in
  warned (step fromSlideRow slides_feed (Answered 1 failed) closed) = [] /\
  warned (step fromSlideRow slides_feed (Answered 0 failed) closed)
  = ["[slides] load error offline"].
Proof.
  intros failed closed.
  destruct (only_the_initial_load_warns fromSlideRow slides_feed)
    as (_ & Hreload & Hinitial).
  split.
  - apply (Hreload closed 1 failed). reflexivity.
  - apply (Hinitial closed 0 failed {| message := "offline" |}); reflexivity.
Defined.

(* ===================================================================== *)
(** ** Further facts: following a single offer *)
(* ===================================================================== *)

Lemma offer_step_after_close (e : Event OfferRow) (s : OfferById.Instance) :
  OfferById.cancelled s = true ->
  OfferById.cancelled (OfferById.step e s) = true /\
  OfferById.received (OfferById.step e s) = OfferById.received s.
Proof.
  intros H. destruct e as [|k a|]; simpl.
  - destruct (OfferById.channel s); simpl; auto.
  - destruct (nth_error (OfferById.in_flight s) k); [|auto].
    unfold OfferById.resume, OfferById.deliver. simpl. rewrite H.
    destruct (OfferById.fetchOfferById a); simpl; auto.
  - auto.
Qed.

Lemma offer_run_after_close (events : list (Event OfferRow)) :
  forall s, OfferById.cancelled s = true ->
            OfferById.received (OfferById.run events s) = OfferById.received s.
Proof.
  induction events as [|e events IH]; intros s H; [reflexivity|].
  destruct (offer_step_after_close e s H) as [Hc Hr].
  change (OfferById.run (e :: events) s)
    with (OfferById.run events (OfferById.step e s)).
  rewrite IH by exact Hc. exact Hr.
Qed.

(** X12. [subscribeOfferById] keeps the promise of the list subscriptions:
    in every run, the calls of the callback made up to the call of the
    unsubscribe function are all the calls there will ever be. *)
Theorem offer_by_id_is_silent_once_closed :
  forall (id : string) (before after : list (Event OfferRow)),
    OfferById.received
      (OfferById.run (before ++ Unsubscribe OfferRow :: after)
                     (OfferById.subscribeOfferById id))
    = OfferById.received (OfferById.run before (OfferById.subscribeOfferById id)).
Proof.
  intros id before after. unfold OfferById.run. rewrite fold_left_app. simpl.
  set (s1 := fold_left (fun s e => OfferById.step e s) before
                       (OfferById.subscribeOfferById id)).
  apply (offer_run_after_close after
           {| OfferById.cancelled := true; OfferById.channel := None;
              OfferById.in_flight := OfferById.in_flight s1;
              OfferById.received := OfferById.received s1 |}).
  reflexivity.
Qed.

Lemma offer_run_sources (all : list (Event OfferRow)) (events : list (Event OfferRow)) :
  forall s,
    (forall e, In e events -> In e all) ->
    Forall (fun d => d = None \/
                     exists k a row rest,
                       In (Answered k a) all /\
                       answer_error a = None /\
                       answer_data a = Some (row :: rest) /\
                       d = Some (fromOfferRow row))
           (OfferById.received s) ->
    Forall (fun d => d = None \/
                     exists k a row rest,
                       In (Answered k a) all /\
                       answer_error a = None /\
                       answer_data a = Some (row :: rest) /\
                       d = Some (fromOfferRow row))
           (OfferById.received (OfferById.run events s)).
Proof.
  induction events as [|e events IH]; intros s Hsub Hs; [exact Hs|].
  change (OfferById.run (e :: events) s)
    with (OfferById.run events (OfferById.step e s)).
  apply IH; [intros e' He'; apply Hsub; right; exact He'|].
  assert (He : In e all) by (apply Hsub; left; reflexivity).
  destruct e as [|k a|]; simpl.
  - destruct (OfferById.channel s); exact Hs.
  - destruct (nth_error (OfferById.in_flight s) k); [|exact Hs].
    unfold OfferById.resume, OfferById.deliver, OfferById.fetchOfferById. simpl.
    destruct (answer_error a) as [err|] eqn:Eerr.
    + destruct (negb (OfferById.cancelled s)); simpl; [|exact Hs].
      apply Forall_app. split; [exact Hs|]. constructor; [left; reflexivity|constructor].
    + destruct (answer_data a) as [[|row rest]|] eqn:Edata;
        destruct (negb (OfferById.cancelled s)); simpl; try exact Hs;
          apply Forall_app; (split; [exact Hs|]);
            (constructor; [|constructor]); try (left; reflexivity).
      right. exists k, a, row, rest. auto.
  - exact Hs.
Qed.

(** X13. Whatever [subscribeOfferById] hands to the callback is [null] or the
    mapping of the first row of an answer that carried no error: a fetch
    that fails is delivered as [null], and rows that come with an error are
    never shown. *)
Theorem offer_by_id_delivers_rows_or_null :
  forall (id : string) (events : list (Event OfferRow)),
    Forall (fun d => d = None \/
                     exists k a row rest,
                       In (Answered k a) events /\
                       answer_error a = None /\
                       answer_data a = Some (row :: rest) /\
                       d = Some (fromOfferRow row))
           (OfferById.received
              (OfferById.run events (OfferById.subscribeOfferById id))).
Proof.
  intros id events. apply offer_run_sources; [auto|constructor].
Qed.

(* ===================================================================== *)
(** ** Further facts: writing slides and offers *)
(* ===================================================================== *)

Lemma request_carried_out env label change s sl ofs :
  refused (Content.write_verdict env (Content.writes s)) = false ->
  change s = inl (sl, ofs) ->
  Content.request env label change s
  = {| Content.slides := sl; Content.offers := ofs;
       Content.console := Content.console s;
       Content.generated := Content.generated s;
       Content.ticks := Content.ticks s;
       Content.writes := S (Content.writes s) |}.
Proof.
  intros Hv Hc. unfold Content.request. rewrite Hc.
  destruct (Content.write_verdict env (Content.writes s)); [reflexivity|reflexivity|discriminate].
Qed.

Lemma request_refused env label change s e :
  Content.write_verdict env (Content.writes s) = Refused e ->
  Content.request env label change s
  = Content.log label e
      {| Content.slides := Content.slides s; Content.offers := Content.offers s;
         Content.console := Content.console s;
         Content.generated := Content.generated s;
         Content.ticks := Content.ticks s;
         Content.writes := S (Content.writes s) |}.
Proof. intros Hv. unfold Content.request. rewrite Hv. reflexivity. Qed.

(** X14. What [updateSlide] does to the link of the slides with the given id,
    when the gateway carries the write out: a patch without the [link] key
    leaves the stored link alone, a patch whose [link] key is present but
    undefined clears it, a patch with a link stores it.  The image changes
    only when the patch gives one; the id and the creation time never do;
    slides with another id and all offers are untouched. *)
Theorem update_slide_link_semantics :
  forall env id patch s,
    refused (Content.write_verdict env (Content.writes s)) = false ->
    let s' := Content.updateSlide env id patch s in
    Content.offers s' = Content.offers s /\
    Content.console s' = Content.console s /\
    Forall2 (fun r r' =>
               slide_row_id r' = slide_row_id r /\
               slide_row_created_at r' = slide_row_created_at r /\
               (slide_row_id r <> id -> r' = r) /\
               (slide_row_id r = id ->
                slide_row_image r'
                = match Content.SlidePatch.image patch with
                  | Some v => v
                  | None => slide_row_image r
                  end /\
                slide_row_link r'
                = match Content.SlidePatch.link patch with
                  | None => slide_row_link r
                  | Some None => None
                  | Some (Some v) => Some v
                  end))
            (Content.slides s) (Content.slides s').
Proof.
  intros env id patch s Hv s'. subst s'. unfold Content.updateSlide.
  rewrite (request_carried_out env _ _ s Hv eq_refl). simpl.
  split; [reflexivity|]. split; [reflexivity|].
  induction (Content.slides s) as [|r t IH]; cbn [map]; constructor; [|exact IH].
  destruct (String.eqb (slide_row_id r) id) eqn:E.
  - apply String.eqb_eq in E. simpl.
    repeat split; try reflexivity.
    + intros Hne. contradiction.
    + unfold Content.slide_update.
      destruct (Content.SlidePatch.link patch) as [[v|]|];
        destruct (Content.SlidePatch.image patch); reflexivity.
    + unfold Content.slide_update.
      destruct (Content.SlidePatch.link patch) as [[v|]|]; reflexivity.
  - apply String.eqb_neq in E. repeat split; try reflexivity; contradiction.
Qed.

Lemma update_slide_link_semantics_witness :
  let env := {| Content.trim := fun s => s;
                Content.crypto := fun _ => Content.no_crypto;
                Content.Date_now := fun _ => 7%N;
                Content.db_now := fun _ => 9%N;
                Content.write_verdict := fun _ => Served |} in
  let s := {| Content.slides := [ {| slide_row_id := "s1";
                                     slide_row_image := "a.png";
                                     slide_row_link := Some "https://x";
                                     slide_row_created_at := 1%N |} ];
              Content.offers := []; Content.console := [];
              Content.generated := 0; Content.ticks := 0; Content.writes := 0 |} in
  let patch := {| Content.SlidePatch.image := Some "b.png";
                  Content.SlidePatch.link := Some None |} in
  let s' := Content.updateSlide env "s1" patch s in
  Content.offers s' = [] /\
  Content.console s' = [] /\
  Forall2 (fun r r' =>
             slide_row_id r' = slide_row_id r /\
             slide_row_created_at r' = slide_row_created_at r /\
             (slide_row_id r <> "s1" -> r' = r) /\
             (slide_row_id r = "s1" ->
              slide_row_image r' = "b.png" /\ slide_row_link r' = None))
          (Content.slides s) (Content.slides s').
Proof.
  intros env s patch s'.
  exact (update_slide_link_semantics env "s1" patch s eq_refl).
Defined.

(** X15. [updateOffer] cannot clear a column.  Whatever the patch and
    whatever the gateway answers, every offer keeps its id and creation
    time, and each of its nullable columns (icon, label, description, steps,
    store link, visibility, proof flag) that held a value still holds one
    afterwards; no offer is added or removed. *)
Theorem update_offer_never_clears :
  forall env id patch s,
    Forall2 (fun r r' =>
               offer_row_id r' = offer_row_id r /\
               offer_row_created_at r' = offer_row_created_at r /\
               (offer_row_icon r <> None -> offer_row_icon r' <> None) /\
               (offer_row_label r <> None -> offer_row_label r' <> None) /\
               (offer_row_description r <> None -> offer_row_description r' <> None) /\
               (offer_row_steps r <> None -> offer_row_steps r' <> None) /\
               (store_url r <> None -> store_url r' <> None) /\
               (offer_row_active r <> None -> offer_row_active r' <> None) /\
               (requires_proof r <> None -> requires_proof r' <> None))
            (Content.offers s)
            (Content.offers (Content.updateOffer env id patch s)).
Proof.
  intros env id patch s.
  assert (Hsame : forall t : list OfferRow,
    Forall2 (fun r r' =>
               offer_row_id r' = offer_row_id r /\
               offer_row_created_at r' = offer_row_created_at r /\
               (offer_row_icon r <> None -> offer_row_icon r' <> None) /\
               (offer_row_label r <> None -> offer_row_label r' <> None) /\
               (offer_row_description r <> None -> offer_row_description r' <> None) /\
               (offer_row_steps r <> None -> offer_row_steps r' <> None) /\
               (store_url r <> None -> store_url r' <> None) /\
               (offer_row_active r <> None -> offer_row_active r' <> None) /\
               (requires_proof r <> None -> requires_proof r' <> None)) t t).
  { induction t as [|r t IH]; constructor; [|exact IH]. repeat split; auto. }
  assert (Hn : forall A (u old : option A), old <> None -> nullish u old <> None).
  { intros A [u|] old H; simpl; [discriminate|exact H]. }
  unfold Content.updateOffer, Content.request.
  destruct (Content.write_verdict env (Content.writes s)); simpl; try apply Hsame.
  - induction (Content.offers s) as [|r t IH]; cbn [map]; constructor; [|exact IH].
    destruct (String.eqb (offer_row_id r) id); [|repeat split; auto].
    simpl. repeat split; try reflexivity; apply Hn.
  - induction (Content.offers s) as [|r t IH]; cbn [map]; constructor; [|exact IH].
    destruct (String.eqb (offer_row_id r) id); [|repeat split; auto].
    simpl. repeat split; try reflexivity; apply Hn.
Qed.

Lemma not_listed id paidIds (t : list OfferRow) f :
  (forall r, String.eqb (offer_row_id r) id = true ->
             Home.not_hidden (fromOfferRow (f r)) = false) ->
  (forall r, offer_item_id (fromOfferRow (f r)) = offer_row_id r) ->
  forall o,
    In o (Home.visibleOffers
            (map fromOfferRow
                 (map (fun r => if String.eqb (offer_row_id r) id then f r else r) t))
            paidIds) ->
    offer_item_id o <> id.
Proof.
  intros Hhide Hid o Hin.
  assert (Hact : In o (filter Home.not_hidden
            (map fromOfferRow
               (map (fun r => if String.eqb (offer_row_id r) id then f r else r) t)))).
  { unfold Home.visibleOffers in Hin. destruct paidIds; [exact Hin|].
    apply filter_In in Hin. destruct Hin as [Hin _]. exact Hin. }
  apply filter_In in Hact. destruct Hact as [Hmem Hvis].
  apply in_map_iff in Hmem. destruct Hmem as (r' & <- & Hr').
  apply in_map_iff in Hr'. destruct Hr' as (r & <- & Hr).
  destruct (String.eqb (offer_row_id r) id) eqn:E.
  - rewrite (Hhide r E) in Hvis. discriminate.
  - apply String.eqb_neq in E. exact E.
Qed.

(** X16. [setOfferVisibility], when the gateway carries the write out,
    changes the visibility of the offers with the given id and nothing else:
    no other column, no other offer, no slide.  After hiding an offer, the
    home screen built from the table lists no offer with that id, whatever
    the user has been paid for. *)
Theorem hidden_offer_leaves_the_home_screen :
  forall env id active s,
    refused (Content.write_verdict env (Content.writes s)) = false ->
    let s' := Content.setOfferVisibility env id active s in
    Content.slides s' = Content.slides s /\
    Content.offers s'
    = map (fun r => if String.eqb (offer_row_id r) id
                    then {| offer_row_id := offer_row_id r;
                            offer_row_title := offer_row_title r;
                            offer_row_amount := offer_row_amount r;
                            offer_row_icon := offer_row_icon r;
                            offer_row_label := offer_row_label r;
                            offer_row_description := offer_row_description r;
                            offer_row_steps := offer_row_steps r;
                            store_url := store_url r;
                            offer_row_active := Some active;
                            requires_proof := requires_proof r;
                            offer_row_created_at := offer_row_created_at r |}
                    else r) (Content.offers s) /\
    (active = false ->
     forall paidIds o,
       In o (Home.visibleOffers (map fromOfferRow (Content.offers s')) paidIds) ->
       offer_item_id o <> id).
Proof.
  intros env id active s Hv s'. subst s'.
  unfold Content.setOfferVisibility, Content.updateOffer.
  rewrite (request_carried_out env _ _ s Hv eq_refl). simpl.
  split; [reflexivity|].
  assert (Hmap :
    map (fun r => if String.eqb (offer_row_id r) id
                  then Content.write_offer
                         (Content.toOfferPatch
                            {| Content.OfferPatch.id := None;
                               Content.OfferPatch.title := None;
                               Content.OfferPatch.amount := None;
                               Content.OfferPatch.icon := None;
                               Content.OfferPatch.label := None;
                               Content.OfferPatch.description := None;
                               Content.OfferPatch.steps := None;
                               Content.OfferPatch.storeUrl := None;
                               Content.OfferPatch.active := Some active;
                               Content.OfferPatch.requiresProof := None |}) r
                  else r) (Content.offers s)
    = map (fun r => if String.eqb (offer_row_id r) id
                    then {| offer_row_id := offer_row_id r;
                            offer_row_title := offer_row_title r;
                            offer_row_amount := offer_row_amount r;
                            offer_row_icon := offer_row_icon r;
                            offer_row_label := offer_row_label r;
                            offer_row_description := offer_row_description r;
                            offer_row_steps := offer_row_steps r;
                            store_url := store_url r;
                            offer_row_active := Some active;
                            requires_proof := requires_proof r;
                            offer_row_created_at := offer_row_created_at r |}
                    else r) (Content.offers s)).
  { apply map_ext. intros r. reflexivity. }
  rewrite Hmap. split; [reflexivity|].
  intros -> paidIds o Hin.
  refine (@not_listed id paidIds (Content.offers s) _ _ _ o Hin);
    intros; reflexivity.
Qed.

Lemma hidden_offer_leaves_the_home_screen_witness :
  let env := {| Content.trim := fun s => s;
                Content.crypto := fun _ => Content.no_crypto;
                Content.Date_now := fun _ => 7%N;
                Content.db_now := fun _ => 9%N;
                Content.write_verdict := fun _ => Served |} in
  let row := {| offer_row_id := "o1"; offer_row_title := "Ludo";
                offer_row_amount := 5%Z; offer_row_icon := None;
                offer_row_label := None; offer_row_description := None;
                offer_row_steps := None; store_url := None;
                offer_row_active := None; requires_proof := None;
                offer_row_created_at := 1%N |} in
  let s := {| Content.slides := []; Content.offers := [row];
              Content.console := [];
              Content.generated := 0; Content.ticks := 0; Content.writes := 0 |} in
  length (Home.visibleOffers (map fromOfferRow (Content.offers s)) []) = 1 /\
  forall paidIds o,
    In o (Home.visibleOffers
            (map fromOfferRow
               (Content.offers (Content.setOfferVisibility env "o1" false s)))
            paidIds) ->
    offer_item_id o <> "o1".
Proof.
  intros env row s. split; [reflexivity|].
  destruct (hidden_offer_leaves_the_home_screen env "o1" false s eq_refl)
    as (_ & _ & H).
  exact (H eq_refl).
Defined.

Lemma choose_id_tables env given prefix s :
  Content.slides (snd (Content.choose_id env given prefix s)) = Content.slides s /\
  Content.offers (snd (Content.choose_id env given prefix s)) = Content.offers s /\
  Content.console (snd (Content.choose_id env given prefix s)) = Content.console s /\
  Content.writes (snd (Content.choose_id env given prefix s)) = Content.writes s.
Proof.
  unfold Content.choose_id, Content.generate.
  destruct given as [i|]; [destruct (Content.truthy (Content.trim env i))|];
    simpl; auto.
Qed.

(** X17. [addOffer] answers at once with a local offer.  When the gateway
    carries the insert out and no offer has the chosen id, the table gains
    exactly one row, and reading that row back through [fromOfferRow] gives
    the very offer that was returned: the id trimmed or generated, visibility
    true and proof flag false unless given, an empty label dropped.  Nothing
    is logged. *)
Theorem add_offer_round_trip :
  forall env input s,
    let id := fst (Content.choose_id env (Content.OfferInput.id input) "offer" s) in
    refused (Content.write_verdict env (Content.writes s)) = false ->
    Content.offer_taken id (Content.offers s) = false ->
    let item := fst (Content.addOffer env input s) in
    let s' := snd (Content.addOffer env input s) in
    exists row,
      Content.offers s' = Content.offers s ++ [row] /\
      fromOfferRow row = item /\
      Content.slides s' = Content.slides s /\
      Content.console s' = Content.console s /\
      offer_item_id item = id /\
      active item = Some (match Content.OfferInput.active input with
                          | Some a => a
                          | None => true
                          end) /\
      requiresProof item = Some (match Content.OfferInput.requiresProof input with
                                 | Some a => a
                                 | None => false
                                 end) /\
      label item = match Content.OfferInput.label input with
                   | Some "" => None
                   | l => l
                   end.
Proof.
  intros env input s id Hv Hk item s'. subst id item s'.
  unfold Content.addOffer.
  destruct (choose_id_tables env (Content.OfferInput.id input) "offer" s)
    as (Hsl & Hof & Hco & Hwr).
  destruct (Content.choose_id env (Content.OfferInput.id input) "offer" s)
    as [id s1] eqn:Hid.
  simpl in *.
  assert (Hn : forall A (a : option A), nullish a None = a) by (intros A [a|]; reflexivity).
  erewrite request_carried_out;
    [| rewrite Hwr; exact Hv | cbv beta; rewrite Hof, Hk; reflexivity].
  simpl. eexists. split; [reflexivity|].
  unfold or_undefined, Content.toOfferInsert. simpl. rewrite !Hn.
  split; [reflexivity|]. rewrite Hsl, Hco.
  unfold Content.or_default, Content.label_or_null, Content.truthy.
  repeat split; try reflexivity;
    try (destruct (Content.OfferInput.active input); reflexivity);
    try (destruct (Content.OfferInput.requiresProof input); reflexivity);
    try (destruct (Content.OfferInput.label input) as [[|c l]|]; reflexivity).
Qed.

Lemma add_offer_round_trip_witness :
  let env := {| Content.trim := fun s => s;
                Content.crypto := fun _ => Content.random_values
                                             [Byte.x00; Byte.xab];
                Content.Date_now := fun _ => 7%N;
                Content.db_now := fun _ => 9%N;
                Content.write_verdict := fun _ => Served |} in
  let input := {| Content.OfferInput.id := Some "";
                  Content.OfferInput.title := "Ludo";
                  Content.OfferInput.amount := 5%Z;
                  Content.OfferInput.icon := None;
                  Content.OfferInput.label := Some "";
                  Content.OfferInput.description := None;
                  Content.OfferInput.steps := None;
                  Content.OfferInput.storeUrl := None;
                  Content.OfferInput.active := None;
                  Content.OfferInput.requiresProof := None |} in
  let s := {| Content.slides := []; Content.offers := [];
              Content.console := [];
              Content.generated := 0; Content.ticks := 0; Content.writes := 0 |} in
  exists row,
    Content.offers (snd (Content.addOffer env input s)) = [row] /\
    fromOfferRow row = fst (Content.addOffer env input s) /\
    Content.slides (snd (Content.addOffer env input s)) = [] /\
    Content.console (snd (Content.addOffer env input s)) = [] /\
    offer_item_id (fst (Content.addOffer env input s)) = "offer-00ab" /\
    active (fst (Content.addOffer env input s)) = Some true /\
    requiresProof (fst (Content.addOffer env input s)) = Some false /\
    label (fst (Content.addOffer env input s)) = None.
Proof.
  intros env input s.
  exact (add_offer_round_trip env input s eq_refl eq_refl).
Defined.

(** X18. [addOffer] and [addSlide] do not wait for the gateway.  When the
    insert is refused, or the chosen id is already in the table, both tables
    stay as they were and exactly one warning is logged, yet the caller has
    been handed a local offer or slide under that id all the same. *)
Theorem failed_add_still_returns_an_item :
  forall env,
    (forall input s,
        let id := fst (Content.choose_id env (Content.OfferInput.id input) "offer" s) in
        refused (Content.write_verdict env (Content.writes s)) = true \/
        Content.offer_taken id (Content.offers s) = true ->
        let s' := snd (Content.addOffer env input s) in
        Content.offers s' = Content.offers s /\
        Content.slides s' = Content.slides s /\
        length (Content.console s') = S (length (Content.console s)) /\
        offer_item_id (fst (Content.addOffer env input s)) = id) /\
    (forall input s,
        let id := fst (Content.choose_id env (Content.SlideInput.id input) "slide" s) in
        refused (Content.write_verdict env (Content.writes s)) = true \/
        Content.slide_taken id (Content.slides s) = true ->
        let s' := snd (Content.addSlide env input s) in
        Content.offers s' = Content.offers s /\
        Content.slides s' = Content.slides s /\
        length (Content.console s') = S (length (Content.console s)) /\
        slide_id (fst (Content.addSlide env input s)) = id).
Proof.
  intros env. split.
  - intros input s id H s'. subst id s'. unfold Content.addOffer.
    destruct (choose_id_tables env (Content.OfferInput.id input) "offer" s)
      as (Hsl & Hof & Hco & Hwr).
    destruct (Content.choose_id env (Content.OfferInput.id input) "offer" s)
      as [id s1] eqn:Hid.
    simpl in *. unfold Content.request. rewrite Hwr, Hof.
    destruct (Content.write_verdict env (Content.writes s)) as [| |e];
      try (destruct H as [H|H]; [discriminate|]; rewrite H); simpl;
        rewrite ?Hsl, ?Hof, ?Hco, ?length_app; simpl;
          repeat split; try reflexivity; lia.
  - intros input s id H s'. subst id s'. unfold Content.addSlide.
    destruct (choose_id_tables env (Content.SlideInput.id input) "slide" s)
      as (Hsl & Hof & Hco & Hwr).
    destruct (Content.choose_id env (Content.SlideInput.id input) "slide" s)
      as [id s1] eqn:Hid.
    simpl in *. unfold Content.request. rewrite Hwr, Hsl.
    destruct (Content.write_verdict env (Content.writes s)) as [| |e];
      try (destruct H as [H|H]; [discriminate|]; rewrite H); simpl;
        rewrite ?Hsl, ?Hof, ?Hco, ?length_app; simpl;
          repeat split; try reflexivity; lia.
Qed.

Lemma failed_add_still_returns_an_item_witness :
  let env := {| Content.trim := fun s => s;
                Content.crypto := fun _ => Content.no_crypto;
                Content.Date_now := fun _ => 7%N;
                Content.db_now := fun _ => 9%N;
                Content.write_verdict :=
                  fun _ => Refused {| message := "denied" |} |} in
  let s := {| Content.slides := []; Content.offers := [];
              Content.console := [];
              Content.generated := 0; Content.ticks := 0; Content.writes := 0 |} in
  let input := {| Content.SlideInput.id := Some "s1";
                  Content.SlideInput.image := "a.png";
                  Content.SlideInput.link := None |} in
  Content.offers (snd (Content.addSlide env input s)) = [] /\
  Content.slides (snd (Content.addSlide env input s)) = [] /\
  length (Content.console (snd (Content.addSlide env input s))) = 1 /\
  slide_id (fst (Content.addSlide env input s)) = "s1".
Proof.
  intros env s input.
  exact (proj2 (failed_add_still_returns_an_item env) input s (or_introl eq_refl)).
Defined.

Lemma not_taken_filter id (t : list OfferRow) :
  Content.offer_taken id t = false ->
  filter (fun r => negb (String.eqb (offer_row_id r) id)) t = t.
Proof.
  unfold Content.offer_taken. induction t as [|r t IH]; intros H; [reflexivity|].
  simpl in *. apply orb_false_iff in H. destruct H as [-> H]. simpl.
  f_equal. apply IH, H.
Qed.

(** The functions with the request answered at once are the functions with
    the answer left open, answered before anything else happens. *)
Lemma add_offer_answered_at_once env input s :
  Content.addOffer env input s
  = let '(sent, item, s1) := Content.addOffer_sent env input s in
    (item, Content.answer env sent s1).
Proof.
  unfold Content.addOffer, Content.addOffer_sent, Content.answer, Content.request.
  destruct (Content.choose_id env (Content.OfferInput.id input) "offer" s)
    as [id s1].
  cbn [Content.sent_label Content.sent_change Content.writes Content.offers
       Content.slides Content.console Content.generated Content.ticks].
  destruct (Content.write_verdict env (Content.writes s1));
    [destruct (Content.offer_taken id (Content.offers s1))
    |destruct (Content.offer_taken id (Content.offers s1))|]; reflexivity.
Qed.

Lemma delete_offer_answered_at_once env id s :
  Content.deleteOffer env id s = Content.answer env (Content.deleteOffer_sent id) s.
Proof. reflexivity. Qed.

Lemma add_offer_sent_store env input s sent item s1 :
  Content.addOffer_sent env input s = (sent, item, s1) ->
  Content.slides s1 = Content.slides s /\
  Content.offers s1 = Content.offers s /\
  Content.console s1 = Content.console s /\
  Content.writes s1 = Content.writes s /\
  offer_item_id item
  = fst (Content.choose_id env (Content.OfferInput.id input) "offer" s).
Proof.
  unfold Content.addOffer_sent.
  destruct (choose_id_tables env (Content.OfferInput.id input) "offer" s)
    as (Hsl & Hof & Hco & Hwr).
  destruct (Content.choose_id env (Content.OfferInput.id input) "offer" s)
    as [id s0].
  intros H. injection H as _ <- <-. simpl in *. auto.
Qed.

(** X19. [addOffer] and [deleteOffer] send their requests without waiting
    for the answer, so the code does not decide which of the two the gateway
    handles first.  Take an offer added under an id that was not in use and
    then deleted by the id [addOffer] returned, with a gateway that refuses
    neither request.  When the gateway handles the insert first, the offers
    table is back to what it was.  When it handles the delete first, the
    delete finds nothing and the offer that was to be deleted stays in the
    table, read back by [fromOfferRow] as the offer [addOffer] returned.
    Either way the slides are untouched and nothing is logged. *)
Theorem delete_undoes_add_offer_when_handled_in_order :
  forall env input s sent item s1,
    Content.addOffer_sent env input s = (sent, item, s1) ->
    refused (Content.write_verdict env (Content.writes s)) = false ->
    refused (Content.write_verdict env (S (Content.writes s))) = false ->
    Content.offer_taken (offer_item_id item) (Content.offers s) = false ->
    let delete := Content.deleteOffer_sent (offer_item_id item) in
    let in_order := Content.answer env delete (Content.answer env sent s1) in
    let reversed := Content.answer env sent (Content.answer env delete s1) in
    (Content.offers in_order = Content.offers s /\
     Content.slides in_order = Content.slides s /\
     Content.console in_order = Content.console s) /\
    (exists row,
       Content.offers reversed = Content.offers s ++ [row] /\
       fromOfferRow row = item /\
       Content.slides reversed = Content.slides s /\
       Content.console reversed = Content.console s).
Proof.
  intros env input s sent item s1 Hsent Hv1 Hv2 Hk delete in_order reversed.
  subst delete in_order reversed.
  destruct (add_offer_sent_store env input s Hsent) as (Hsl & Hof & Hco & Hwr & Hid).
  revert Hsent. unfold Content.addOffer_sent.
  destruct (Content.choose_id env (Content.OfferInput.id input) "offer" s)
    as [id s0].
  intros H. injection H as <- <- <-. simpl in Hid, Hk, Hsl, Hof, Hco, Hwr.
  assert (Hn : forall A (a : option A), nullish a None = a) by (intros A [a|]; reflexivity).
  unfold Content.answer. cbn [Content.sent_label Content.sent_change offer_item_id fromOfferRow].
  split.
  - erewrite (@request_carried_out env "[offers] insert error");
      [| simpl; rewrite Hwr; exact Hv1 | cbv beta; simpl; rewrite Hof, Hk; reflexivity].
    erewrite (@request_carried_out env "[offers] delete error");
      [| simpl; rewrite Hwr; exact Hv2 | reflexivity].
    simpl. rewrite filter_app. simpl. rewrite String.eqb_refl. simpl.
    rewrite app_nil_r, (not_taken_filter id (Content.offers s) Hk), Hsl, Hco.
    repeat split; reflexivity.
  - erewrite (@request_carried_out env "[offers] delete error");
      [| simpl; rewrite Hwr; exact Hv1 | reflexivity].
    erewrite (@request_carried_out env "[offers] insert error");
      [| simpl; rewrite Hwr; exact Hv2
       | cbv beta; simpl; rewrite Hof, (not_taken_filter id (Content.offers s) Hk), Hk;
         reflexivity].
    simpl. eexists. split; [reflexivity|].
    unfold or_undefined, Content.toOfferInsert. simpl. rewrite !Hn.
    split; [reflexivity|]. rewrite Hsl, Hco. split; reflexivity.
Qed.

Lemma delete_undoes_add_offer_when_handled_in_order_witness :
  let env := {| Content.trim := fun s => s;
                Content.crypto := fun _ => Content.no_crypto;
                Content.Date_now := fun _ => 7%N;
                Content.db_now := fun _ => 9%N;
                Content.write_verdict := fun _ => Served |} in
  let input := {| Content.OfferInput.id := Some "o2";
                  Content.OfferInput.title := "Ludo";
                  Content.OfferInput.amount := 5%Z;
                  Content.OfferInput.icon := None;
                  Content.OfferInput.label := None;
                  Content.OfferInput.description := None;
                  Content.OfferInput.steps := None;
                  Content.OfferInput.storeUrl := None;
                  Content.OfferInput.active := None;
                  Content.OfferInput.requiresProof := None |} in
  let s := {| Content.slides := []; Content.offers := [];
              Content.console := [];
              Content.generated := 0; Content.ticks := 0; Content.writes := 0 |} in
  let sent := fst (fst (Content.addOffer_sent env input s)) in
  let item := snd (fst (Content.addOffer_sent env input s)) in
  let s1 := snd (Content.addOffer_sent env input s) in
  let delete := Content.deleteOffer_sent (offer_item_id item) in
  (Content.offers (Content.answer env delete (Content.answer env sent s1)) = [] /\
   Content.slides (Content.answer env delete (Content.answer env sent s1)) = [] /\
   Content.console (Content.answer env delete (Content.answer env sent s1)) = []) /\
  (exists row,
     Content.offers (Content.answer env sent (Content.answer env delete s1))
     = [] ++ [row] /\
     fromOfferRow row = item /\
     Content.slides (Content.answer env sent (Content.answer env delete s1)) = [] /\
     Content.console (Content.answer env sent (Content.answer env delete s1)) = []).
Proof.
  intros env input s sent item s1 delete.
  exact (@delete_undoes_add_offer_when_handled_in_order env input s sent item s1
           eq_refl eq_refl eq_refl eq_refl).
Defined.

(* --------------------------------------------------------------------- *)
(** *** Generated ids *)

Lemma hex2_length b : String.length (Content.hex2 b) = 2.
Proof. destruct b; reflexivity. Qed.

Lemma unhex2_hex2 b : Content.unhex2 (Content.hex2 b) = Some b.
Proof. destruct b; vm_compute; reflexivity. Qed.

Lemma append_cancel (p x y : string) :
  String.append p x = String.append p y -> x = y.
Proof.
  induction p as [|c p IH]; simpl; intros H; [exact H|].
  injection H as H. apply IH, H.
Qed.

Lemma append_length (x y : string) :
  String.length (String.append x y) = String.length x + String.length y.
Proof. induction x as [|c x IH]; simpl; [reflexivity|]. rewrite IH. reflexivity. Qed.

Lemma concat_cons (x : string) (l : list string) :
  String.concat "" (x :: l) = String.append x (String.concat "" l).
Proof.
  destruct l as [|y l]; simpl.
  - induction x as [|c x IH]; simpl; [reflexivity|]. rewrite <- IH. reflexivity.
  - reflexivity.
Qed.

Lemma two_chars (h : string) :
  String.length h = 2 -> exists a b, h = String a (String b EmptyString).
Proof.
  destruct h as [|a [|b [|c h]]]; simpl; intros H; try discriminate.
  exists a, b. reflexivity.
Qed.

Lemma hex_concat_length (l : list Byte.byte) :
  String.length (String.concat "" (map Content.hex2 l)) = 2 * length l.
Proof.
  induction l as [|b l IH]; [reflexivity|].
  cbn [map]. rewrite concat_cons, append_length, hex2_length, IH. simpl. lia.
Qed.

Lemma hex_concat_inj (l1 : list Byte.byte) : forall l2,
  String.concat "" (map Content.hex2 l1) = String.concat "" (map Content.hex2 l2) ->
  l1 = l2.
Proof.
  induction l1 as [|a l1 IH]; intros [|b l2] H.
  - reflexivity.
  - apply (f_equal String.length) in H. rewrite !hex_concat_length in H.
    simpl in H. lia.
  - apply (f_equal String.length) in H. rewrite !hex_concat_length in H.
    simpl in H. lia.
  - cbn [map] in H. rewrite !concat_cons in H.
    destruct (two_chars (Content.hex2 a) (hex2_length a)) as (a1 & a2 & Ea).
    destruct (two_chars (Content.hex2 b) (hex2_length b)) as (b1 & b2 & Eb).
    rewrite Ea, Eb in H. simpl in H. injection H as H1 H2 H3.
    assert (E : Content.hex2 a = Content.hex2 b) by (rewrite Ea, Eb, H1, H2; reflexivity).
    assert (Eab : a = b).
    { pose proof (unhex2_hex2 a) as Ha. rewrite E, unhex2_hex2 in Ha.
      injection Ha as ->. reflexivity. }
    subst b. f_equal. apply IH, H3.
Qed.

(** X20. The ids [cryptoRandomId] builds from random bytes are the prefix, a
    dash and two lower-case hexadecimal digits per byte, and they tell the
    bytes apart: two ids with the same prefix are equal only when the random
    bytes were the same. *)
Theorem random_ids_differ_with_their_bytes :
  forall prefix bytes1 bytes2 now1 now2,
    Content.cryptoRandomId prefix (Content.random_values bytes1) now1
    = Content.cryptoRandomId prefix (Content.random_values bytes2) now2 ->
    bytes1 = bytes2 /\
    String.length (Content.cryptoRandomId prefix (Content.random_values bytes1) now1)
    = String.length prefix + 1 + 2 * length bytes1.
Proof.
  intros prefix bytes1 bytes2 now1 now2 H. unfold Content.cryptoRandomId in *.
  split.
  - apply append_cancel in H. apply append_cancel in H.
    apply hex_concat_inj. exact H.
  - rewrite !append_length, hex_concat_length. simpl. lia.
Qed.

Lemma random_ids_differ_with_their_bytes_witness :
  [Byte.x0f; Byte.xa0] = [Byte.x0f; Byte.xa0] /\
  String.length (Content.cryptoRandomId "slide"
                   (Content.random_values [Byte.x0f; Byte.xa0]) 0%N)
  = 5 + 1 + 2 * 2.
Proof.
  exact (random_ids_differ_with_their_bytes "slide"
           [Byte.x0f; Byte.xa0] [Byte.x0f; Byte.xa0] 0%N 1%N eq_refl).
Defined.

(* ===================================================================== *)
(** ** Further facts: the home screen *)
(* ===================================================================== *)

Lemma set_has_In i l : Home.set_has i l = true <-> In i l.
Proof.
  unfold Home.set_has. rewrite existsb_exists. split.
  - intros (x & Hx & E). apply String.eqb_eq in E. subst. exact Hx.
  - intros H. exists i. split; [exact H|apply String.eqb_refl].
Qed.

Lemma paid_offer_ids_In i items :
  In i (Home.paidOfferIds items) <->
  exists t, In t items /\ status t = paid /\ offer_id t = Some i /\ i <> "".
Proof.
  unfold Home.paidOfferIds. rewrite in_map_iff. split.
  - intros (t & Hk & Ht). apply filter_In in Ht. destruct Ht as [Ht Hc].
    apply andb_true_iff in Hc. destruct Hc as [Hp Ho].
    unfold Home.has_offer, Home.offer_key in *.
    destruct (offer_id t) as [o|] eqn:E; [|discriminate]. subst i.
    exists t. split; [exact Ht|]. split; [destruct (status t); simpl in Hp; congruence|].
    split; [exact E|].
    unfold Content.truthy in Ho. apply negb_true_iff in Ho.
    apply String.eqb_neq. exact Ho.
  - intros (t & Ht & Hp & Ho & Hi). exists t. split.
    + unfold Home.offer_key. rewrite Ho. reflexivity.
    + apply filter_In. split; [exact Ht|].
      unfold Home.has_offer. rewrite Hp, Ho. simpl.
      unfold Content.truthy. apply negb_true_iff. apply String.eqb_neq. exact Hi.
Qed.

(** X21. The home screen lists exactly the offers that are not switched off
    and for which the user's transactions show no paid one: an offer is
    listed if and only if it is among the offers, its visibility is not
    [false] (a missing value counts as visible), and no transaction of the
    list is paid and carries its id as a non-empty offer id. *)
Theorem home_lists_unpaid_visible_offers :
  forall (allOffers : list OfferItem) (items : list Transaction) (o : OfferItem),
    In o (Home.visibleOffers allOffers (Home.paidOfferIds items)) <->
    In o allOffers /\
    active o <> Some false /\
    ~ (exists t, In t items /\ status t = paid /\
                 offer_id t = Some (offer_item_id o) /\ offer_item_id o <> "").
Proof.
  intros allOffers items o.
  assert (Hvis : Home.not_hidden o = true <-> active o <> Some false).
  { unfold Home.not_hidden. destruct (active o) as [[|]|]; split; intros H;
      try reflexivity; try discriminate; try congruence. }
  assert (Hpaid : Home.set_has (offer_item_id o) (Home.paidOfferIds items) = false <->
                  ~ (exists t, In t items /\ status t = paid /\
                               offer_id t = Some (offer_item_id o) /\
                               offer_item_id o <> "")).
  { rewrite <- paid_offer_ids_In, <- set_has_In.
    destruct (Home.set_has (offer_item_id o) (Home.paidOfferIds items));
      split; intros H; try reflexivity; try discriminate; try congruence. }
  rewrite <- Hvis, <- Hpaid. unfold Home.visibleOffers.
  destruct (Home.paidOfferIds items) as [|p ps] eqn:E.
  - rewrite filter_In. simpl. tauto.
  - rewrite !filter_In, negb_true_iff. tauto.
Qed.

(* ===================================================================== *)
(** ** Further facts: the history screen *)
(* ===================================================================== *)

Lemma map_set_keys k v (m : History.TxMap) :
  forall k', In k' (map fst (History.map_set k v m)) <-> k' = k \/ In k' (map fst m).
Proof.
  induction m as [|[k0 v0] m IH]; intros k'; simpl.
  - intuition.
  - destruct (String.eqb k0 k) eqn:E; simpl.
    + apply String.eqb_eq in E. subst. intuition.
    + rewrite IH. intuition.
Qed.

Lemma map_set_NoDup k v (m : History.TxMap) :
  NoDup (map fst m) -> NoDup (map fst (History.map_set k v m)).
Proof.
  induction m as [|[k0 v0] m IH]; intros H; simpl.
  - repeat constructor. intros [].
  - inversion H as [|? ? Hk Hm]; subst.
    destruct (String.eqb k0 k) eqn:E; simpl.
    + apply String.eqb_eq in E. subst. constructor; assumption.
    + apply String.eqb_neq in E. constructor; [|apply IH, Hm].
      intros G. apply map_set_keys in G. destruct G as [G|G]; [congruence|].
      apply Hk, G.
Qed.

Lemma map_set_In k v (m : History.TxMap) k' v' :
  NoDup (map fst m) ->
  (In (k', v') (History.map_set k v m) <->
   (k' = k /\ v' = v) \/ (k' <> k /\ In (k', v') m)).
Proof.
  induction m as [|[k0 v0] m IH]; intros H; simpl.
  - split.
    + intros [G|[]]. injection G as <- <-. left. auto.
    + intros [[-> ->]|[_ []]]. left. reflexivity.
  - inversion H as [|? ? Hk Hm]; subst.
    destruct (String.eqb k0 k) eqn:E; simpl.
    + apply String.eqb_eq in E. subst k0. split.
      * intros [G|G]; [injection G as <- <-; left; auto|].
        right. split; [|right; exact G].
        intros ->. apply Hk. apply (in_map fst) in G. exact G.
      * intros [[-> ->]|[Hne [G|G]]]; [left; reflexivity| |right; exact G].
        injection G as -> _. contradiction.
    + apply String.eqb_neq in E. rewrite (IH Hm). split.
      * intros [G|[G|G]].
        -- injection G as <- <-. right. split; [exact E|left; reflexivity].
        -- left. exact G.
        -- right. destruct G as [G1 G2]. split; [exact G1|right; exact G2].
      * intros [G|[Hne [G|G]]].
        -- right. left. exact G.
        -- left. exact G.
        -- right. right. auto.
Qed.

Lemma map_get_In k (m : History.TxMap) v :
  NoDup (map fst m) -> (History.map_get k m = Some v <-> In (k, v) m).
Proof.
  induction m as [|[k0 v0] m IH]; intros H; simpl.
  - split; [discriminate|intros []].
  - inversion H as [|? ? Hk Hm]; subst.
    destruct (String.eqb k0 k) eqn:E.
    + apply String.eqb_eq in E. subst k0. split.
      * intros G. injection G as ->. left. reflexivity.
      * intros [G|G]; [injection G as ->; reflexivity|].
        exfalso. apply Hk. apply (in_map fst) in G. exact G.
    + apply String.eqb_neq in E. rewrite (IH Hm). split.
      * intros G. right. exact G.
      * intros [G|G]; [injection G as -> _; contradiction|exact G].
Qed.

Lemma same_key_same_entry (m : History.TxMap) k v1 v2 :
  NoDup (map fst m) -> In (k, v1) m -> In (k, v2) m -> v1 = v2.
Proof.
  intros H H1 H2. apply (map_get_In k m v1 H) in H1.
  apply (map_get_In k m v2 H) in H2. congruence.
Qed.

Lemma status_paid_dec (t : Transaction) :
  status_eqb (status t) paid = true <-> status t = paid.
Proof. destruct (status t); simpl; split; congruence. Qed.

Lemma visit_filed seen acc t :
  History.filed seen acc -> History.filed (seen ++ [t]) (History.visit acc t).
Proof.
  destruct acc as [m p]. intros (Hn & Hm & Hp). unfold History.visit.
  assert (Hmono : forall k v, In (k, v) m ->
            In v (seen ++ [t]) /\ status v <> paid /\
            ((Home.has_offer v = true /\ Home.offer_key v = k) \/
             (Home.has_offer v = false /\ id v = k))).
  { intros k v Hin. destruct (Hm k v Hin) as (H1 & H2 & H3).
    split; [apply in_or_app; left; exact H1|]. auto. }
  assert (Hset : forall k, status t <> paid ->
            ((Home.has_offer t = true /\ Home.offer_key t = k) \/
             (Home.has_offer t = false /\ id t = k)) ->
            History.filed (seen ++ [t]) (History.map_set k t m, p)).
  { intros k Hst Hkey. split; [apply map_set_NoDup, Hn|]. split.
    - simpl. intros k' v' Hin. apply (map_set_In k t m k' v' Hn) in Hin.
      destruct Hin as [[-> ->]|[_ Hin]]; [|apply Hmono, Hin].
      split; [apply in_or_app; right; left; reflexivity|]. auto.
    - simpl. intros x. rewrite Hp, in_app_iff. simpl. split.
      + intros [H1 H2]. auto.
      + intros [[H1|[<-|[]]] H2]; [auto|contradiction]. }
  destruct (status_eqb (status t) paid) eqn:Est.
  - apply status_paid_dec in Est. split; [exact Hn|]. split; [exact Hmono|].
    simpl. intros x. rewrite !in_app_iff, Hp. simpl. split.
    + intros [[H1 H2]|[<-|[]]]; auto.
    + intros [[H1|[<-|[]]] H2]; auto.
  - assert (Hst : status t <> paid).
    { intros G. apply status_paid_dec in G. congruence. }
    assert (Hkeep : History.filed (seen ++ [t]) (m, p)).
    { split; [exact Hn|]. split; [exact Hmono|].
      simpl. intros x. rewrite Hp, in_app_iff. simpl. split.
      - intros [H1 H2]. auto.
      - intros [[H1|[<-|[]]] H2]; [auto|contradiction]. }
    destruct (Home.has_offer t) eqn:Eo.
    + destruct (History.map_get (Home.offer_key t) m) as [prev|];
        [destruct (N.ltb (created_at prev) (created_at t))|];
        try exact Hkeep; apply Hset; auto.
    + apply Hset; auto.
Qed.

Lemma fold_filed rest : forall seen acc,
  History.filed seen acc ->
  History.filed (seen ++ rest) (fold_left History.visit rest acc).
Proof.
  induction rest as [|t rest IH]; intros seen acc H; simpl.
  - rewrite app_nil_r. exact H.
  - replace (seen ++ t :: rest) with ((seen ++ [t]) ++ rest)
      by (rewrite <- app_assoc; reflexivity).
    apply IH, visit_filed, H.
Qed.

Lemma same_id_same_row (l : list Transaction) a b :
  NoDup (map id l) -> In a l -> In b l -> id a = id b -> a = b.
Proof.
  induction l as [|x l IH]; intros Hn Ha Hb E; [destruct Ha|].
  simpl in Hn. inversion Hn as [|? ? Hx Hl]; subst.
  destruct Ha as [<-|Ha], Hb as [<-|Hb].
  - reflexivity.
  - exfalso. apply Hx. rewrite E. apply in_map, Hb.
  - exfalso. apply Hx. rewrite <- E. apply in_map, Ha.
  - apply IH; assumption.
Qed.

Lemma offer_key_inj (a b : Transaction) :
  Home.has_offer a = true -> Home.has_offer b = true ->
  Home.offer_key a = Home.offer_key b -> offer_id a = offer_id b.
Proof.
  unfold Home.has_offer, Home.offer_key.
  destruct (offer_id a), (offer_id b); intros; try discriminate. congruence.
Qed.

Lemma visit_latest seen m p t :
  History.filed seen (m, p) ->
  History.latest_filed seen m ->
  (forall x, In x (seen ++ [t]) -> status x <> paid -> Home.has_offer x = true) ->
  History.latest_filed (seen ++ [t]) (fst (History.visit (m, p) t)).
Proof.
  intros (Hn & Hm & Hp) Hl Hall. simpl in Hn, Hm.
  assert (Hold : forall m', (forall k v, In (k, v) m -> In (k, v) m') ->
            forall x, In x seen -> status x <> paid ->
              exists v, In (Home.offer_key x, v) m' /\
                        offer_id v = offer_id x /\ (created_at x <= created_at v)%N).
  { intros m' Hsub x Hx Hst. destruct (Hl x Hx Hst) as (v & H1 & H2 & H3).
    exists v. auto. }
  unfold History.visit.
  destruct (status_eqb (status t) paid) eqn:Est.
  - apply status_paid_dec in Est. simpl. intros x Hx Hst.
    apply in_app_or in Hx. destruct Hx as [Hx|[<-|[]]]; [|contradiction].
    apply (Hold m (fun k v H => H) x Hx Hst).
  - assert (Hst : status t <> paid).
    { intros G. apply status_paid_dec in G. congruence. }
    assert (Ho : Home.has_offer t = true).
    { apply Hall; [apply in_or_app; right; left; reflexivity|exact Hst]. }
    rewrite Ho.
    assert (Hnew : forall x, In x (seen ++ [t]) -> status x <> paid ->
              (forall v, In (Home.offer_key t, v) m ->
                         (created_at v < created_at t)%N) ->
              exists v, In (Home.offer_key x, v)
                           (History.map_set (Home.offer_key t) t m) /\
                        offer_id v = offer_id x /\ (created_at x <= created_at v)%N).
    { intros x Hx Hxs Hless. apply in_app_or in Hx.
      destruct Hx as [Hx|[<-|[]]].
      - destruct (Hl x Hx Hxs) as (v & H1 & H2 & H3).
        destruct (string_dec (Home.offer_key x) (Home.offer_key t)) as [E|E].
        + exists t. split; [apply map_set_In; [exact Hn|left; auto]|].
          split.
          * apply offer_key_inj; [exact Ho| |symmetry; exact E].
            apply Hall; [apply in_or_app; left; exact Hx|exact Hxs].
          * rewrite E in H1. specialize (Hless v H1). lia.
        + exists v. split; [apply map_set_In; [exact Hn|right; auto]|]. auto.
      - exists t. split; [apply map_set_In; [exact Hn|left; auto]|].
        split; [reflexivity|lia]. }
    destruct (History.map_get (Home.offer_key t) m) as [prev|] eqn:Eg.
    + apply (map_get_In _ m prev Hn) in Eg.
      destruct (N.ltb (created_at prev) (created_at t)) eqn:El; simpl.
      * apply N.ltb_lt in El. intros x Hx Hxs. apply (Hnew x Hx Hxs).
        intros v Hv. rewrite (@same_key_same_entry m _ v prev Hn Hv Eg). exact El.
      * apply N.ltb_ge in El. intros x Hx Hxs. apply in_app_or in Hx.
        destruct Hx as [Hx|[<-|[]]]; [apply (Hold m (fun k v H => H) x Hx Hxs)|].
        exists prev. split; [exact Eg|]. split; [|exact El].
        destruct (Hm _ _ Eg) as (Hps & Hpst & [[Hpo Hpk]|[Hpo _]]).
        -- apply offer_key_inj; assumption.
        -- rewrite (Hall prev) in Hpo; [discriminate| |exact Hpst].
           apply in_or_app. left. exact Hps.
    + simpl. intros x Hx Hxs. apply (Hnew x Hx Hxs).
      intros v Hv. apply (map_get_In _ m v Hn) in Hv. congruence.
Qed.

Lemma fold_latest rest : forall seen m p,
  History.filed seen (m, p) ->
  History.latest_filed seen m ->
  (forall x, In x (seen ++ rest) -> status x <> paid -> Home.has_offer x = true) ->
  History.latest_filed (seen ++ rest) (fst (fold_left History.visit rest (m, p))).
Proof.
  induction rest as [|t rest IH]; intros seen m p Hf Hl Hall; cbn [fold_left].
  - rewrite app_nil_r. exact Hl.
  - replace (seen ++ t :: rest) with ((seen ++ [t]) ++ rest) in *
      by (rewrite <- app_assoc; reflexivity).
    pose proof (@visit_filed seen (m, p) t Hf) as Hf'.
    assert (Hall' : forall x, In x (seen ++ [t]) -> status x <> paid ->
                              Home.has_offer x = true).
    { intros x Hx. apply Hall. apply in_or_app. left. exact Hx. }
    pose proof (@visit_latest seen m p t Hf Hl Hall') as Hl'.
    destruct (History.visit (m, p) t) as [m' p'] eqn:Ev.
    apply IH; assumption.
Qed.

(** X22. The display rule of the history screen, for a list in which every
    transaction has its own id.  Every paid transaction is shown.  Of the
    unpaid transactions of one offer at most one is shown.  When every
    unpaid transaction belongs to an offer, each of them is represented: the
    screen shows an unpaid transaction of the same offer created no earlier
    than it.  Nothing is shown that is not in the list. *)
Theorem history_shows_latest_unpaid_per_offer :
  forall txs,
    NoDup (map id txs) ->
    (forall t, In t (History.displayTxs txs) -> In t txs) /\
    (forall t, In t txs -> status t = paid -> In t (History.displayTxs txs)) /\
    (forall t1 t2 o,
        In t1 (History.displayTxs txs) -> In t2 (History.displayTxs txs) ->
        status t1 <> paid -> status t2 <> paid ->
        offer_id t1 = Some o -> offer_id t2 = Some o -> o <> "" ->
        t1 = t2) /\
    ((forall t, In t txs -> status t <> paid -> Home.has_offer t = true) ->
     forall t, In t txs -> status t <> paid ->
       exists t', In t' (History.displayTxs txs) /\
                  status t' <> paid /\
                  offer_id t' = offer_id t /\
                  (created_at t <= created_at t')%N).
Proof.
  intros txs Hnd.
  assert (H0 : History.filed [] ([], [])).
  { split; [constructor|]. split; [intros k v []|].
    intros t. simpl. tauto. }
  pose proof (@fold_filed txs [] ([], []) H0) as Hf. simpl in Hf.
  assert (Hl0 : History.latest_filed [] []) by (intros x []).
  pose proof (fun Hall => @fold_latest txs [] [] [] H0 Hl0 Hall) as Hlat.
  simpl in Hlat.
  unfold History.displayTxs.
  destruct (fold_left History.visit txs ([], [])) as [m p] eqn:Efold.
  destruct Hf as (Hn & Hm & Hp). simpl in Hn, Hm, Hp.
  assert (Hshown : forall t, In t (filter (fun t => Home.set_has (id t)
                      (map id (History.map_values m) ++ map id p)) txs) <->
            In t txs /\ (In t (History.map_values m) \/ In t p)).
  { intros t. rewrite filter_In, set_has_In, in_app_iff, !in_map_iff. split.
    - intros [Ht [(v & Ev & Hv)|(v & Ev & Hv)]]; split; try exact Ht.
      + left. assert (Hvt : In v txs).
        { unfold History.map_values in Hv. apply in_map_iff in Hv.
          destruct Hv as ([k v'] & <- & Hkv). apply (Hm k v' Hkv). }
        rewrite <- (@same_id_same_row txs v t Hnd Hvt Ht Ev). exact Hv.
      + right. assert (Hvt : In v txs) by (apply Hp; exact Hv).
        rewrite <- (@same_id_same_row txs v t Hnd Hvt Ht Ev). exact Hv.
    - intros [Ht [Hv|Hv]]; (split; [exact Ht|]); [left|right]; exists t; auto. }
  assert (Hvalue : forall t, In t txs -> (In t (History.map_values m) \/ In t p) ->
            status t <> paid ->
            exists k, In (k, t) m).
  { intros t Ht [Hv|Hv] Hst.
    - unfold History.map_values in Hv. apply in_map_iff in Hv.
      destruct Hv as ([k v] & <- & Hkv). exists k. exact Hkv.
    - apply Hp in Hv. destruct Hv as [_ Hv]. contradiction. }
  split; [intros t Ht; apply Hshown in Ht; apply Ht|].
  split; [intros t Ht Hst; apply Hshown; split; [exact Ht|right; apply Hp; auto]|].
  split.
  - intros t1 t2 o H1 H2 Hs1 Hs2 Ho1 Ho2 Hne.
    apply Hshown in H1. apply Hshown in H2.
    destruct (Hvalue t1 (proj1 H1) (proj2 H1) Hs1) as (k1 & Hk1).
    destruct (Hvalue t2 (proj1 H2) (proj2 H2) Hs2) as (k2 & Hk2).
    assert (Hkey : forall t k, In (k, t) m -> offer_id t = Some o -> k = o).
    { intros t k Hk Ho. destruct (Hm k t Hk) as (_ & _ & [[_ E]|[E _]]).
      - unfold Home.offer_key in E. rewrite Ho in E. symmetry. exact E.
      - unfold Home.has_offer in E. rewrite Ho in E.
        unfold Content.truthy in E. apply negb_false_iff in E.
        apply String.eqb_eq in E. contradiction. }
    rewrite (Hkey t1 k1 Hk1 Ho1) in Hk1. rewrite (Hkey t2 k2 Hk2 Ho2) in Hk2.
    apply (@same_key_same_entry m o t1 t2 Hn Hk1 Hk2).
  - intros Hall t Ht Hst.
    pose proof (Hlat Hall) as Hl. simpl in Hl.
    destruct (Hl t Ht Hst) as (v & Hv0 & Ho & Hc).
    pose proof (eq_ind _ (fun a => In (Home.offer_key t, v) (fst a)) Hv0 _ Efold)
      as Hv.
    simpl in Hv.
    destruct (Hm _ _ Hv) as (Hvt & Hvs & _).
    exists v. split; [|auto].
    apply Hshown. split; [exact Hvt|]. left.
    unfold History.map_values. apply in_map_iff.
    exists (Home.offer_key t, v). auto.
Qed.

Lemma history_shows_latest_unpaid_per_offer_witness :
  let txs := [Scenario.row "t3" rejected 9%N;
              Scenario.row "t2" pending 5%N;
              Scenario.row "t1" paid 1%N] in
  History.displayTxs txs = [Scenario.row "t3" rejected 9%N; Scenario.row "t1" paid 1%N] /\
  forall t, In t txs -> status t <> paid ->
    exists t', In t' (History.displayTxs txs) /\
               status t' <> paid /\
               offer_id t' = offer_id t /\
               (created_at t <= created_at t')%N.
Proof.
  intros txs. split; [reflexivity|].
  assert (Hnd : NoDup (map id txs)).
  { simpl. repeat constructor; simpl; intuition discriminate. }
  destruct (history_shows_latest_unpaid_per_offer txs Hnd) as (_ & _ & _ & H).
  apply H. intros t Ht _. simpl in Ht.
  destruct Ht as [<-|[<-|[<-|[]]]]; reflexivity.
Defined.

(** X23. What the history screen does with a transaction published on the
    event bus.  A transaction of another user leaves the list alone.  A
    transaction of the user is put first and replaces every entry of the
    same id: the other entries stay, in their order; exactly one entry
    carries that id afterwards; ids that were distinct stay distinct; and
    receiving the same transaction again changes nothing. *)
Theorem local_event_replaces_its_row :
  forall userId tx prev,
    (user_id tx <> userId -> History.onLocalEvent userId tx prev = prev) /\
    (user_id tx = userId ->
     let next := History.onLocalEvent userId tx prev in
     next = tx :: filter (fun p => negb (String.eqb (id p) (id tx))) prev /\
     (forall p, In p next <-> p = tx \/ (In p prev /\ id p <> id tx)) /\
     length (filter (fun p => String.eqb (id p) (id tx)) next) = 1 /\
     (NoDup (map id prev) -> NoDup (map id next)) /\
     History.onLocalEvent userId tx next = next).
Proof.
  intros userId tx prev. unfold History.onLocalEvent. split.
  - intros H. apply String.eqb_neq in H. rewrite H. reflexivity.
  - intros H. rewrite H, String.eqb_refl. simpl.
    set (rest := filter (fun p => negb (String.eqb (id p) (id tx))) prev).
    assert (Hrest : forall p, In p rest <-> In p prev /\ id p <> id tx).
    { intros p. subst rest. rewrite filter_In, negb_true_iff, String.eqb_neq. tauto. }
    assert (Hnone : filter (fun p => String.eqb (id p) (id tx)) rest = []).
    { subst rest. clear. induction prev as [|p l IH]; [reflexivity|]. simpl.
      destruct (String.eqb (id p) (id tx)) eqn:E; simpl; [exact IH|].
      rewrite E. exact IH. }
    assert (Hagain : filter (fun p => negb (String.eqb (id p) (id tx))) rest = rest).
    { subst rest. clear. induction prev as [|p l IH]; [reflexivity|]. simpl.
      destruct (String.eqb (id p) (id tx)) eqn:E; simpl; [exact IH|].
      rewrite E. simpl. f_equal. exact IH. }
    split; [reflexivity|]. split; [|split; [|split]].
    + intros p. simpl. rewrite Hrest. split.
      * intros [<-|G]; auto.
      * intros [->|G]; auto.
    + rewrite String.eqb_refl. simpl. rewrite Hnone. reflexivity.
    + intros Hn. simpl. constructor.
      * intros G. apply in_map_iff in G. destruct G as (p & E & Hp).
        apply Hrest in Hp. destruct Hp as [_ Hp]. contradiction.
      * subst rest. clear - Hn. induction prev as [|p l IH]; [constructor|].
        simpl in *. inversion Hn as [|? ? Hp Hl]; subst.
        destruct (negb (String.eqb (id p) (id tx))); [|apply IH, Hl].
        simpl. constructor; [|apply IH, Hl].
        intros G. apply Hp. apply in_map_iff in G. destruct G as (q & E & Hq).
        apply filter_In in Hq. rewrite <- E. apply in_map. apply Hq.
    + rewrite String.eqb_refl. simpl. rewrite Hagain. reflexivity.
Qed.

Lemma local_event_replaces_its_row_witness :
  let tx := Scenario.row "t2" pending 7%N in
  let prev := [Scenario.row "t3" rejected 9%N; Scenario.row "t2" rejected 5%N] in
  let next := History.onLocalEvent "u1" tx prev in
  next = [tx; Scenario.row "t3" rejected 9%N] /\
  (forall p, In p next <-> p = tx \/ (In p prev /\ id p <> id tx)) /\
  length (filter (fun p => String.eqb (id p) (id tx)) next) = 1 /\
  (NoDup (map id prev) -> NoDup (map id next)) /\
  History.onLocalEvent "u1" tx next = next.
Proof.
  intros tx prev next.
  exact (proj2 (local_event_replaces_its_row "u1" tx prev) eq_refl).
Defined.

(* ===================================================================== *)
(** ** Further facts: profiles *)
(* ===================================================================== *)

Lemma profile_unique (t : list Profile.UserProfile) q :
  NoDup (map Profile.id t) -> In q t ->
  filter (fun p => String.eqb (Profile.id p) (Profile.id q)) t = [q].
Proof.
  induction t as [|r t IH]; intros Hn Hi; [destruct Hi|].
  simpl in Hn. inversion Hn as [|? ? Hr Ht]; subst.
  assert (Hnone : forall i, ~ In i (map Profile.id t) ->
            filter (fun p => String.eqb (Profile.id p) i) t = []).
  { clear. intros i. induction t as [|y t IH]; intros H; [reflexivity|].
    simpl in *. destruct (String.eqb (Profile.id y) i) eqn:E.
    - apply String.eqb_eq in E. exfalso. apply H. left. exact E.
    - apply IH. intros G. apply H. right. exact G. }
  simpl. destruct Hi as [->|Hi].
  - rewrite String.eqb_refl. f_equal. apply Hnone, Hr.
  - destruct (String.eqb (Profile.id r) (Profile.id q)) eqn:E.
    + apply String.eqb_eq in E. exfalso. apply Hr. rewrite E.
      apply in_map. exact Hi.
    + apply IH; assumption.
Qed.

Lemma profile_absent (t : list Profile.UserProfile) i :
  existsb (fun q => String.eqb (Profile.id q) i) t = false ->
  ~ In i (map Profile.id t) /\
  filter (fun p => String.eqb (Profile.id p) i) t = [].
Proof.
  induction t as [|r t IH]; intros H; simpl in *; [split; [tauto|reflexivity]|].
  apply orb_false_iff in H. destruct H as [E H]. rewrite E.
  destruct (IH H) as [H1 H2]. split; [|exact H2].
  apply String.eqb_neq in E. intros [G|G]; [contradiction|]. apply H1, G.
Qed.

(** X24. A missing profile is not an error.  When the gateway serves the
    read and no row has the id, [getProfile] resolves with [null]; it also
    does when the gateway answers with the error code PGRST116; any other
    error makes it reject with that error.  The table is never written. *)
Theorem missing_profile_is_null :
  forall env userId w,
    Profile.profiles (snd (Profile.getProfile env userId w)) = Profile.profiles w /\
    (Profile.verdict env (Profile.requests w) = Profile.Served ->
     existsb (fun q => String.eqb (Profile.id q) userId) (Profile.profiles w) = false ->
     fst (Profile.getProfile env userId w) = Profile.Resolved None) /\
    (forall e,
        Profile.verdict env (Profile.requests w) = Profile.Refused e ->
        fst (Profile.getProfile env userId w)
        = if String.eqb (Profile.code e) "PGRST116"
          then Profile.Resolved None
          else Profile.Rejected e).
Proof.
  intros env userId w. unfold Profile.getProfile, Profile.select_single.
  split; [|split].
  - destruct (Profile.verdict env (Profile.requests w)) as [|e].
    + destruct (filter _ (Profile.profiles w)) as [|p [|q l]]; reflexivity.
    + simpl. destruct (negb (String.eqb (Profile.code e) "PGRST116")); reflexivity.
  - intros Hv Hk. rewrite Hv.
    destruct (profile_absent (Profile.profiles w) userId Hk) as [_ ->]. reflexivity.
  - intros e Hv. rewrite Hv. simpl.
    destruct (String.eqb (Profile.code e) "PGRST116"); reflexivity.
Qed.

Lemma missing_profile_is_null_witness :
  let env := {| Profile.verdict := fun _ => Profile.Served;
                Profile.db_now := fun _ => 9%N;
                Profile.default_is_admin := Some false |} in
  let w := {| Profile.profiles := []; Profile.requests := 0 |} in
  fst (Profile.getProfile env "u1" w) = Profile.Resolved None.
Proof.
  intros env w.
  exact (proj1 (proj2 (missing_profile_is_null env "u1" w)) eq_refl eq_refl).
Defined.

(** X25. Saving a profile and reading it back.  On a table with one row per
    id, when the gateway serves both requests, [getProfile] after
    [upsertProfile] resolves with a profile of that id carrying the name,
    phone and payment address that were saved.  The admin flag is not taken
    from what was saved: it is the flag the stored row had, or the column
    default for a new row. *)
Theorem saved_profile_reads_back :
  forall env profile w,
    NoDup (map Profile.id (Profile.profiles w)) ->
    Profile.verdict env (Profile.requests w) = Profile.Served ->
    Profile.verdict env (S (Profile.requests w)) = Profile.Served ->
    let w1 := snd (Profile.upsertProfile env profile w) in
    fst (Profile.upsertProfile env profile w) = Profile.Resolved tt /\
    exists q,
      fst (Profile.getProfile env (Profile.id profile) w1) = Profile.Resolved (Some q) /\
      Profile.id q = Profile.id profile /\
      Profile.full_name q = Profile.full_name profile /\
      Profile.phone q = Profile.phone profile /\
      Profile.upi_id q = Profile.upi_id profile /\
      Profile.is_admin q
      = match find (fun p => String.eqb (Profile.id p) (Profile.id profile))
                   (Profile.profiles w) with
        | Some old => Profile.is_admin old
        | None => Profile.default_is_admin env
        end.
Proof.
  intros env profile w Hn Hv Hv2 w1. subst w1.
  assert (Hnull : forall A (a : option A), nullish a None = a) by (intros A [a|]; reflexivity).
  unfold Profile.upsertProfile, Profile.upsert. rewrite Hv. simpl.
  split; [reflexivity|].
  unfold Profile.getProfile, Profile.select_single. simpl. rewrite Hv2.
  rewrite !Hnull.
  destruct (existsb (fun q => String.eqb (Profile.id q) (Profile.id profile))
                    (Profile.profiles w)) eqn:Ek.
  - apply existsb_exists in Ek. destruct Ek as (old & Hold & Eold).
    apply String.eqb_eq in Eold.
    destruct (in_split _ _ Hold) as (l1 & l2 & Hsplit).
    rewrite Hsplit in Hn |- *. rewrite map_app in Hn. simpl in Hn.
    pose proof (NoDup_remove_2 _ _ _ Hn) as Hnot. rewrite Eold in Hnot.
    assert (Eb : String.eqb (Profile.id old) (Profile.id profile) = true)
      by (apply String.eqb_eq; exact Eold).
    assert (Hkeep : forall l, ~ In (Profile.id profile) (map Profile.id l) ->
      map (fun q => if String.eqb (Profile.id q) (Profile.id profile)
                    then Profile.overwrite
                           {| Profile.payload_id := Profile.id profile;
                              Profile.payload_full_name := Profile.full_name profile;
                              Profile.payload_phone := Profile.phone profile;
                              Profile.payload_upi_id := Profile.upi_id profile |}
                           (Profile.db_now env (Profile.requests w)) q
                    else q) l = l /\
      filter (fun p => String.eqb (Profile.id p) (Profile.id profile)) l = [] /\
      find (fun p => String.eqb (Profile.id p) (Profile.id profile)) l = None).
    { induction l as [|y l IH]; intros H; [auto|]. simpl in *.
      destruct (String.eqb (Profile.id y) (Profile.id profile)) eqn:E.
      - apply String.eqb_eq in E. exfalso. apply H. left. exact E.
      - destruct IH as (H1 & H2 & H3); [intros G; apply H; right; exact G|].
        rewrite H1. auto. }
    destruct (Hkeep l1) as (M1 & F1 & D1);
      [intros G; apply Hnot; apply in_or_app; left; exact G|].
    destruct (Hkeep l2) as (M2 & F2 & D2);
      [intros G; apply Hnot; apply in_or_app; right; exact G|].
    rewrite map_app. cbn [map]. rewrite M1, M2, Eb.
    rewrite filter_app. cbn [filter].
    cbn [Profile.overwrite Profile.id]. rewrite Eb, F1, F2. simpl.
    eexists. split; [reflexivity|]. simpl.
    assert (Hfind : find (fun p => String.eqb (Profile.id p) (Profile.id profile))
                         (l1 ++ old :: l2) = Some old).
    { clear - D1 Eb. induction l1 as [|y l IH]; simpl in *.
      - rewrite Eb. reflexivity.
      - destruct (String.eqb (Profile.id y) (Profile.id profile)); [discriminate|].
        apply IH, D1. }
    rewrite Hfind. repeat split; congruence.
  - destruct (profile_absent (Profile.profiles w) (Profile.id profile) Ek) as [Habs Hnone].
    rewrite filter_app, Hnone. simpl. rewrite String.eqb_refl. simpl.
    eexists. split; [reflexivity|]. simpl.
    assert (Hfind : find (fun p => String.eqb (Profile.id p) (Profile.id profile))
                         (Profile.profiles w) = None).
    { clear - Ek. induction (Profile.profiles w) as [|y l IH]; [reflexivity|].
      simpl in *. apply orb_false_iff in Ek. destruct Ek as [-> Ek]. apply IH, Ek. }
    rewrite Hfind. repeat split; reflexivity.
Qed.

Lemma saved_profile_reads_back_witness :
  let env := {| Profile.verdict := fun _ => Profile.Served;
                Profile.db_now := fun _ => 9%N;
                Profile.default_is_admin := Some false |} in
  let stored := {| Profile.id := "u1"; Profile.full_name := None;
                   Profile.phone := None; Profile.upi_id := None;
                   Profile.is_admin := Some false;
                   Profile.updated_at := None |} in
  let w := {| Profile.profiles := [stored]; Profile.requests := 0 |} in
  let profile := {| Profile.id := "u1"; Profile.full_name := Some "Asha";
                    Profile.phone := Some "9999"; Profile.upi_id := Some "asha@upi";
                    Profile.is_admin := Some true;
                    Profile.updated_at := None |} in
  fst (Profile.upsertProfile env profile w) = Profile.Resolved tt /\
  exists q,
    fst (Profile.getProfile env "u1" (snd (Profile.upsertProfile env profile w)))
    = Profile.Resolved (Some q) /\
    Profile.id q = "u1" /\
    Profile.full_name q = Some "Asha" /\
    Profile.phone q = Some "9999" /\
    Profile.upi_id q = Some "asha@upi" /\
    Profile.is_admin q = Some false.
Proof.
  intros env stored w profile.
  apply (saved_profile_reads_back env profile w).
  - simpl. repeat constructor. intros [].
  - reflexivity.
  - reflexivity.
Defined.

(* ===================================================================== *)
(** ** Further facts: the in-memory wallet store *)
(* ===================================================================== *)

Lemma insert_sorted_perm x l :
  Permutation.Permutation (x :: l) (Wallet.insert_sorted x l).
Proof.
  induction l as [|y l IH]; simpl; [apply Permutation.Permutation_refl|].
  destruct (Z.ltb 0 (Wallet.newest_first x y)).
  - eapply Permutation.perm_trans; [apply Permutation.perm_swap|].
    apply Permutation.perm_skip, IH.
  - apply Permutation.Permutation_refl.
Qed.

Lemma sort_perm l : Permutation.Permutation l (Wallet.sort l).
Proof.
  induction l as [|x l IH]; simpl; [constructor|].
  eapply Permutation.perm_trans; [apply Permutation.perm_skip, IH|].
  apply insert_sorted_perm.
Qed.

Lemma insert_sorted_sorted x l :
  Sorted.StronglySorted (fun a b => (Wallet.timestamp b <= Wallet.timestamp a)%Z) l ->
  Sorted.StronglySorted (fun a b => (Wallet.timestamp b <= Wallet.timestamp a)%Z)
                        (Wallet.insert_sorted x l).
Proof.
  induction l as [|y l IH]; intros H; simpl.
  - constructor; constructor.
  - inversion H as [|? ? Hl Hy]; subst. unfold Wallet.newest_first.
    destruct (Z.ltb_spec 0 (Wallet.timestamp y - Wallet.timestamp x)) as [L|L].
    + constructor; [apply IH, Hl|].
      apply (Permutation.Permutation_Forall (insert_sorted_perm x l)).
      constructor; [lia|exact Hy].
    + constructor; [exact H|]. constructor; [lia|].
      eapply Forall_impl; [|exact Hy]. simpl. intros a Ha. lia.
Qed.

(** X26. [getTransactions] hands out the stored transactions, all of them
    and nothing else, newest first: its result is a rearrangement of the
    list in the store in which no transaction comes before a more recent
    one. *)
Theorem wallet_list_is_sorted_newest_first :
  forall s,
    Permutation.Permutation (Wallet.transactions s) (Wallet.getTransactions s) /\
    Sorted.StronglySorted
      (fun a b => (Wallet.timestamp b <= Wallet.timestamp a)%Z)
      (Wallet.getTransactions s).
Proof.
  intros s. unfold Wallet.getTransactions, Wallet.sorted. split.
  - apply sort_perm.
  - induction (Wallet.transactions s) as [|x l IH]; simpl; [constructor|].
    apply insert_sorted_sorted, IH.
Qed.

Lemma wallet_update_count i st (l : list Wallet.Transaction) :
  length (filter (fun t => Wallet.status_eqb (Wallet.status t) Wallet.paid)
            (map (fun t => if String.eqb (Wallet.id t) i
                           then {| Wallet.id := Wallet.id t;
                                   Wallet.title := Wallet.title t;
                                   Wallet.icon := Wallet.icon t;
                                   Wallet.status := st;
                                   Wallet.amount := Wallet.amount t;
                                   Wallet.timestamp := Wallet.timestamp t |}
                           else t) l))
  + length (filter (fun t => String.eqb (Wallet.id t) i
                             && Wallet.status_eqb (Wallet.status t) Wallet.paid) l)
  = length (filter (fun t => Wallet.status_eqb (Wallet.status t) Wallet.paid) l)
    + (if Wallet.status_eqb st Wallet.paid
       then length (filter (fun t => String.eqb (Wallet.id t) i) l)
       else 0).
Proof.
  induction l as [|t l IH]; simpl; [destruct (Wallet.status_eqb st Wallet.paid); reflexivity|].
  destruct (String.eqb (Wallet.id t) i); simpl.
  - destruct (Wallet.status_eqb st Wallet.paid),
             (Wallet.status_eqb (Wallet.status t) Wallet.paid); simpl; lia.
  - destruct (Wallet.status_eqb (Wallet.status t) Wallet.paid); simpl; lia.
Qed.

(** X27. How the admin helpers move the count of completed tasks.  After
    [Admin.approve(id)] the count is what it was plus the transactions of
    that id that were not paid yet; after [Admin.reject(id)] it is what it
    was minus the transactions of that id that were paid, so a rejection
    takes a paid transaction back.  Neither adds or removes a transaction or
    changes an id. *)
Theorem wallet_admin_moves_the_completed_count :
  forall i s,
    Wallet.getCompletedCount (Wallet.approve i s)
    = Wallet.getCompletedCount s
      + length (filter (fun t => String.eqb (Wallet.id t) i
                                 && negb (Wallet.status_eqb (Wallet.status t) Wallet.paid))
                       (Wallet.transactions s)) /\
    Wallet.getCompletedCount (Wallet.reject i s)
    + length (filter (fun t => String.eqb (Wallet.id t) i
                               && Wallet.status_eqb (Wallet.status t) Wallet.paid)
                     (Wallet.transactions s))
    = Wallet.getCompletedCount s /\
    map Wallet.id (Wallet.transactions (Wallet.approve i s))
    = map Wallet.id (Wallet.transactions s) /\
    map Wallet.id (Wallet.transactions (Wallet.reject i s))
    = map Wallet.id (Wallet.transactions s).
Proof.
  intros i s.
  assert (Hids : forall st,
    map Wallet.id (Wallet.transactions (Wallet.updateTransactionStatus i st s))
    = map Wallet.id (Wallet.transactions s)).
  { intros st. unfold Wallet.updateTransactionStatus. simpl. rewrite map_map.
    apply map_ext. intros t. destruct (String.eqb (Wallet.id t) i); reflexivity. }
  assert (Hsplit : forall l : list Wallet.Transaction,
    length (filter (fun t => String.eqb (Wallet.id t) i) l)
    = length (filter (fun t => String.eqb (Wallet.id t) i
                               && Wallet.status_eqb (Wallet.status t) Wallet.paid) l)
      + length (filter (fun t => String.eqb (Wallet.id t) i
                                 && negb (Wallet.status_eqb (Wallet.status t) Wallet.paid)) l)).
  { induction l as [|t l IH]; simpl; [reflexivity|].
    destruct (String.eqb (Wallet.id t) i),
             (Wallet.status_eqb (Wallet.status t) Wallet.paid); simpl; lia. }
  unfold Wallet.approve, Wallet.reject, Wallet.getCompletedCount.
  split; [|split; [|split; apply Hids]].
  - pose proof (wallet_update_count i Wallet.paid (Wallet.transactions s)) as H.
    pose proof (Hsplit (Wallet.transactions s)) as H2.
    unfold Wallet.updateTransactionStatus. simpl in *. lia.
  - pose proof (wallet_update_count i Wallet.rejected (Wallet.transactions s)) as H.
    unfold Wallet.updateTransactionStatus. simpl in *. lia.
Qed.

Lemma find_notified cb (v : list Wallet.Transaction) (l : list TxEvents.ident) r :
  In cb l ->
  find (fun e : TxEvents.ident * list Wallet.Transaction => Nat.eqb (fst e) cb)
       (rev (map (fun c => (c, v)) l) ++ r) = Some (cb, v).
Proof.
  intros H. induction l as [|c l IH] using rev_ind; [destruct H|].
  rewrite map_app, rev_app_distr. simpl.
  destruct (Nat.eqb c cb) eqn:E.
  - apply Nat.eqb_eq in E. subst. reflexivity.
  - apply IH. apply in_app_or in H. destruct H as [H|[H|[]]]; [exact H|].
    subst. rewrite Nat.eqb_refl in E. discriminate.
Qed.

Lemma notify_current (s : Wallet.Store) cb :
  In cb (Wallet.subs s) ->
  find (fun e => Nat.eqb (fst e) cb) (rev (Wallet.seen (Wallet.notify s)))
  = Some (cb, Wallet.getTransactions (Wallet.notify s)).
Proof.
  intros H. unfold Wallet.notify. simpl. rewrite rev_app_distr.
  apply find_notified. exact H.
Qed.

Lemma set_add_In cb x l : In x (TxEvents.set_add cb l) <-> x = cb \/ In x l.
Proof.
  unfold TxEvents.set_add. destruct (TxEvents.has cb l) eqn:E.
  - apply has_In in E. split; [auto|]. intros [->|H]; assumption.
  - rewrite in_app_iff. simpl. intuition.
Qed.

Lemma perform_current env c (s : Wallet.Store) :
  (forall cb, In cb (Wallet.subs s) ->
     find (fun e => Nat.eqb (fst e) cb) (rev (Wallet.seen s))
     = Some (cb, Wallet.getTransactions s)) ->
  forall cb, In cb (Wallet.subs (Wallet.perform env s c)) ->
    find (fun e => Nat.eqb (fst e) cb) (rev (Wallet.seen (Wallet.perform env s c)))
    = Some (cb, Wallet.getTransactions (Wallet.perform env s c)).
Proof.
  intros H cb Hcb. destruct c as [cb0|cb0|t i a|i st].
  - simpl in *. rewrite rev_app_distr. simpl. apply set_add_In in Hcb.
    destruct (Nat.eqb cb0 cb) eqn:E.
    + apply Nat.eqb_eq in E. subst. reflexivity.
    + destruct Hcb as [->|Hcb]; [rewrite Nat.eqb_refl in E; discriminate|].
      apply H, Hcb.
  - simpl in *. apply H. unfold TxEvents.set_delete in Hcb.
    apply filter_In in Hcb. apply Hcb.
  - unfold Wallet.perform, Wallet.addTransactionPending in *. cbn [snd] in *.
    apply notify_current. exact Hcb.
  - unfold Wallet.perform, Wallet.updateTransactionStatus in *.
    apply notify_current. exact Hcb.
Qed.

(** X28. No subscriber of the wallet store is left with a stale list.  In a
    store that starts without subscribers, after any sequence of
    subscriptions, removals, additions and status updates, the last list
    handed to each callback still subscribed is the list [getTransactions]
    returns at that moment. *)
Theorem wallet_subscribers_are_up_to_date :
  forall env calls s0,
    Wallet.subs s0 = [] ->
    let s := fold_left (Wallet.perform env) calls s0 in
    forall cb, In cb (Wallet.subs s) ->
      find (fun e => Nat.eqb (fst e) cb) (rev (Wallet.seen s))
      = Some (cb, Wallet.getTransactions s).
Proof.
  intros env calls s0 H0 s. subst s.
  assert (G : forall cs s,
    (forall cb, In cb (Wallet.subs s) ->
       find (fun e => Nat.eqb (fst e) cb) (rev (Wallet.seen s))
       = Some (cb, Wallet.getTransactions s)) ->
    forall cb, In cb (Wallet.subs (fold_left (Wallet.perform env) cs s)) ->
      find (fun e => Nat.eqb (fst e) cb)
           (rev (Wallet.seen (fold_left (Wallet.perform env) cs s)))
      = Some (cb, Wallet.getTransactions (fold_left (Wallet.perform env) cs s))).
  { clear. induction cs as [|c cs IH]; intros s H; [exact H|].
    simpl. apply IH. apply perform_current, H. }
  apply G. rewrite H0. intros cb [].
Qed.

Lemma wallet_subscribers_are_up_to_date_witness :
  let env := {| Wallet.Date_now := fun n => Z.of_nat (100 + n);
                Wallet.random_suffix := fun _ => "k3x9a" |} in
  let s0 := {| Wallet.transactions := []; Wallet.subs := []; Wallet.seen := [];
               Wallet.ticks := 0; Wallet.draws := 0 |} in
  let s := fold_left (Wallet.perform env)
             [Wallet.call_subscribe 1;
              Wallet.call_add "Ludo" None (Some 5%Z);
              Wallet.call_update "tx-100-k3x9a" Wallet.paid] s0 in
  Wallet.getCompletedCount s = 1 /\
  forall cb, In cb (Wallet.subs s) ->
    find (fun e => Nat.eqb (fst e) cb) (rev (Wallet.seen s))
    = Some (cb, Wallet.getTransactions s).
Proof.
  intros env s0 s. split; [reflexivity|].
  exact (wallet_subscribers_are_up_to_date env
           [Wallet.call_subscribe 1;
            Wallet.call_add "Ludo" None (Some 5%Z);
            Wallet.call_update "tx-100-k3x9a" Wallet.paid] s0 eq_refl).
Defined.

Lemma perform_unsubscribed env c (s : Wallet.Store) cb :
  c <> Wallet.call_subscribe cb ->
  ~ In cb (Wallet.subs s) ->
  ~ In cb (Wallet.subs (Wallet.perform env s c)) /\
  filter (fun e => Nat.eqb (fst e) cb) (Wallet.seen (Wallet.perform env s c))
  = filter (fun e => Nat.eqb (fst e) cb) (Wallet.seen s).
Proof.
  intros Hc Hn.
  assert (Hnot : forall (v : list Wallet.Transaction) l, ~ In cb l ->
            filter (fun e : TxEvents.ident * list Wallet.Transaction =>
                      Nat.eqb (fst e) cb) (map (fun c => (c, v)) l) = []).
  { intros v l. induction l as [|x l IH]; intros H; [reflexivity|]. simpl.
    destruct (Nat.eqb x cb) eqn:E.
    - apply Nat.eqb_eq in E. exfalso. apply H. left. exact E.
    - apply IH. intros G. apply H. right. exact G. }
  destruct c as [cb0|cb0|t i a|i st]; simpl.
  - assert (E : cb0 <> cb) by (intros ->; apply Hc; reflexivity). split.
    + intros G. apply set_add_In in G. destruct G as [G|G]; [congruence|contradiction].
    + rewrite filter_app. simpl. apply Nat.eqb_neq in E. rewrite E.
      apply app_nil_r.
  - split; [|reflexivity]. unfold TxEvents.set_delete. intros G.
    apply filter_In in G. apply Hn, G.
  - split; [exact Hn|]. rewrite filter_app, Hnot by exact Hn. apply app_nil_r.
  - split; [exact Hn|]. rewrite filter_app, Hnot by exact Hn. apply app_nil_r.
Qed.

(** X29. A callback removed from the wallet store is not called again.
    After the function returned by [subscribeTransactions] has been called,
    no sequence of additions, status updates and subscriptions of other
    callbacks hands that callback a list. *)
Theorem wallet_unsubscribed_is_not_called :
  forall env calls s cb,
    Forall (fun c => c <> Wallet.call_subscribe cb) calls ->
    filter (fun e => Nat.eqb (fst e) cb)
           (Wallet.seen (fold_left (Wallet.perform env) calls (Wallet.unsubscribe cb s)))
    = filter (fun e => Nat.eqb (fst e) cb) (Wallet.seen s).
Proof.
  intros env calls s cb Hall.
  assert (G : forall cs s,
    Forall (fun c => c <> Wallet.call_subscribe cb) cs ->
    ~ In cb (Wallet.subs s) ->
    filter (fun e => Nat.eqb (fst e) cb)
           (Wallet.seen (fold_left (Wallet.perform env) cs s))
    = filter (fun e => Nat.eqb (fst e) cb) (Wallet.seen s)).
  { clear. induction cs as [|c cs IH]; intros s Hall Hn; [reflexivity|].
    inversion Hall as [|? ? Hc Hrest]; subst. simpl.
    destruct (@perform_unsubscribed env c s cb Hc Hn) as [Hn' Hf].
    rewrite IH by assumption. exact Hf. }
  rewrite G; [reflexivity|exact Hall|].
  simpl. apply set_delete_gone.
Qed.

Lemma wallet_unsubscribed_is_not_called_witness :
  let env := {| Wallet.Date_now := fun n => Z.of_nat (100 + n);
                Wallet.random_suffix := fun _ => "k3x9a" |} in
  let s := Wallet.subscribeTransactions 1
             {| Wallet.transactions := []; Wallet.subs := []; Wallet.seen := [];
                Wallet.ticks := 0; Wallet.draws := 0 |} in
  let calls := [Wallet.call_subscribe 2; Wallet.call_add "Ludo" None (Some 5%Z)] in
  filter (fun e => Nat.eqb (fst e) 1)
         (Wallet.seen (fold_left (Wallet.perform env) calls (Wallet.unsubscribe 1 s)))
  = [(1, [])] /\
  length (Wallet.seen (fold_left (Wallet.perform env) calls (Wallet.unsubscribe 1 s))) = 3.
Proof.
  intros env s calls. split; [|reflexivity].
  apply (@wallet_unsubscribed_is_not_called env calls s 1).
  repeat constructor; discriminate.
Defined.

(* ===================================================================== *)
(** ** Further facts: the reuse rule when calls are awaited *)
(* ===================================================================== *)





